(** * nsync: instruction build and execute pipelines

    A shallow embedding of the TypeScript sources of nsync

      - [src/utils/nixFlake.ts]                          (module [NixFlake])
      - [src/utils/instructions/commands/loadArchive.ts] (module [LoadArchive])
      - the switch command of [src/utils/instructions/commands]
                                                          (module [StoreSwitch])
      - [src/main.ts], handler of [dummy2]               (module [Main])

    and of what they call in modules whose sources are not at hand:
    [nixStore] (the delta engine), [nixArchive], [files], [clientStore],
    [nixGenerations] and [instructions] (validation). Of these, what is a
    computation of the repository itself is modelled from the
    specification, in a definition that says so; what is an external tool
    (nix, tar) or a builtin ([JSON.parse]) is a field of the record [Host],
    and every theorem holds for any behaviour of it.

    Asynchronous code is sequential here: every [await] is a bind of the
    monad [M], which threads the state of the host (files, directories, the
    target store, the system profile) and a log of the effects performed,
    and which stops at the first exception thrown. The callbacks
    [progressCallback] and [console.log] write to that log. The import
    into the store changes the store and nothing of the files that the
    program handles. *)

From stdpp Require Import gmap strings list fin_maps fin_sets pretty.

Set Warnings "-register-all,-clear-no-such-hyp".
Set Default Proof Using "Type".

(** ** JSON values and the JavaScript view of them *)

(** What [JSON.parse] returns. A number is carried by the text that
    [String(n)] gives for it. The properties of an object are listed in the
    order in which [Object.keys] reports them, each key once. *)
Inductive Json :=
| JNull
| JBool (b : bool)
| JNum (text : string)
| JStr (s : string)
| JArr (items : list Json)
| JObj (props : list (string * Json)).

(** A JavaScript value that came out of JSON data: [None] is [undefined]. *)
Abbreviation JsValue := (option Json).

Fixpoint assoc (k : string) (props : list (string * Json)) : JsValue :=
  match props with
  | [] => None
  | (k', v) :: rest => if decide (k' = k) then Some v else assoc k rest
  end.

(** [ToBoolean]: the test of [x ? a : b] and of [!x]. *)
Definition js_truthy (v : JsValue) : bool :=
  match v with
  | None => false
  | Some JNull => false
  | Some (JBool b) => b
  | Some (JNum t) => negb (bool_decide (t = "0" ∨ t = "NaN"))
  | Some (JStr s) => negb (bool_decide (s = ""))
  | Some (JArr _) => true
  | Some (JObj _) => true
  end.

Fixpoint join_with (sep : string) (parts : list string) : string :=
  match parts with
  | [] => ""
  | [p] => p
  | p :: rest => p +:+ sep +:+ join_with sep rest
  end.

(** [ToString] of a JSON value, as a template literal interpolates it. *)
Fixpoint json_to_string (j : Json) : string :=
  match j with
  | JNull => "null"
  | JBool true => "true"
  | JBool false => "false"
  | JNum t => t
  | JStr s => s
  | JArr items =>
      join_with ","
        (map (fun i => match i with JNull => "" | _ => json_to_string i end) items)
  | JObj _ => "[object Object]"
  end.

Definition js_to_string (v : JsValue) : string :=
  match v with
  | None => "undefined"
  | Some j => json_to_string j
  end.

(** ** Paths *)

(** An absolute, normalised path is the list of its segments; the root
    directory is the empty list. *)
Abbreviation Path := (list string).

Definition slash : Ascii.ascii := Ascii.Ascii true true true true false true false false.

(** The pieces of [s] between its slashes, [cur] being the piece read so far. *)
Fixpoint segments_from (cur : string) (s : string) : list string :=
  match s with
  | EmptyString => [cur]
  | String c rest =>
      if decide (c = slash) then cur :: segments_from "" rest
      else segments_from (cur +:+ String c EmptyString) rest
  end.

Definition segments (s : string) : list string := segments_from "" s.

(** Normalisation as [path.normalize] does it on an absolute path: empty
    and [.] segments are dropped, [..] removes the segment before it (and
    nothing at the root). [stack] is the path so far, last segment first. *)
Fixpoint normalize_onto (stack : list string) (segs : list string) : Path :=
  match segs with
  | [] => rev stack
  | s :: rest =>
      if decide (s = "" ∨ s = ".") then normalize_onto stack rest
      else if decide (s = "..") then normalize_onto (tail stack) rest
      else normalize_onto (s :: stack) rest
  end.

(** [path.join(base, rel)] for an absolute [base]. *)
Definition path_join (base : Path) (rel : string) : Path :=
  normalize_onto (rev base) (segments rel).

(** [path.basename(p)]. *)
Definition basename (p : Path) : string := default "" (last p).

(** The text of a path, as it is interpolated into a command line. *)
Definition render (p : Path) : string :=
  match p with
  | [] => "/"
  | _ => String.concat "" (map (fun s => "/" +:+ s) p)
  end.

(** A single segment that normalisation leaves alone. *)
Definition plain_segment (n : string) : Prop :=
  n ≠ "" ∧ n ≠ "." ∧ n ≠ ".." ∧ segments n = [n].

Global Instance plain_segment_dec n : Decision (plain_segment n).
Proof. unfold plain_segment. apply _. Defined.

(** ** Store paths and store roots *)

Abbreviation StorePath := string.

(** [storeRoot] of [instructions/schemas]. *)
Record StoreRoot := { nixPath : StorePath; gitRevision : string }.

(** One record of [nix path-info]. *)
Record PathInfo := {
  path : StorePath;
  narHash : string;
  narSize : Z;
  references : list StorePath
}.

(** What a store knows of one of its paths; the store itself maps each
    valid path to this. *)
Record PathMeta := {
  meta_narHash : string;
  meta_narSize : Z;
  meta_references : list StorePath
}.

Abbreviation StoreDb := (gmap StorePath PathMeta).

(** ** Exceptions, effects and the state of the host *)

Inductive Exn :=
| Error (message : string)
    (** [throw new Error(message)] *)
| ErrorZod (input : Json)
    (** an [Error] whose message is zod's report on [input] *)
| ErrorBuildResult (stdout : string)
    (** the [Error] of the [catch] in [buildSystemFlake]; its message is
        ["Error parsing flake build command result: "] followed by the
        description of the exception caught while reading [stdout] *)
| SystemError (code : string) (at_path : Path)
    (** a rejected [fs.promises] call *)
| InvalidInstruction (reason : string)
| UnknownCommandKind (kind : JsValue).

Inductive Outcome (A : Type) :=
| Ok (a : A)
| Throw (e : Exn).
Arguments Ok {A} a.
Arguments Throw {A} e.

Inductive Event :=
| EvExec (command : string)
| EvProgress (message : string)
| EvConsole (message : string)
| EvMkdir (dir : Path)
| EvRm (target : Path)
| EvCopyFile (src dst : Path)
| EvCopyOutputToArchive (storePath archivePath : string) (item : StorePath)
| EvPathInfo (storePath : string)
| EvMakeArchiveSubset (archivePath : string) (destinationPath : Path)
    (infoItemPaths dataItemPaths : list StorePath)
| EvNarinfoLookup (storePath : option Path) (clientStateStorePath : Path)
    (nixPaths : list StorePath)
| EvCopyArchiveToStore (archivePath : Path) (item : StorePath)
    (storePath : option Path)
| EvMakeNewSystemGeneration (storePath : Path) (nixItemPath : StorePath)
    (executeActivation : string)
| EvDecompress (destinationDir instructionPath : Path)
| EvReadDirInstruction (dir : Path).

(** The system profile: the generations made so far, the configuration
    that is running and the one the next boot starts. *)
Record System := {
  generations : list StorePath;
  running : option StorePath;
  bootDefault : option StorePath
}.

Record World := {
  files : gmap Path string;     (** regular files and their contents *)
  dirs : gset Path;             (** directories *)
  store : gset StorePath;       (** valid paths of the target store *)
  system : System;
  log : list Event              (** effects so far, oldest first *)
}.

Definition with_files (f : gmap Path string) (w : World) : World :=
  {| files := f; dirs := dirs w; store := store w; system := system w; log := log w |}.
Definition with_dirs (d : gset Path) (w : World) : World :=
  {| files := files w; dirs := d; store := store w; system := system w; log := log w |}.
Definition with_store (s : gset StorePath) (w : World) : World :=
  {| files := files w; dirs := dirs w; store := s; system := system w; log := log w |}.
Definition with_system (s : System) (w : World) : World :=
  {| files := files w; dirs := dirs w; store := store w; system := s; log := log w |}.
Definition with_log (l : list Event) (w : World) : World :=
  {| files := files w; dirs := dirs w; store := store w; system := system w; log := l |}.

(** The monad of asynchronous code: state passing, and an exception ends
    the computation. *)
Definition M (A : Type) : Type := World → Outcome A * World.

Definition ret {A} (a : A) : M A := fun w => (Ok a, w).
Definition throw {A} (e : Exn) : M A := fun w => (Throw e, w).
Definition bind {A B} (m : M A) (k : A → M B) : M B :=
  fun w =>
    match m w with
    | (Ok a, w') => k a w'
    | (Throw e, w') => (Throw e, w')
    end.
Definition emit (e : Event) : M unit := fun w => (Ok tt, with_log (log w ++ [e]) w).

Declare Scope m_scope.
Delimit Scope m_scope with M.
Notation "x <- m ;; k" := (bind m (fun x => k))
  (at level 100, m at next level, right associativity) : m_scope.
Notation "'run' m ;; k" := (bind m (fun _ => k))
  (at level 100, m at next level, right associativity) : m_scope.
Open Scope m_scope.

(** A computation that changes nothing but the log, and logs only events
    that satisfy [P]. *)
Definition only_logs {A} (P : Event → Prop) (m : M A) : Prop :=
  ∀ w r w', m w = (r, w') → ∃ events, w' = with_log (log w ++ events) w ∧ Forall P events.

(** [for (const x of xs) { await body(x) }] *)
Fixpoint for_each {A} (xs : list A) (body : A → M unit) : M unit :=
  match xs with
  | [] => ret tt
  | x :: rest => run body x ;; for_each rest body
  end.

(** ** The environment *)

(** The result object of [execaCommand]. *)
Record ExecResult := { failed : bool; stdout : string; stderr : string }.

(** The instruction as the handler of [dummy2] in [main.ts] reads it:
    [instruction.kind], [instruction.item.archivePath],
    [instruction.item.itemPath] and [instruction.deltaDependencies]. *)
Module DirInstruction.
Record Item := { archivePath : string; itemPath : StorePath }.
Record t := {
  kind : string;
  item : Item;
  deltaDependencies : list StoreRoot
}.
End DirInstruction.

(** The builtins, the external tools and the modules of the repository
    outside the verified sources. Each may answer according to the whole
    state of the host, the log of past effects included. *)
Record Host := {
  (** [JSON.parse]; [None] when it throws *)
  JSON_parse : string → option Json;
  (** the process that [execaCommand] awaits *)
  exec_result : World → string → ExecResult;
  (** [nixArchive.copyOutputToArchive]: storePath, archivePath, item; the
      answer lists the files it leaves in the archive directory, each with
      its path inside it, and the exception if the copy failed *)
  copyOutputToArchive_result :
    World → string → string → StorePath → list (Path * string) * option Exn;
  (** the path-info records of the store at a directory, for [nixStore] *)
  store_db : World → string → Outcome StoreDb;
  (** [nixArchive.makeArchiveSubset]: archivePath, destinationPath,
      infoItemPaths, dataItemPaths; the answer lists the files it puts into
      the destination, each with its path inside it *)
  makeArchiveSubset_result :
    World → string → Path → list StorePath → list StorePath →
    Outcome (list (Path * string));
  (** [clientStore.getNarinfoFileListForNixPaths]:
      storePath, clientStateStorePath, nixPaths *)
  narinfo_lookup : World → option Path → Path → list StorePath → Outcome (list Path);
  (** [nixArchive.copyArchiveToStore]: archivePath, item, storePath; the
      answer is the set of valid paths of the store afterwards *)
  copyArchiveToStore_result :
    World → Path → StorePath → option Path → Outcome (gset StorePath);
  (** the activation verb run by [nixGenerations.makeNewSystemGeneration]:
      storePath, nixItemPath, executeActivation; [Some e] when it fails *)
  activation_failure : World → Path → StorePath → string → option Exn;
  (** [instructions.decompressInstructionDir]: destinationDir,
      instructionPath; the answer lists the files extracted, each with its
      path inside the archive, and the exception if the extraction failed *)
  decompress_result : World → Path → Path → list (Path * string) * option Exn;
  (** [instructions.readDirInstruction] *)
  readDirInstruction_result : World → Path → Outcome DirInstruction.t
}.

(** ** The file system *)

(** [path.dirname(p)]. *)
Definition dirname (p : Path) : Path := removelast p.

(** [p] is an entry of the directory [dir]. *)
Definition in_dir (dir p : Path) : Prop := p ≠ [] ∧ dirname p = dir.

Global Instance in_dir_dec dir p : Decision (in_dir dir p).
Proof. unfold in_dir. apply _. Defined.

(** The directories above the entry [rel] of [base], [base] included. *)
Fixpoint ancestors_from (base : Path) (rel : list string) : list Path :=
  match rel with
  | [] => []
  | s :: rest => base :: ancestors_from (base ++ [s]) rest
  end.

(** Every file of a directory carries a name that is one plain segment. *)
Definition wf_world (w : World) : Prop :=
  map_Forall (fun p _ => plain_segment (basename p)) (files w).

Definition ends_with (suffix s : string) : bool :=
  bool_decide (String.list_ascii_of_string suffix `suffix_of` String.list_ascii_of_string s).

Definition console_log (message : string) : M unit := emit (EvConsole message).
Definition progressCallback (message : string) : M unit := emit (EvProgress message).

(** [fs.promises.mkdir(dir, { recursive: true })] *)
Definition mkdir_recursive (dir : Path) : M unit :=
  run emit (EvMkdir dir) ;;
  fun w =>
    let chain := ancestors_from [] dir ++ [dir] in
    if decide (Exists (fun d => is_Some (files w !! d)) chain)
    then (Throw (SystemError "EEXIST" dir), w)
    else (Ok tt, with_dirs (dirs w ∪ list_to_set chain) w).

(** [fs.promises.rm(target, { recursive: true, force })]: without [force]
    a target that does not exist is an error; otherwise the target and all
    that is below it are gone. *)
Definition rm_recursive (force : bool) (target : Path) : M unit :=
  run emit (EvRm target) ;;
  fun w =>
    if decide (force = false ∧ ¬ (target ∈ dirs w ∨ is_Some (files w !! target))) then
      (Throw (SystemError "ENOENT" target), w)
    else
      (Ok tt,
       with_dirs (filter (fun d => ¬ target `prefix_of` d) (dirs w))
         (with_files (filter (fun kv => ¬ target `prefix_of` kv.1) (files w)) w)).

(** [fs.promises.copyFile(src, dst)]; the directory of [dst] is taken to
    exist. *)
Definition copyFile (src dst : Path) : M unit :=
  run emit (EvCopyFile src dst) ;;
  fun w =>
    match files w !! src with
    | None => (Throw (SystemError "ENOENT" src), w)
    | Some content =>
        if decide (dst ∈ dirs w) then (Throw (SystemError "EISDIR" dst), w)
        else (Ok tt, with_files (<[dst := content]> (files w)) w)
    end.

(** The loop that copies each file of a list into the directory [dir],
    under its own name, and the event of each copy. *)
Definition copy_into (dir : Path) (l : list Path) : M unit :=
  for_each l (fun f => copyFile f (path_join dir (basename f))).

Definition copy_event (dir : Path) (f : Path) : Event :=
  EvCopyFile f (path_join dir (basename f)).

(** The effects on the archive folder of an instruction at build time. *)
Definition is_archive_event (e : Event) : bool :=
  match e with
  | EvRm _ | EvMakeArchiveSubset _ _ _ _ => true
  | _ => false
  end.

(** From [w] to [w'] nothing was removed: every file and every directory
    is still there, and no [rm] was run. *)
Definition keeps (w w' : World) : Prop :=
  (∀ p, is_Some (files w !! p) → is_Some (files w' !! p))
  ∧ dirs w ⊆ dirs w'
  ∧ ∃ events, log w' = log w ++ events
              ∧ Forall (fun e => ∀ target, e ≠ EvRm target) events.

(** A computation that removes nothing, whatever its outcome. *)
Definition keeping {A} (m : M A) : Prop :=
  ∀ w r w', m w = (r, w') → keeps w w'.

(** Neither [dir] nor anything below it exists in [w]. *)
Definition gone (dir : Path) (w : World) : Prop :=
  ∀ p, dir `prefix_of` p → files w !! p = None ∧ p ∉ dirs w.

(** A computation that, started where [dir] is a directory, ends with
    [dir] gone when it returns and with nothing removed when it throws. *)
Definition ends_well {A} (dir : Path) (m : M A) : Prop :=
  ∀ w r w', dir ∈ dirs w → m w = (r, w') →
    match r with
    | Ok _ => gone dir w'
    | Throw _ => keeps w w'
    end.

(** An event that leaves the archive folder alone. *)
Definition quiet (e : Event) : Prop := is_archive_event e = false.

(** The files [entries] written below [dest], with their directories. *)
Definition write_tree (dest : Path) (entries : list (Path * string)) (w : World) : World :=
  with_dirs
    (dirs w ∪ {[dest]} ∪
       ⋃ ((fun e : Path * string => list_to_set (ancestors_from dest e.1)) <$> entries))
    (with_files
       (foldl (fun fs (e : Path * string) => <[dest ++ e.1 := e.2]> fs) (files w) entries)
       w).

(** ** Arguments shared by the commands ([instructions/schemas]) *)

Record InstructionBuilderSharedArgs := {
  builder_instructionFolderPath : Path;
  workdirArchivePath : string;
  workdirStorePath : string
}.

Record InstructionExecutionSharedArgs := {
  storePath : Path;
  clientStateStorePath : Path;
  instructionFolderPath : Path
}.

(** * [src/utils/nixFlake.ts] *)

Module NixFlake.

Record FlakeBuildResult := {
  derivation : string;
  output : StorePath;
  gitRevision : JsValue
}.

(** The argument object of [buildSystemFlake] as its callers write it.
    The function destructures [flakeGitUri], [hostname], [ref] and
    [storeAbsolutePath]; the callers in the command modules set [rev]. *)
Record BuildFlakeArgs := {
  flakeGitUri : string;
  hostname : string;
  storeAbsolutePath : string;
  ref : option string;
  rev : option string
}.

(** [j.name] for a name that no prototype defines: [None] when reading
    it throws (on [null]), [Some None] when it is [undefined]. *)
Definition member (j : Json) (name : string) : option JsValue :=
  match j with
  | JNull => None
  | JObj props => Some (assoc name props)
  | _ => Some None
  end.

(** [configurationsSchema.safeParse(j)]: [None] when the parse fails,
    otherwise the value of [data.nixosConfigurations]. *)
Definition configurationsSchema (j : Json) : option (option (list (string * Json))) :=
  match j with
  | JObj props =>
      match assoc "nixosConfigurations" props with
      | None => Some None
      | Some (JObj configurations) => Some (Some configurations)
      | Some _ => None
      end
  | _ => None
  end.

(** [flakeBuildCommandResult.parse(j)], giving [drvPath] and [outputs.out]
    of the only element. *)
Definition flakeBuildCommandResult (j : Json) : option (string * string) :=
  match j with
  | JArr [JObj props] =>
      match assoc "drvPath" props, assoc "outputs" props with
      | Some (JStr drvPath), Some (JObj outputs) =>
          match assoc "out" outputs with
          | Some (JStr out) => Some (drvPath, out)
          | _ => None
          end
      | _, _ => None
      end
  | _ => None
  end.

(** The command line of [getRevisionFromRef]. *)
Definition info_command (flakeGitUri : string) (ref : option string) : string :=
  let refArg :=
    match ref with
    | Some r => if js_truthy (Some (JStr r)) then "?ref=" +:+ r else ""
    | None => ""
    end in
  "nix flake info --json " +:+ flakeGitUri +:+ refArg.

(** The command line of [getFlakeInfo]. *)
Definition show_command (flakeGitUri : string) (rev : JsValue) : string :=
  let revArg := if js_truthy rev then "?rev=" +:+ js_to_string rev else "" in
  "nix flake show --json " +:+ flakeGitUri +:+ revArg.

Definition toplevel_attr (hostname : string) : string :=
  "nixosConfigurations." +:+ hostname +:+ ".config.system.build.toplevel".

(** The command line of the build in [buildSystemFlake]. *)
Definition build_command (nixStoreRoot flakeGitUri : string) (gitRev : JsValue)
    (hostname : string) : string :=
  "nix build --json --no-link --store " +:+ nixStoreRoot +:+ " " +:+ flakeGitUri
    +:+ "?rev=" +:+ js_to_string gitRev +:+ "#" +:+ toplevel_attr hostname.

(** A command line of [nix build]. *)
Definition is_build (command : string) : bool := String.prefix "nix build" command.

(** The command lines run, oldest first. *)
Definition executed (log : list Event) : list string :=
  omap (fun e => match e with EvExec command => Some command | _ => None end) log.

Definition unknown_hostname_message (hostname : string) (hostnames : list string) : string :=
  "No flake configuration found for hostname: " +:+ hostname
    +:+ ". Available hostnames: " +:+ join_with ", " hostnames.

Section WithHost.
Context (host : Host).

Definition execaCommand (command : string) : M ExecResult :=
  fun w => (Ok (exec_result host w command), with_log (log w ++ [EvExec command]) w).

Definition getRevisionFromRef (flakeGitUri : string) (ref : option string) : M JsValue :=
  result <- execaCommand (info_command flakeGitUri ref) ;;
  if failed result then throw (Error (stderr result))
  else
    match JSON_parse host (stdout result) with
    | Some j =>
        match member j "revision" with
        | Some revision => ret revision
        | None => throw (Error ("Failed to parse flake info JSON: " +:+ stdout result))
        end
    | None => throw (Error ("Failed to parse flake info JSON: " +:+ stdout result))
    end.

Definition getFlakeInfo (flakeGitUri : string) (rev : JsValue) : M Json :=
  result <- execaCommand (show_command flakeGitUri rev) ;;
  if failed result then throw (Error (stderr result))
  else
    match JSON_parse host (stdout result) with
    | Some j => ret j
    | None => throw (Error ("Failed to parse flake info JSON: " +:+ stdout result))
    end.

Definition getFlakeHostnames (flakeGitUri : string) (rev : JsValue) : M (list string) :=
  flakeInfo <- getFlakeInfo flakeGitUri rev ;;
  match configurationsSchema flakeInfo with
  | None => throw (ErrorZod flakeInfo)
  | Some None => ret []
  | Some (Some configurations) => ret (fst <$> configurations)
  end.

Definition buildSystemFlake (args : BuildFlakeArgs) : M FlakeBuildResult :=
  gitRev <- getRevisionFromRef (flakeGitUri args) (ref args) ;;
  hostnames <- getFlakeHostnames (flakeGitUri args) gitRev ;;
  if negb (bool_decide (hostname args ∈ hostnames)) then
    throw (Error (unknown_hostname_message (hostname args) hostnames))
  else
    result <- execaCommand
      (build_command (storeAbsolutePath args) (flakeGitUri args) gitRev (hostname args)) ;;
    if failed result then throw (Error (stderr result))
    else
      match JSON_parse host (stdout result) with
      | Some j =>
          match flakeBuildCommandResult j with
          | Some (drvPath, out) =>
              ret {| derivation := drvPath; output := out; gitRevision := gitRev |}
          | None => throw (ErrorBuildResult (stdout result))
          end
      | None => throw (ErrorBuildResult (stdout result))
      end.

End WithHost.
End NixFlake.

(** * The delta engine ([src/utils/nixStore.ts]) *)

Module NixStore.

Record Delta := {
  added : list PathInfo;
  allResultingItems : list PathInfo
}.

Definition info_of (p : StorePath) (m : PathMeta) : PathInfo :=
  {| path := p;
     narHash := meta_narHash m;
     narSize := meta_narSize m;
     references := meta_references m |}.

(** The references of [p] as the store [D] records them. *)
Definition refs_of (D : StoreDb) (p : StorePath) : gset StorePath :=
  match D !! p with
  | Some m => list_to_set (meta_references m)
  | None => ∅
  end.

(** One more layer of references. *)
Definition expand (D : StoreDb) (S : gset StorePath) : gset StorePath :=
  S ∪ ⋃ (refs_of D <$> elements S).

Fixpoint iterate_expand (D : StoreDb) (n : nat) (S : gset StorePath) : gset StorePath :=
  match n with
  | O => S
  | S n' => iterate_expand D n' (expand D S)
  end.

Definition all_references (D : StoreDb) : gset StorePath :=
  ⋃ ((fun kv : StorePath * PathMeta => list_to_set (meta_references kv.2))
       <$> map_to_list D).

(** Modelled from the spec: [nixStore.ts] is not among the sources. The
    closure of a set of roots is the fixpoint of [references]; every layer
    that is not the last one brings a path that some record references, so
    as many layers as there are referenced paths reach the fixpoint. *)
Definition closure_paths (D : StoreDb) (roots : list StorePath) : gset StorePath :=
  iterate_expand D (size (all_references D)) (list_to_set roots).

(** Modelled from the spec: [queryPathInfo] of the store adapter, which is
    not among the sources; it gives the records of the store that cover the
    union of the closures of [roots], one per path, in the order in which
    the store lists its paths. *)
Definition queryPathInfo (D : StoreDb) (roots : list StorePath) : list PathInfo :=
  (fun kv : StorePath * PathMeta => info_of kv.1 kv.2)
    <$> filter (fun kv : StorePath * PathMeta => kv.1 ∈ closure_paths D roots)
               (map_to_list D).

(** Modelled from the spec: [computeDelta] ([getStoreDeltaPathsDelta] of
    [nixStore.ts], which is not among the sources), section 4.2: with [F]
    the union of the closures of the from-roots and [T] the closure of the
    to-root, [added = [p ∈ T if p.path ∉ F]] and [allResultingItems = T].
    The order of the two lists is the order of [queryPathInfo]. *)
Definition computeDelta (D : StoreDb) (fromRoots : list StorePath) (toRoot : StorePath)
    : Delta :=
  let F := queryPathInfo D fromRoots in
  let T := queryPathInfo D [toRoot] in
  {| added := filter (fun p => path p ∉ (path <$> F)) T;
     allResultingItems := T |}.

(** [r] reaches [p] along the references the store records. *)
Inductive reaches (D : StoreDb) : StorePath → StorePath → Prop :=
| reaches_refl p : reaches D p p
| reaches_step p m q r :
    D !! p = Some m → q ∈ meta_references m → reaches D q r → reaches D p r.

Section WithHost.
Context (host : Host).

Definition getStoreDeltaPathsDelta (storePath : string)
    (fromRootPathNames : list StorePath) (toRootPathName : StorePath) : M Delta :=
  run emit (EvPathInfo storePath) ;;
  D <- (fun w => (store_db host w storePath, w)) ;;
  ret (computeDelta D fromRootPathNames toRootPathName).

End WithHost.
End NixStore.

(** * Archives ([src/utils/nixArchive.ts]) *)

Module NixArchive.
Section WithHost.
Context (host : Host).

(** Modelled from the spec: [nixArchive.ts] is not among the sources;
    [exportToArchive] of section 4.1 leaves in the archive directory the
    files of the closure of the item. *)
Definition copyOutputToArchive (storePath archivePath : string) (item : StorePath) : M unit :=
  run emit (EvCopyOutputToArchive storePath archivePath item) ;;
  fun w =>
    let '(entries, failure) :=
      copyOutputToArchive_result host w storePath archivePath item in
    (match failure with Some e => Throw e | None => Ok tt end,
     write_tree (path_join [] archivePath) entries w).

Definition makeArchiveSubset (archivePath : string) (destinationPath : Path)
    (infoItemPaths dataItemPaths : list StorePath) : M unit :=
  run emit (EvMakeArchiveSubset archivePath destinationPath infoItemPaths dataItemPaths) ;;
  fun w =>
    match makeArchiveSubset_result host w archivePath destinationPath
            infoItemPaths dataItemPaths with
    | Ok entries => (Ok tt, write_tree destinationPath entries w)
    | Throw e => (Throw e, w)
    end.

Definition copyArchiveToStore (archivePath : Path) (item : StorePath)
    (storePath : option Path) : M unit :=
  run emit (EvCopyArchiveToStore archivePath item storePath) ;;
  fun w =>
    match copyArchiveToStore_result host w archivePath item storePath with
    | Ok valid => (Ok tt, with_store valid w)
    | Throw e => (Throw e, w)
    end.

End WithHost.
End NixArchive.

(** * Listing directories ([src/utils/files.ts]) *)

Module Files.

Definition entries (dir : Path) (w : World) : list Path :=
  filter (in_dir dir) (fst <$> map_to_list (files w)).

(** The info files among them: the files named [<hash>.narinfo]. *)
Definition narinfo_entries (dir : Path) (w : World) : list Path :=
  filter (fun p => ends_with ".narinfo" (basename p) = true) (entries dir w).

(** Modelled from the spec: [files.ts] is not among the sources; the files
    of a directory, by absolute path. *)
Definition getAbsoluteFilesListInDir (dir : Path) : M (list Path) :=
  fun w =>
    if decide (dir ∈ dirs w) then (Ok (entries dir w), w)
    else (Throw (SystemError "ENOENT" dir), w).

(** Modelled from the spec: [files.ts] is not among the sources; the info
    files of a directory (its files named [<hash>.narinfo]), by absolute
    path. *)
Definition getAbsoluteNarinfoListInDir (dir : Path) : M (list Path) :=
  fun w =>
    if decide (dir ∈ dirs w) then (Ok (narinfo_entries dir w), w)
    else (Throw (SystemError "ENOENT" dir), w).

End Files.

(** * The client metadata cache ([src/utils/clientStore.ts]) *)

Module ClientStore.
Section WithHost.
Context (host : Host).

Definition getNarinfoFileListForNixPaths (storePath : option Path)
    (clientStateStorePath : Path) (nixPaths : list StorePath) : M (list Path) :=
  run emit (EvNarinfoLookup storePath clientStateStorePath nixPaths) ;;
  fun w => (narinfo_lookup host w storePath clientStateStorePath nixPaths, w).

(** Modelled from the spec: [clientStore.ts] is not among the sources;
    [importInfoFiles] of section 4.7 copies the files into the cache by
    basename, overwriting duplicates. *)
Definition copyNarinfoFilesToCache (clientStateStorePath : Path)
    (narinfoFilePaths : list Path) : M unit :=
  for_each narinfoFilePaths
    (fun f => copyFile f (path_join clientStateStorePath (basename f))).

End WithHost.
End ClientStore.

(** * Generations ([src/utils/nixGenerations.ts]) *)

Module NixGenerations.
Section WithHost.
Context (host : Host).

(** Modelled from the spec: [nixGenerations.ts] is not among the sources.
    [activateGeneration] makes a new generation, which the next boot
    starts; the activation verb is that of [switch-to-configuration], and
    with [switch] the generation is the running system at once. *)
Definition makeNewSystemGeneration (storePath : Path) (nixItemPath : StorePath)
    (executeActivation : string) : M unit :=
  run emit (EvMakeNewSystemGeneration storePath nixItemPath executeActivation) ;;
  fun w =>
    match activation_failure host w storePath nixItemPath executeActivation with
    | Some e => (Throw e, w)
    | None =>
        let s := system w in
        (Ok tt,
         with_system
           {| generations := generations s ++ [nixItemPath];
              running := if decide (executeActivation = "switch")
                         then Some nixItemPath else running s;
              bootDefault := Some nixItemPath |} w)
    end.

End WithHost.
End NixGenerations.

(** * The switch command ([instructions/commands], [storeSwitchCommand]) *)

Module StoreSwitch.

(** ["immediate" | "next-reboot"] *)
Inductive Mode := Immediate | NextReboot.

(** [z.infer<typeof storeSwitchCommandSchema>]; the literal [kind] is the
    constructor [Switch] of [Instructions.Command]. *)
Record Command := {
  item : StoreRoot;
  mode : Mode
}.

Record BuildStoreSwitchCommandArgs := {
  flakeGitUri : string;
  hostname : string;
  rev : string;
  build_mode : Mode
}.

Section WithHost.
Context (host : Host).

Definition buildStoreSwitchCommand (args : BuildStoreSwitchCommandArgs)
    (shared : InstructionBuilderSharedArgs) : M Command :=
  run progressCallback "Building switch command" ;;
  newRevBuildInfo <-
    NixFlake.buildSystemFlake host
      {| NixFlake.flakeGitUri := flakeGitUri args;
         NixFlake.hostname := hostname args;
         NixFlake.storeAbsolutePath := workdirStorePath shared;
         NixFlake.ref := None;
         NixFlake.rev := Some (rev args) |} ;;
  ret {| item := {| nixPath := NixFlake.output newRevBuildInfo;
                    gitRevision := rev args |};
         mode := build_mode args |}.

Definition executeStoreSwitchCommand (args : Command)
    (shared : InstructionExecutionSharedArgs) : M unit :=
  NixGenerations.makeNewSystemGeneration host [] (nixPath (item args)) "switch".

End WithHost.
End StoreSwitch.

(** * The load command ([instructions/commands/loadArchive.ts]) *)

Module LoadArchive.

(** [z.infer<typeof loadArchiveDeltaCommandSchema>]; the literal [kind] is
    the constructor [Load] of [Instructions.Command]. *)
Record Command := {
  archivePath : string;
  deltaDependencies : list StoreRoot;
  partialNarinfos : bool;
  item : StoreRoot
}.

Record BuildLoadArchiveDeltaCommandArgs := {
  flakeGitUri : string;
  hostname : string;
  archiveFolderName : string;
  deltaDependencyRevs : list string;
  build_partialNarinfos : bool;
  newRev : string
}.

(** [FlakeBuildResult & { rev: string }] *)
Record BuildInfo := {
  rev : string;
  info : NixFlake.FlakeBuildResult
}.

Section WithHost.
Context (host : Host).

(** The loop over [deltaDependencyRevs], which pushes onto
    [oldRevBuildInfos]. *)
Fixpoint build_revisions (flakeGitUri hostname : string)
    (shared : InstructionBuilderSharedArgs) (revs : list string)
    (oldRevBuildInfos : list BuildInfo) : M (list BuildInfo) :=
  match revs with
  | [] => ret oldRevBuildInfos
  | rev :: rest =>
      run progressCallback ("Building revision " +:+ rev) ;;
      info <-
        NixFlake.buildSystemFlake host
          {| NixFlake.flakeGitUri := flakeGitUri;
             NixFlake.hostname := hostname;
             NixFlake.storeAbsolutePath := workdirStorePath shared;
             NixFlake.ref := None;
             NixFlake.rev := Some rev |} ;;
      build_revisions flakeGitUri hostname shared rest
        (oldRevBuildInfos ++ [{| rev := rev; info := info |}])
  end.

Definition infoItemPaths (partialNarinfos : bool) (pathInfo : NixStore.Delta)
    : list StorePath :=
  if partialNarinfos then path <$> NixStore.added pathInfo
  else path <$> NixStore.allResultingItems pathInfo.

Definition dataItemPaths (pathInfo : NixStore.Delta) : list StorePath :=
  path <$> NixStore.added pathInfo.

Definition buildLoadArchiveDeltaCommand (args : BuildLoadArchiveDeltaCommandArgs)
    (shared : InstructionBuilderSharedArgs) : M Command :=
  run progressCallback "Building previous revisions" ;;
  oldRevBuildInfos <-
    build_revisions (flakeGitUri args) (hostname args) shared
      (deltaDependencyRevs args) [] ;;
  run progressCallback "Building new revision" ;;
  newRevBuildInfo <-
    NixFlake.buildSystemFlake host
      {| NixFlake.flakeGitUri := flakeGitUri args;
         NixFlake.hostname := hostname args;
         NixFlake.storeAbsolutePath := workdirStorePath shared;
         NixFlake.ref := None;
         NixFlake.rev := Some (newRev args) |} ;;
  run progressCallback "Copying to archive" ;;
  run NixArchive.copyOutputToArchive host (workdirStorePath shared)
        (workdirArchivePath shared) (NixFlake.output newRevBuildInfo) ;;
  run progressCallback "Getting path info" ;;
  pathInfo <-
    NixStore.getStoreDeltaPathsDelta host (workdirStorePath shared)
      ((fun b => NixFlake.output (info b)) <$> oldRevBuildInfos)
      (NixFlake.output newRevBuildInfo) ;;
  run progressCallback
        (pretty (length (NixStore.added pathInfo)) +:+ " paths added, with a total "
           +:+ pretty (length (NixStore.allResultingItems pathInfo)) +:+ " store items.") ;;
  run progressCallback "Building new archive" ;;
  let archiveFolderPath :=
    path_join (builder_instructionFolderPath shared) (archiveFolderName args) in
  run rm_recursive true archiveFolderPath ;;
  run NixArchive.makeArchiveSubset host (workdirArchivePath shared) archiveFolderPath
        (infoItemPaths (build_partialNarinfos args) pathInfo)
        (dataItemPaths pathInfo) ;;
  ret {| archivePath := archiveFolderName args;
         deltaDependencies :=
           (fun build => {| gitRevision := rev build;
                            nixPath := NixFlake.output (info build) |})
             <$> oldRevBuildInfos;
         item := {| gitRevision := newRev args;
                    nixPath := NixFlake.output newRevBuildInfo |};
         partialNarinfos := build_partialNarinfos args |}.

(** [storePath == "/" ? undefined : storePath] *)
Definition store_argument (storePath : Path) : option Path :=
  if decide (storePath = []) then None else Some storePath.

(** The loop that copies the info files of the dependencies into the
    archive. *)
Definition enrich (absoluteArchivePath : Path) (narinfoFiles : list Path) : M unit :=
  for_each narinfoFiles
    (fun narinfoFile =>
       let narinfoFilename := basename narinfoFile in
       let destinationPath := path_join absoluteArchivePath narinfoFilename in
       copyFile narinfoFile destinationPath).

Definition executeLoadArchiveDeltaCommand (command : Command)
    (shared : InstructionExecutionSharedArgs) : M unit :=
  let absoluteArchivePath :=
    path_join (instructionFolderPath shared) (archivePath command) in
  existingNarinfoFilePaths <- Files.getAbsoluteNarinfoListInDir absoluteArchivePath ;;
  narinfoFiles <-
    ClientStore.getNarinfoFileListForNixPaths host (store_argument (storePath shared))
      (clientStateStorePath shared) (nixPath <$> deltaDependencies command) ;;
  run enrich absoluteArchivePath narinfoFiles ;;
  run console_log "Copying nix store items to the store" ;;
  run NixArchive.copyArchiveToStore host absoluteArchivePath (nixPath (item command))
        (store_argument (storePath shared)) ;;
  run console_log "Updating local config" ;;
  ClientStore.copyNarinfoFilesToCache (clientStateStorePath shared)
    existingNarinfoFilePaths.

End WithHost.
End LoadArchive.

(** * Instructions ([src/utils/instructions]) *)

Module Instructions.

Inductive Command :=
| Load (c : LoadArchive.Command)
| Switch (c : StoreSwitch.Command).

(** [{ kind: "switch", commands }] *)
Record Instruction := { commands : list Command }.

Definition parse_storeRoot (j : Json) : option StoreRoot :=
  match j with
  | JObj props =>
      match assoc "nixPath" props, assoc "gitRevision" props with
      | Some (JStr p), Some (JStr r) => Some {| nixPath := p; gitRevision := r |}
      | _, _ => None
      end
  | _ => None
  end.

(** [loadArchiveDeltaCommandSchema] on the properties of a command. *)
Definition parse_load (props : list (string * Json)) : option LoadArchive.Command :=
  match assoc "archivePath" props, assoc "deltaDependencies" props,
        assoc "partialNarinfos" props, assoc "item" props with
  | Some (JStr archivePath), Some (JArr dependencies), Some (JBool partialNarinfos),
    Some item =>
      deltaDependencies ← mapM parse_storeRoot dependencies;
      item ← parse_storeRoot item;
      Some {| LoadArchive.archivePath := archivePath;
              LoadArchive.deltaDependencies := deltaDependencies;
              LoadArchive.partialNarinfos := partialNarinfos;
              LoadArchive.item := item |}
  | _, _, _, _ => None
  end.

Definition parse_mode (j : JsValue) : option StoreSwitch.Mode :=
  match j with
  | Some (JStr m) =>
      if decide (m = "immediate") then Some StoreSwitch.Immediate
      else if decide (m = "next-reboot") then Some StoreSwitch.NextReboot
      else None
  | _ => None
  end.

(** [storeSwitchCommandSchema] on the properties of a command. *)
Definition parse_switch (props : list (string * Json)) : option StoreSwitch.Command :=
  match assoc "item" props with
  | Some item =>
      item ← parse_storeRoot item;
      mode ← parse_mode (assoc "mode" props);
      Some {| StoreSwitch.item := item; StoreSwitch.mode := mode |}
  | None => None
  end.

(** One command, chosen by its discriminator [kind]. *)
Definition parse_command (j : Json) : Outcome Command :=
  match j with
  | JObj props =>
      match assoc "kind" props with
      | Some (JStr kind) =>
          if decide (kind = "load") then
            match parse_load props with
            | Some c => Ok (Load c)
            | None => Throw (InvalidInstruction "load command does not match its schema")
            end
          else if decide (kind = "switch") then
            match parse_switch props with
            | Some c => Ok (Switch c)
            | None => Throw (InvalidInstruction "switch command does not match its schema")
            end
          else Throw (UnknownCommandKind (Some (JStr kind)))
      | other => Throw (UnknownCommandKind other)
      end
  | _ => Throw (InvalidInstruction "command is not an object")
  end.

Fixpoint parse_commands (items : list Json) : Outcome (list Command) :=
  match items with
  | [] => Ok []
  | j :: rest =>
      match parse_command j with
      | Throw e => Throw e
      | Ok c =>
          match parse_commands rest with
          | Throw e => Throw e
          | Ok cs => Ok (c :: cs)
          end
      end
  end.

Definition parse_instruction (j : Json) : Outcome Instruction :=
  match j with
  | JObj props =>
      match assoc "kind" props, assoc "commands" props with
      | Some (JStr kind), Some (JArr items) =>
          if decide (kind = "switch") then
            match parse_commands items with
            | Ok cs => Ok {| commands := cs |}
            | Throw e => Throw e
            end
          else Throw (InvalidInstruction "instruction kind is not switch")
      | _, _ => Throw (InvalidInstruction "instruction does not match its schema")
      end
  | _ => Throw (InvalidInstruction "instruction is not an object")
  end.

Definition is_switch (c : Command) : bool :=
  match c with Switch _ => true | Load _ => false end.

Definition at_most_one_switch (cs : list Command) : bool :=
  bool_decide (length (filter (fun c => is_switch c = true) cs) ≤ 1).

(** If there is a switch, the last command is one. *)
Definition switch_is_last (cs : list Command) : bool :=
  match last cs with
  | Some (Switch _) => true
  | _ => negb (existsb is_switch cs)
  end.

Definition archive_directories_exist (dir : Path) (cs : list Command) (w : World) : bool :=
  forallb
    (fun c => match c with
              | Load l => bool_decide (path_join dir (LoadArchive.archivePath l) ∈ dirs w)
              | Switch _ => true
              end) cs.

Section WithHost.
Context (host : Host).

(** What validation reads: [instruction.json] of the directory, parsed
    against the schema of the commands. *)
Definition read_instruction (dir : Path) (w : World) : Outcome Instruction :=
  match files w !! path_join dir "instruction.json" with
  | None => Throw (InvalidInstruction "instruction.json is missing")
  | Some text =>
      match JSON_parse host text with
      | None => Throw (InvalidInstruction "instruction.json is not JSON")
      | Some j => parse_instruction j
      end
  end.

(** Modelled from the spec: [assertInstructionDirValid] of
    [src/utils/instructions], which is not among the sources. Section 4.5:
    it parses [instruction.json] against the command schema, verifies that
    every [Load.archivePath] exists as a directory, and verifies that there
    is at most one [Switch] and that it is last; any violation is
    [InvalidInstruction], an unknown discriminator [UnknownCommandKind].
    The rule on [deltaDependencies] of the same section admits a root that
    an earlier [Load] declares and a root that none declares, so it refuses
    nothing. *)
Definition assertInstructionDirValid (dir : Path) : M unit :=
  fun w =>
    match read_instruction dir w with
    | Throw e => (Throw e, w)
    | Ok instruction =>
        let cs := commands instruction in
        if negb (archive_directories_exist dir cs w) then
          (Throw (InvalidInstruction "archive directory is missing"), w)
        else if negb (at_most_one_switch cs && switch_is_last cs) then
          (Throw (InvalidInstruction "switch must be last"), w)
        else (Ok tt, w)
    end.

Definition decompressInstructionDir (destinationDir instructionPath : Path) : M unit :=
  run emit (EvDecompress destinationDir instructionPath) ;;
  fun w =>
    let '(entries, failure) := decompress_result host w destinationDir instructionPath in
    (match failure with Some e => Throw e | None => Ok tt end,
     write_tree destinationDir entries w).

Definition readDirInstruction (dir : Path) : M DirInstruction.t :=
  run emit (EvReadDirInstruction dir) ;;
  fun w => (readDirInstruction_result host w dir, w).

End WithHost.
End Instructions.

(** * [src/main.ts] *)

Module Main.
Section WithHost.
Context (host : Host).

(** The handler of the command [dummy2]; the four paths are absolute
    ([ensurePathAbsolute]). *)
Definition dummy2 (workdirPath instructionPath clientStateStorePath storePath : Path)
    : M unit :=
  run mkdir_recursive workdirPath ;;
  run console_log "Decompressing instruction" ;;
  run Instructions.decompressInstructionDir host workdirPath instructionPath ;;
  instruction <- Instructions.readDirInstruction host workdirPath ;;
  if negb (bool_decide (DirInstruction.kind instruction = "switch")) then
    throw (Error "Invalid instruction kind")
  else
    run Instructions.assertInstructionDirValid host workdirPath ;;
    let archivePath :=
      path_join workdirPath
        (DirInstruction.archivePath (DirInstruction.item instruction)) in
    existingNarinfoFilePaths <- Files.getAbsoluteFilesListInDir archivePath ;;
    run for_each existingNarinfoFilePaths (fun p => console_log (render p)) ;;
    narinfoFiles <-
      ClientStore.getNarinfoFileListForNixPaths host
        (LoadArchive.store_argument storePath) clientStateStorePath
        (nixPath <$> DirInstruction.deltaDependencies instruction) ;;
    run for_each narinfoFiles
          (fun narinfoFile =>
             let narinfoFilename := basename narinfoFile in
             let destinationPath := path_join archivePath narinfoFilename in
             copyFile narinfoFile destinationPath) ;;
    run console_log "Copying nix store items to the store" ;;
    run NixArchive.copyArchiveToStore host archivePath
          (DirInstruction.itemPath (DirInstruction.item instruction))
          (LoadArchive.store_argument storePath) ;;
    run console_log "Updating local config" ;;
    run ClientStore.copyNarinfoFilesToCache clientStateStorePath
          existingNarinfoFilePaths ;;
    run console_log "Cleaning up" ;;
    rm_recursive false workdirPath.

End WithHost.
End Main.

(** * A build host and a target host to run the code on *)

Module Scenario.

Definition flake : string := "git+file:///srv/flake".
(** The revision checked out, and the revision that follows it. *)
Definition revA : string := "bb60c1fc88e454cceed98ec3af0e0750481536b5".
Definition revB : string := "f76088a37336f3226065a6405b81494b06eced20".
Definition outA : StorePath := "/nix/store/aaaa-nixos-system-testvm".
Definition outB : StorePath := "/nix/store/bbbb-nixos-system-testvm".
Definition glibc : StorePath := "/nix/store/cccc-glibc".
Definition hello : StorePath := "/nix/store/dddd-hello".
Definition build_store : string := "/work/store".
Definition build_archive : string := "/work/archive".

(** The standard outputs of the tools, by name, and what [JSON.parse]
    makes of each. *)
Definition info_stdout : string := "flake-info.json".
Definition show_stdout : string := "flake-show.json".
Definition buildA_stdout : string := "build-a.json".
Definition buildB_stdout : string := "build-b.json".
Definition instruction_text : string := "instruction.json: switch, load".
Definition valid_instruction_text : string := "instruction.json: load, switch".

Definition build_json (drv out : string) : Json :=
  JArr [JObj [("drvPath", JStr drv); ("outputs", JObj [("out", JStr out)])]].

Definition root_json (p r : string) : Json :=
  JObj [("nixPath", JStr p); ("gitRevision", JStr r)].

Definition switch_json : Json :=
  JObj [("kind", JStr "switch"); ("item", root_json outB revB);
        ("mode", JStr "immediate")].

Definition load_json : Json :=
  JObj [("kind", JStr "load"); ("archivePath", JStr "archive");
        ("deltaDependencies", JArr [root_json outA revA]);
        ("partialNarinfos", JBool true); ("item", root_json outB revB)].

Definition parse (s : string) : option Json :=
  if decide (s = info_stdout) then Some (JObj [("revision", JStr revA)])
  else if decide (s = show_stdout) then
    Some (JObj [("nixosConfigurations", JObj [("testvm", JObj [])])])
  else if decide (s = buildA_stdout) then Some (build_json "/nix/store/aaaa.drv" outA)
  else if decide (s = buildB_stdout) then Some (build_json "/nix/store/bbbb.drv" outB)
  else if decide (s = instruction_text) then
    Some (JObj [("kind", JStr "switch"); ("commands", JArr [switch_json; load_json])])
  else if decide (s = valid_instruction_text) then
    Some (JObj [("kind", JStr "switch"); ("commands", JArr [load_json; switch_json])])
  else None.

Definition succeeded (out : string) : ExecResult :=
  {| failed := false; stdout := out; stderr := "" |}.

(** The flake has [revA] checked out and declares the one host [testvm];
    it builds to [outA] at [revA] and to [outB] at [revB]. *)
Definition exec (w : World) (command : string) : ExecResult :=
  if decide (command = NixFlake.info_command flake None) then succeeded info_stdout
  else if decide (command = NixFlake.show_command flake (Some (JStr revA))) then
    succeeded show_stdout
  else if decide (command = NixFlake.show_command flake (Some (JStr revB))) then
    succeeded show_stdout
  else if decide (command =
                  NixFlake.build_command build_store flake (Some (JStr revA)) "testvm") then
    succeeded buildA_stdout
  else if decide (command =
                  NixFlake.build_command build_store flake (Some (JStr revB)) "testvm") then
    succeeded buildB_stdout
  else {| failed := true; stdout := ""; stderr := "error: unknown command" |}.

Definition meta (refs : list StorePath) : PathMeta :=
  {| meta_narHash := "sha256:0000"; meta_narSize := 4096; meta_references := refs |}.

(** The store of the build host after both builds. *)
Definition db : StoreDb :=
  <[outA := meta [outA; glibc]]>
    (<[outB := meta [outB; glibc; hello]]>
       (<[glibc := meta [glibc]]> (<[hello := meta [glibc]]> ∅))).

Definition instruction_dir : Path := ["tmp"; "instruction"].
Definition archive_dir : Path := ["tmp"; "instruction"; "archive"].
Definition cache_dir : Path := ["var"; "lib"; "nsync"].

Definition host : Host :=
  {| JSON_parse := parse;
     exec_result := exec;
     copyOutputToArchive_result := fun _ _ _ item =>
       ([([item +:+ ".narinfo"], "narinfo"); (["nar"; item +:+ ".nar"], "data")], None);
     store_db := fun _ _ => Ok db;
     makeArchiveSubset_result := fun _ _ _ info _ =>
       Ok (map (fun p : StorePath => ([p +:+ ".narinfo"], "narinfo")) info);
     narinfo_lookup := fun _ _ cache _ => Ok [cache ++ ["cccc.narinfo"]];
     copyArchiveToStore_result := fun w _ item _ => Ok (store w ∪ {[item]});
     activation_failure := fun _ _ _ _ => None;
     decompress_result := fun _ _ _ =>
       ([(["instruction.json"], instruction_text);
         (["archive"; "dddd.narinfo"], "hello")], None);
     readDirInstruction_result := fun _ _ =>
       Ok {| DirInstruction.kind := "switch";
             DirInstruction.item :=
               {| DirInstruction.archivePath := "archive";
                  DirInstruction.itemPath := outB |};
             DirInstruction.deltaDependencies :=
               [{| nixPath := outA; gitRevision := revA |}] |} |}.

(** The same target, with a store tool that refuses every import. *)
Definition refusing_host : Host :=
  {| JSON_parse := parse;
     exec_result := exec;
     copyOutputToArchive_result := copyOutputToArchive_result host;
     store_db := store_db host;
     makeArchiveSubset_result := makeArchiveSubset_result host;
     narinfo_lookup := narinfo_lookup host;
     copyArchiveToStore_result := fun _ _ _ _ => Throw (Error "hash mismatch");
     activation_failure := activation_failure host;
     decompress_result := decompress_result host;
     readDirInstruction_result := readDirInstruction_result host |}.

(** The same target, receiving an instruction whose commands are load,
    switch. *)
Definition installing_host : Host :=
  {| JSON_parse := parse;
     exec_result := exec;
     copyOutputToArchive_result := copyOutputToArchive_result host;
     store_db := store_db host;
     makeArchiveSubset_result := makeArchiveSubset_result host;
     narinfo_lookup := narinfo_lookup host;
     copyArchiveToStore_result := copyArchiveToStore_result host;
     activation_failure := activation_failure host;
     decompress_result := fun _ _ _ =>
       ([(["instruction.json"], valid_instruction_text);
         (["archive"; "dddd.narinfo"], "hello")], None);
     readDirInstruction_result := readDirInstruction_result host |}.

Definition idle : System :=
  {| generations := [outA]; running := Some outA; bootDefault := Some outA |}.

(** A build host on which nothing has happened yet. *)
Definition fresh : World :=
  {| files := ∅; dirs := ∅; store := ∅; system := idle; log := [] |}.

(** A target that runs [outA], holds the info file of [glibc] in its
    cache, and has the instruction unpacked: the archive ships the info
    file of [hello]. *)
Definition target : World :=
  {| files :=
       <[archive_dir ++ ["dddd.narinfo"] := "hello"]>
         (<[archive_dir ++ ["nar"; "dddd.nar"] := "data"]>
            (<[instruction_dir ++ ["instruction.json"] := instruction_text]>
               (<[cache_dir ++ ["cccc.narinfo"] := "glibc"]> ∅)));
     dirs := {[ instruction_dir; archive_dir; archive_dir ++ ["nar"]; cache_dir ]};
     store := {[ outA; glibc ]};
     system := idle;
     log := [] |}.

(** The same target before the instruction arrives. *)
Definition waiting : World :=
  {| files := <[cache_dir ++ ["cccc.narinfo"] := "glibc"]> ∅;
     dirs := {[ cache_dir ]};
     store := {[ outA; glibc ]};
     system := idle;
     log := [] |}.

Definition build_shared : InstructionBuilderSharedArgs :=
  {| builder_instructionFolderPath := ["work"; "instruction"];
     workdirArchivePath := build_archive;
     workdirStorePath := build_store |}.

Definition execute_shared : InstructionExecutionSharedArgs :=
  {| storePath := [];
     clientStateStorePath := cache_dir;
     instructionFolderPath := instruction_dir |}.

Definition load_args (past : list string) (new : string)
    : LoadArchive.BuildLoadArchiveDeltaCommandArgs :=
  {| LoadArchive.flakeGitUri := flake;
     LoadArchive.hostname := "testvm";
     LoadArchive.archiveFolderName := "archive";
     LoadArchive.deltaDependencyRevs := past;
     LoadArchive.build_partialNarinfos := true;
     LoadArchive.newRev := new |}.

Definition load_command : LoadArchive.Command :=
  {| LoadArchive.archivePath := "archive";
     LoadArchive.deltaDependencies := [{| nixPath := outA; gitRevision := revA |}];
     LoadArchive.partialNarinfos := true;
     LoadArchive.item := {| nixPath := outB; gitRevision := revB |} |}.

Definition switch_command (m : StoreSwitch.Mode) : StoreSwitch.Command :=
  {| StoreSwitch.item := {| nixPath := outB; gitRevision := revB |};
     StoreSwitch.mode := m |}.

End Scenario.

(** * More of [src/utils/nixFlake.ts]: the revisions of a repository *)

Module GitRevisions.

Definition newline : Ascii.ascii :=
  Ascii.Ascii false true false true false false false false.

(** [s.split(sep)] for a separator of one character: the pieces of [s]
    between the separators, [cur] being the piece read so far. *)
Fixpoint split_from (sep : Ascii.ascii) (cur : string) (s : string) : list string :=
  match s with
  | EmptyString => [cur]
  | String c rest =>
      if decide (c = sep) then cur :: split_from sep "" rest
      else split_from sep (cur +:+ String c EmptyString) rest
  end.

Definition split (sep : Ascii.ascii) (s : string) : list string := split_from sep "" s.

(** The command that the tag [$] runs; [absolutePath] is one argument of
    it. *)
Definition log_command (absolutePath : string) : string :=
  "git -C " +:+ absolutePath +:+ " log --pretty=format:%H".

Section WithHost.
Context (host : Host).

Definition getGitRevisions (absolutePath : string) : M (list string) :=
  result <- NixFlake.execaCommand host (log_command absolutePath) ;;
  if failed result then throw (Error (stderr result))
  else ret (split newline (stdout result)).

End WithHost.
End GitRevisions.

(** * The commands as JSON *)

Module CommandJson.

(** The object that a build function returns for a store root; the load
    command writes [gitRevision] first, the switch command [nixPath]. *)
Definition dependency_to_json (r : StoreRoot) : Json :=
  JObj [("gitRevision", JStr (gitRevision r)); ("nixPath", JStr (nixPath r))].

Definition item_to_json (r : StoreRoot) : Json :=
  JObj [("nixPath", JStr (nixPath r)); ("gitRevision", JStr (gitRevision r))].

(** The object that [buildLoadArchiveDeltaCommand] returns. *)
Definition load_to_json (c : LoadArchive.Command) : Json :=
  JObj [("kind", JStr "load");
        ("archivePath", JStr (LoadArchive.archivePath c));
        ("deltaDependencies",
         JArr (dependency_to_json <$> LoadArchive.deltaDependencies c));
        ("item", dependency_to_json (LoadArchive.item c));
        ("partialNarinfos", JBool (LoadArchive.partialNarinfos c))].

Definition mode_to_json (m : StoreSwitch.Mode) : Json :=
  match m with
  | StoreSwitch.Immediate => JStr "immediate"
  | StoreSwitch.NextReboot => JStr "next-reboot"
  end.

(** The object that [buildStoreSwitchCommand] returns. *)
Definition switch_to_json (c : StoreSwitch.Command) : Json :=
  JObj [("kind", JStr "switch");
        ("item", item_to_json (StoreSwitch.item c));
        ("mode", mode_to_json (StoreSwitch.mode c))].

Definition command_to_json (c : Instructions.Command) : Json :=
  match c with
  | Instructions.Load l => load_to_json l
  | Instructions.Switch s => switch_to_json s
  end.

End CommandJson.

(** * [main.ts]: the handler of the command [build] *)

Module MainBuild.

Definition absolutePath : string :=
  "/home/arduano/programming/spiralblue/vms/test-flake".
Definition hostname : string := "testvm".

Section WithHost.
Context (host : Host).

(** The object passed to [buildSystemFlake] has the properties
    [flakeAbsolutePath], [hostname] and [storeAbsolutePath]: the
    [flakeGitUri] that [buildSystemFlake] takes from it is [undefined],
    which the template literals of the command lines render as the text
    [undefined]; so is [ref]. *)
Definition build : M unit :=
  let nixStorePath := absolutePath +:+ "/.nix" in
  run console_log "Building" ;;
  newRevBuildInfo <-
    NixFlake.buildSystemFlake host
      {| NixFlake.flakeGitUri := "undefined";
         NixFlake.hostname := hostname;
         NixFlake.storeAbsolutePath := nixStorePath;
         NixFlake.ref := None;
         NixFlake.rev := None |} ;;
  ret tt.

End WithHost.
End MainBuild.

(** * More hosts to run the code on *)

Module Scenario2.

(** The host of [Scenario] with other answers of [JSON.parse] and of the
    processes. *)
Definition with_tools (parse : string → option Json)
    (exec : World → string → ExecResult) : Host :=
  {| JSON_parse := parse;
     exec_result := exec;
     copyOutputToArchive_result := copyOutputToArchive_result Scenario.host;
     store_db := store_db Scenario.host;
     makeArchiveSubset_result := makeArchiveSubset_result Scenario.host;
     narinfo_lookup := narinfo_lookup Scenario.host;
     copyArchiveToStore_result := copyArchiveToStore_result Scenario.host;
     activation_failure := activation_failure Scenario.host;
     decompress_result := decompress_result Scenario.host;
     readDirInstruction_result := readDirInstruction_result Scenario.host |}.

Definition answers (table : list (string * string)) (w : World) (command : string)
    : ExecResult :=
  match list_find (fun entry : string * string => entry.1 = command) table with
  | Some (_, entry) => Scenario.succeeded entry.2
  | None => {| failed := true; stdout := ""; stderr := "error: unknown command" |}
  end.

Definition parses (table : list (string * Json)) (s : string) : option Json :=
  match list_find (fun entry : string * Json => entry.1 = s) table with
  | Some (_, entry) => Some entry.2
  | None => Scenario.parse s
  end.

Definition args : NixFlake.BuildFlakeArgs :=
  {| NixFlake.flakeGitUri := Scenario.flake;
     NixFlake.hostname := "testvm";
     NixFlake.storeAbsolutePath := Scenario.build_store;
     NixFlake.ref := None;
     NixFlake.rev := None |}.

(** A flake with uncommitted changes: [nix flake info] reports no
    [revision]. *)
Definition dirty : Host :=
  with_tools
    (parses [("dirty-info.json", JObj [("dirtyRevision", JStr "bb60c1f-dirty")])])
    (answers
       [(NixFlake.info_command Scenario.flake None, "dirty-info.json");
        (NixFlake.show_command Scenario.flake None, Scenario.show_stdout);
        (NixFlake.build_command Scenario.build_store Scenario.flake None "testvm",
         Scenario.buildA_stdout)]).

(** A flake that declares packages and no system configuration. *)
Definition bare : Host :=
  with_tools
    (parses [("bare-show.json", JObj [("packages", JObj [])])])
    (answers
       [(NixFlake.info_command Scenario.flake None, Scenario.info_stdout);
        (NixFlake.show_command Scenario.flake (Some (JStr Scenario.revA)),
         "bare-show.json")]).

(** A build that prints an empty array. *)
Definition silent : Host :=
  with_tools
    (parses [("empty-build.json", JArr [])])
    (answers
       [(NixFlake.info_command Scenario.flake None, Scenario.info_stdout);
        (NixFlake.show_command Scenario.flake (Some (JStr Scenario.revA)),
         Scenario.show_stdout);
        (NixFlake.build_command Scenario.build_store Scenario.flake
           (Some (JStr Scenario.revA)) "testvm",
         "empty-build.json")]).

(** A repository with two commits. *)
Definition repository : Host :=
  with_tools Scenario.parse
    (answers
       [(GitRevisions.log_command "/srv/flake",
         Scenario.revB +:+ String GitRevisions.newline Scenario.revA)]).

(** The target of [Scenario] with its cache emptied: the info file of
    [glibc], which the lookup of the dependencies names, is not there. *)
Definition forgetful : World :=
  with_files (delete (Scenario.cache_dir ++ ["cccc.narinfo"]) (files Scenario.target))
    Scenario.target.

(** The build host after an earlier build: its instruction folder holds
    an archive with an info file of that build. *)
Definition stale : World :=
  {| files := <[["work"; "instruction"; "archive"; "old.narinfo"] := "stale"]> ∅;
     dirs := {[ ["work"]; ["work"; "instruction"]; ["work"; "instruction"; "archive"] ]};
     store := ∅;
     system := Scenario.idle;
     log := [] |}.

(** A target whose store, not its cache, holds the info file of [glibc],
    under the name [cccc.narinfo]; the lookup of the dependencies finds it
    there. The archive ships an info file of the same name. *)
Definition store_host : Host :=
  {| JSON_parse := JSON_parse Scenario.host;
     exec_result := exec_result Scenario.host;
     copyOutputToArchive_result := copyOutputToArchive_result Scenario.host;
     store_db := store_db Scenario.host;
     makeArchiveSubset_result := makeArchiveSubset_result Scenario.host;
     narinfo_lookup := fun _ _ _ _ => Ok [["srv"; "store"; "cccc.narinfo"]];
     copyArchiveToStore_result := copyArchiveToStore_result Scenario.host;
     activation_failure := activation_failure Scenario.host;
     decompress_result := decompress_result Scenario.host;
     readDirInstruction_result := readDirInstruction_result Scenario.host |}.

Definition colliding : World :=
  {| files :=
       <[Scenario.archive_dir ++ ["cccc.narinfo"] := "shipped"]>
         (<[Scenario.archive_dir ++ ["dddd.narinfo"] := "hello"]>
            (<[["srv"; "store"; "cccc.narinfo"] := "from-target-store"]> ∅));
     dirs := {[ Scenario.instruction_dir; Scenario.archive_dir; Scenario.cache_dir;
                ["srv"]; ["srv"; "store"] ]};
     store := {[ Scenario.outA; Scenario.glibc ]};
     system := Scenario.idle;
     log := [] |}.

End Scenario2.

(** * Properties of computations *)

(** A computation that leaves a component [f] of the state as it is. *)
Definition preserving {A B} (f : World → B) (m : M A) : Prop :=
  ∀ w r w', m w = (r, w') → f w' = f w.

(** An event of a build of the flake [uri] for [hostname] in [store]: a
    progress message, or one of the three commands of [buildSystemFlake]
    with no [ref] given. *)
Definition build_step (uri store hostname : string) (e : Event) : Prop :=
  (∃ message, e = EvProgress message)
  ∨ ∃ gitRev,
      e = EvExec (NixFlake.info_command uri None)
      ∨ e = EvExec (NixFlake.show_command uri gitRev)
      ∨ e = EvExec (NixFlake.build_command store uri gitRev hostname).

(** The number of [nix build] commands among events. *)
Definition builds (events : list Event) : nat :=
  length (filter (fun c => NixFlake.is_build c = true) (NixFlake.executed events)).

(** * Reasoning about [M] *)

(** A closed decidable proposition, settled by evaluation. *)
Ltac decide_now := apply (bool_decide_unpack _); vm_compute; exact I.

Section Monad.
Context {A B : Type}.

Lemma bind_ok (m : M A) (k : A → M B) w b w' :
  bind m k w = (Ok b, w') ↔ ∃ a w1, m w = (Ok a, w1) ∧ k a w1 = (Ok b, w').
Proof.
  unfold bind. destruct (m w) as [[a|e] w1]; split.
  - eauto.
  - intros (a' & w1' & [= <- <-] & Hk). done.
  - done.
  - intros (a' & w1' & [=] & _).
Qed.

Lemma bind_throw (m : M A) (k : A → M B) w e w' :
  bind m k w = (Throw e, w') ↔
  m w = (Throw e, w') ∨ ∃ a w1, m w = (Ok a, w1) ∧ k a w1 = (Throw e, w').
Proof.
  unfold bind. destruct (m w) as [[a|e1] w1]; split.
  - eauto.
  - intros [[=]|(a' & w1' & [= <- <-] & Hk)]. done.
  - intros [= <- <-]. by left.
  - intros [[= <- <-]|(a' & w1' & [=] & _)]. done.
Qed.

Lemma bind_run (m : M A) (k : A → M B) w a w1 :
  m w = (Ok a, w1) → bind m k w = k a w1.
Proof. unfold bind. by intros ->. Qed.

Lemma bind_run_throw (m : M A) (k : A → M B) w e w1 :
  m w = (Throw e, w1) → bind m k w = (Throw e, w1).
Proof. unfold bind. by intros ->. Qed.

End Monad.

(** * [nixFlake.ts]: the hostname is checked before the build *)

Module NixFlakeFacts.
Import NixFlake.

Lemma info_command_not_build uri ref : is_build (info_command uri ref) = false.
Proof. reflexivity. Qed.

Lemma show_command_not_build uri rev : is_build (show_command uri rev) = false.
Proof. reflexivity. Qed.

Lemma build_command_is_build store uri rev hostname :
  is_build (build_command store uri rev hostname) = true.
Proof. reflexivity. Qed.

Lemma build_is_not_info store uri rev hostname uri' ref :
  build_command store uri rev hostname ≠ info_command uri' ref.
Proof.
  intros Heq. pose proof (build_command_is_build store uri rev hostname) as Hb.
  by rewrite Heq, info_command_not_build in Hb.
Qed.

Lemma build_is_not_show store uri rev hostname uri' rev' :
  build_command store uri rev hostname ≠ show_command uri' rev'.
Proof.
  intros Heq. pose proof (build_command_is_build store uri rev hostname) as Hb.
  by rewrite Heq, show_command_not_build in Hb.
Qed.

Lemma exec_among_two c a b : EvExec c ∈ [EvExec a; EvExec b] → c = a ∨ c = b.
Proof.
  intros [Heq|Hin%list_elem_of_singleton]%elem_of_cons; [left|right]; congruence.
Qed.

Section WithHost.
Context (host : Host).

Lemma getRevisionFromRef_log uri ref w r w' :
  getRevisionFromRef host uri ref w = (r, w') →
  w' = with_log (log w ++ [EvExec (info_command uri ref)]) w.
Proof.
  unfold getRevisionFromRef, bind, execaCommand, throw, ret.
  repeat case_match; by intros [= _ <-].
Qed.

Lemma getFlakeInfo_log uri rev w r w' :
  getFlakeInfo host uri rev w = (r, w') →
  w' = with_log (log w ++ [EvExec (show_command uri rev)]) w.
Proof.
  unfold getFlakeInfo, bind, execaCommand, throw, ret.
  repeat case_match; by intros [= _ <-].
Qed.

Lemma getFlakeHostnames_log uri rev w r w' :
  getFlakeHostnames host uri rev w = (r, w') →
  w' = with_log (log w ++ [EvExec (show_command uri rev)]) w.
Proof.
  unfold getFlakeHostnames, bind.
  destruct (getFlakeInfo host uri rev w) as [[j|e] w1] eqn:Hinfo;
    apply getFlakeInfo_log in Hinfo; subst w1;
    unfold throw, ret; repeat case_match; by intros [= _ <-].
Qed.

(** [buildSystemFlake] never reads the property [rev] of its argument. *)
Lemma buildSystemFlake_ignores_rev uri hostname store ref rev rev' :
  buildSystemFlake host
    {| flakeGitUri := uri; hostname := hostname; storeAbsolutePath := store;
       ref := ref; rev := rev |}
  = buildSystemFlake host
      {| flakeGitUri := uri; hostname := hostname; storeAbsolutePath := store;
         ref := ref; rev := rev' |}.
Proof. reflexivity. Qed.

(** C6. When the hostname asked for is not among the configurations that
    the flake declares (as [getFlakeHostnames] enumerates them at the
    resolved revision), [buildSystemFlake] throws the error that names the
    hostname and lists the available ones, and the only commands it has
    run by then are [nix flake info] and [nix flake show]: no [nix build]. *)
Theorem unknown_hostname_fails_before_build args w gitRev w1 hostnames w2 :
  getRevisionFromRef host (flakeGitUri args) (ref args) w = (Ok gitRev, w1) →
  getFlakeHostnames host (flakeGitUri args) gitRev w1 = (Ok hostnames, w2) →
  hostname args ∉ hostnames →
  buildSystemFlake host args w
    = (Throw (Error (unknown_hostname_message (hostname args) hostnames)), w2)
  ∧ log w2 = log w ++ [EvExec (info_command (flakeGitUri args) (ref args));
                       EvExec (show_command (flakeGitUri args) gitRev)]
  ∧ ∀ command, EvExec command ∈ drop (length (log w)) (log w2) → is_build command = false.
Proof.
  intros Hrev Hhosts Hnotin.
  assert (Hlog : log w2 = log w ++ [EvExec (info_command (flakeGitUri args) (ref args));
                                    EvExec (show_command (flakeGitUri args) gitRev)]).
  { apply getRevisionFromRef_log in Hrev as ->.
    apply getFlakeHostnames_log in Hhosts as ->. simpl. by rewrite <- app_assoc. }
  split_and!; [|done|].
  - unfold buildSystemFlake.
    rewrite (bind_run _ _ _ _ _ Hrev), (bind_run _ _ _ _ _ Hhosts).
    by case_bool_decide.
  - intros command. rewrite Hlog, drop_app_length.
    intros [->| ->]%exec_among_two;
      [apply info_command_not_build|apply show_command_not_build].
Qed.

End WithHost.

(** The flake of [Scenario] declares [testvm] only; asking for [ghost]
    fails with the list [testvm]. *)
Lemma unknown_hostname_fails_before_build_witness :
  let args := {| flakeGitUri := Scenario.flake; hostname := "ghost";
                 storeAbsolutePath := Scenario.build_store;
                 ref := None; rev := Some Scenario.revB |} in
  ∃ w2,
    buildSystemFlake Scenario.host args Scenario.fresh
      = (Throw (Error "No flake configuration found for hostname: ghost. Available hostnames: testvm"),
         w2)
    ∧ ∀ command, EvExec command ∈ log w2 → is_build command = false.
Proof.
  intros args.
  destruct (getRevisionFromRef Scenario.host (flakeGitUri args) (ref args) Scenario.fresh)
    as [r1 w1] eqn:H1.
  destruct (getFlakeHostnames Scenario.host (flakeGitUri args) (Some (JStr Scenario.revA)) w1)
    as [r2 w2] eqn:H2.
  assert (r1 = Ok (Some (JStr Scenario.revA))) as ->.
  { apply (f_equal fst) in H1. vm_compute in H1. by subst r1. }
  assert (r2 = Ok ["testvm"]) as ->.
  { apply (f_equal fst) in H2.
    replace w1 with (snd (getRevisionFromRef Scenario.host (flakeGitUri args) (ref args)
                            Scenario.fresh)) in H2 by (by rewrite H1).
    vm_compute in H2. by subst r2. }
  exists w2.
  destruct (unknown_hostname_fails_before_build Scenario.host args Scenario.fresh
              (Some (JStr Scenario.revA)) w1 ["testvm"] w2 H1 H2) as (Hrun & Hlog & Hno).
  { unfold args. simpl. set_unfold. intros [[=]|[]]. }
  split; [exact Hrun|]. intros command Hin. apply Hno. by rewrite drop_0.
Defined.

End NixFlakeFacts.

(** * The switch command and the revision that is built *)

Module StoreSwitchFacts.
Import StoreSwitch.

(** [executeStoreSwitchCommand] never reads [mode]. *)
Lemma executeStoreSwitchCommand_ignores_mode host item m m' shared :
  executeStoreSwitchCommand host {| item := item; mode := m |} shared
  = executeStoreSwitchCommand host {| item := item; mode := m' |} shared.
Proof. reflexivity. Qed.

(** C1, at the switch command [{ item: outB, mode: "next-reboot" }] on a
    target that runs [outA]: the activation succeeds, a generation for
    [outB] is made, and [outB] is the running system at once, exactly as
    with mode ["immediate"]; the running system has not been left
    unchanged until the next boot. *)
Theorem next_reboot_switches_at_once :
  let before := Scenario.target in
  let later :=
    executeStoreSwitchCommand Scenario.host (Scenario.switch_command NextReboot)
      Scenario.execute_shared before in
  let now :=
    executeStoreSwitchCommand Scenario.host (Scenario.switch_command Immediate)
      Scenario.execute_shared before in
  later = now
  ∧ later.1 = Ok tt
  ∧ running (system before) = Some Scenario.outA
  ∧ running (system later.2) = Some Scenario.outB
  ∧ generations (system later.2) = [Scenario.outA; Scenario.outB]
  ∧ log later.2 = [EvMakeNewSystemGeneration [] Scenario.outB "switch"].
Proof. by split_and!. Qed.

End StoreSwitchFacts.

Module BuildRevisionFacts.

(** C2, at [newRev = revB] on a flake that has [revA] checked out and
    builds to [outA] at [revA] and to [outB] at [revB]: the build succeeds
    and pairs [gitRevision = revB] with the output [outA] of the build at
    [revA]; the only [nix build] run is the one at [revA], none at [revB].
    The switch command built from the same revision does the same. *)
Theorem requested_revision_is_not_built :
  let load :=
    LoadArchive.buildLoadArchiveDeltaCommand Scenario.host
      (Scenario.load_args [] Scenario.revB) Scenario.build_shared Scenario.fresh in
  let switch :=
    StoreSwitch.buildStoreSwitchCommand Scenario.host
      {| StoreSwitch.flakeGitUri := Scenario.flake;
         StoreSwitch.hostname := "testvm";
         StoreSwitch.rev := Scenario.revB;
         StoreSwitch.build_mode := StoreSwitch.Immediate |}
      Scenario.build_shared Scenario.fresh in
  let build_at rev :=
    NixFlake.build_command Scenario.build_store Scenario.flake (Some (JStr rev)) "testvm" in
  (∃ c, load.1 = Ok c
        ∧ LoadArchive.item c = {| nixPath := Scenario.outA; gitRevision := Scenario.revB |})
  ∧ filter (fun c => NixFlake.is_build c = true) (NixFlake.executed (log load.2))
    = [build_at Scenario.revA]
  ∧ switch.1
    = Ok {| StoreSwitch.item := {| nixPath := Scenario.outA; gitRevision := Scenario.revB |};
            StoreSwitch.mode := StoreSwitch.Immediate |}
  ∧ NixFlake.executed (log switch.2)
    = [NixFlake.info_command Scenario.flake None;
       NixFlake.show_command Scenario.flake (Some (JStr Scenario.revA));
       build_at Scenario.revA]
  ∧ (NixFlake.flakeBuildCommandResult
        <$> JSON_parse Scenario.host
              (stdout (exec_result Scenario.host Scenario.fresh (build_at Scenario.revB))))
    = Some (Some ("/nix/store/bbbb.drv", Scenario.outB)).
Proof.
  split_and!.
  - eexists. split; by vm_compute.
  - by vm_compute.
  - by vm_compute.
  - by vm_compute.
  - by vm_compute.
Qed.

End BuildRevisionFacts.

(** * The load command at execution: [partialNarinfos] *)

Module LoadFlagFacts.
Import LoadArchive.

(** C10. Two load commands that differ in [partialNarinfos] only execute
    alike in every context and on every state of the target: the same
    outcome and the same state afterwards, hence the same files in the
    archive and in the cache, the same store, and the same log of lookup,
    copies and import. *)
Theorem execution_independent_of_partialNarinfos
    (host : Host) (c c' : Command) (shared : InstructionExecutionSharedArgs) (w : World) :
  archivePath c = archivePath c' →
  deltaDependencies c = deltaDependencies c' →
  item c = item c' →
  executeLoadArchiveDeltaCommand host c shared w
  = executeLoadArchiveDeltaCommand host c' shared w.
Proof.
  destruct c as [a d p i], c' as [a' d' p' i']. simpl.
  intros <- <- <-. reflexivity.
Qed.

(** The load command of [Scenario], shipped with partial and with full
    info files. *)
Lemma execution_independent_of_partialNarinfos_witness :
  let full :=
    {| archivePath := archivePath Scenario.load_command;
       deltaDependencies := deltaDependencies Scenario.load_command;
       partialNarinfos := false;
       item := item Scenario.load_command |} in
  partialNarinfos Scenario.load_command ≠ partialNarinfos full
  ∧ executeLoadArchiveDeltaCommand Scenario.host Scenario.load_command
      Scenario.execute_shared Scenario.target
    = executeLoadArchiveDeltaCommand Scenario.host full
        Scenario.execute_shared Scenario.target.
Proof.
  split; [done|].
  apply (execution_independent_of_partialNarinfos Scenario.host Scenario.load_command);
    reflexivity.
Defined.

End LoadFlagFacts.

(** * The delta engine *)

Module NixStoreFacts.
Import NixStore.

Section Closure.
Context (D : StoreDb).
Implicit Types S : gset StorePath.

Lemma elem_of_refs_of p x :
  x ∈ refs_of D p ↔ ∃ m, D !! p = Some m ∧ x ∈ meta_references m.
Proof.
  unfold refs_of. destruct (D !! p) as [m|].
  - rewrite elem_of_list_to_set. naive_solver.
  - set_solver.
Qed.

Lemma elem_of_expand S x :
  x ∈ expand D S ↔ x ∈ S ∨ ∃ p m, p ∈ S ∧ D !! p = Some m ∧ x ∈ meta_references m.
Proof.
  unfold expand. rewrite elem_of_union, elem_of_union_list.
  split.
  - intros [HS|(X & (p & -> & Hp%elem_of_elements)%list_elem_of_fmap & Hx)]; [by left|].
    right. apply elem_of_refs_of in Hx as (m & Hm & Hx). eauto.
  - intros [HS|(p & m & Hp & Hm & Hx)]; [by left|].
    right. exists (refs_of D p). split.
    + apply list_elem_of_fmap. exists p. by rewrite elem_of_elements.
    + apply elem_of_refs_of. eauto.
Qed.

Lemma expand_extensive S : S ⊆ expand D S.
Proof. intros x ?. apply elem_of_expand. by left. Qed.

Lemma elem_of_all_references x :
  x ∈ all_references D ↔ ∃ p m, D !! p = Some m ∧ x ∈ meta_references m.
Proof.
  unfold all_references. rewrite elem_of_union_list. split.
  - intros (X & ([p m] & -> & Hpm%elem_of_map_to_list)%list_elem_of_fmap & Hx).
    simpl in Hx. apply elem_of_list_to_set in Hx. eauto.
  - intros (p & m & Hpm & Hx). exists (list_to_set (meta_references m)). split.
    + apply list_elem_of_fmap. exists (p, m). by rewrite elem_of_map_to_list.
    + by apply elem_of_list_to_set.
Qed.

Lemma expand_within S : expand D S ⊆ S ∪ all_references D.
Proof.
  intros x [HS|(p & m & _ & Hm & Hx)]%elem_of_expand; apply elem_of_union.
  - by left.
  - right. apply elem_of_all_references. eauto.
Qed.

Lemma iterate_expand_succ n S :
  iterate_expand D (Datatypes.S n) S = expand D (iterate_expand D n S).
Proof. revert S. induction n as [|n IH]; intros S; [done|]. simpl. by rewrite <- IH. Qed.

Lemma iterate_expand_extensive n S : S ⊆ iterate_expand D n S.
Proof.
  induction n as [|n IH]; [done|]. rewrite iterate_expand_succ.
  etrans; [exact IH|apply expand_extensive].
Qed.

Lemma iterate_expand_within n S : iterate_expand D n S ⊆ S ∪ all_references D.
Proof.
  induction n as [|n IH]; [set_solver|]. rewrite iterate_expand_succ.
  etrans; [apply expand_within|]. set_solver.
Qed.

(** Every layer is reached from the roots. *)
Lemma iterate_expand_sound n S x :
  x ∈ iterate_expand D n S → ∃ r, r ∈ S ∧ reaches D r x.
Proof.
  revert S. induction n as [|n IH]; intros S; simpl.
  - intros ?. exists x. split; [done|constructor].
  - intros (r' & [Hr|(p & m & Hp & Hm & Hq)]%elem_of_expand & Hreach)%IH.
    + eauto.
    + exists p. split; [done|]. by eapply reaches_step.
Qed.

(** A set that one more layer does not enlarge holds all that its
    members reach. *)
Lemma closed_reaches S r x :
  expand D S ⊆ S → r ∈ S → reaches D r x → x ∈ S.
Proof.
  intros Hclosed Hr Hreach. induction Hreach as [p|p m q r H1 H2 _ IH]; [done|].
  apply IH, Hclosed, elem_of_expand. right. eauto.
Qed.

(** After [k] layers the set is closed or has gained [k] paths. *)
Lemma iterate_expand_progress k S :
  expand D (iterate_expand D k S) ⊆ iterate_expand D k S
  ∨ k ≤ size (iterate_expand D k S ∖ S).
Proof.
  induction k as [|k IH]; [right; lia|].
  rewrite !iterate_expand_succ. set (A := iterate_expand D k S) in *.
  destruct IH as [Hclosed|Hsize].
  - left. assert (expand D A = A) as ->; [|done].
    apply set_eq. intros x. split; [apply Hclosed|apply expand_extensive].
  - destruct (decide (expand D A ⊆ A)) as [Hclosed|Hopen].
    + left. assert (expand D A = A) as ->; [|done].
      apply set_eq. intros x. split; [apply Hclosed|apply expand_extensive].
    + right. assert (A ∖ S ⊂ expand D A ∖ S) as Hlt%subset_size; [|lia].
      split.
      * pose proof (expand_extensive A). set_solver.
      * intros Hsub. apply Hopen. intros x Hx.
        destruct (decide (x ∈ S)) as [HS|HS].
        { by apply (iterate_expand_extensive k S). }
        assert (x ∈ expand D A ∖ S) as HxS by set_solver.
        apply Hsub in HxS. set_solver.
Qed.

Lemma closure_paths_closed roots :
  expand D (closure_paths D roots) ⊆ closure_paths D roots.
Proof.
  unfold closure_paths. set (S := list_to_set roots : gset StorePath).
  set (n := size (all_references D)).
  destruct (iterate_expand_progress n S) as [?|Hsize]; [done|].
  set (A := iterate_expand D n S) in *.
  assert (A ∖ S ⊆ all_references D) as Hsub.
  { pose proof (iterate_expand_within n S). set_solver. }
  assert (A ∖ S = all_references D) as Heq.
  { apply set_subseteq_size_eq; [done|]. by fold n. }
  etrans; [apply expand_within|]. rewrite <- Heq. set_solver.
Qed.

(** The closure of the roots is what the roots reach. *)
Lemma elem_of_closure_paths roots x :
  x ∈ closure_paths D roots ↔ ∃ r, r ∈ roots ∧ reaches D r x.
Proof.
  split.
  - intros (r & Hr%elem_of_list_to_set & ?)%iterate_expand_sound. eauto.
  - intros (r & Hr & Hreach).
    eapply closed_reaches; [apply closure_paths_closed| |done].
    apply iterate_expand_extensive. by apply elem_of_list_to_set.
Qed.

Lemma elem_of_queryPathInfo roots i :
  i ∈ queryPathInfo D roots ↔
  (∃ m, D !! path i = Some m ∧ i = info_of (path i) m)
  ∧ ∃ r, r ∈ roots ∧ reaches D r (path i).
Proof.
  unfold queryPathInfo. rewrite list_elem_of_fmap. split.
  - intros ([p m] & -> & [Hc Hpm%elem_of_map_to_list]%list_elem_of_filter).
    simpl in *. split; [eauto|]. by apply elem_of_closure_paths.
  - intros [(m & Hm & Hi) Hreach]. exists (path i, m). split; [done|].
    apply list_elem_of_filter. split.
    + simpl. by apply elem_of_closure_paths.
    + by apply elem_of_map_to_list.
Qed.

(** One record per path. *)
Lemma queryPathInfo_NoDup roots : NoDup (path <$> queryPathInfo D roots).
Proof.
  unfold queryPathInfo. rewrite <- list_fmap_compose.
  assert (Hfst : ∀ l : list (StorePath * PathMeta),
            path ∘ (fun kv => info_of kv.1 kv.2) <$> l = l.*1).
  { induction l as [|kv l IH]; [done|]. csimpl. by rewrite IH. }
  rewrite Hfst.
  apply (sublist_NoDup _ ((map_to_list D).*1)); [apply NoDup_fst_map_to_list|].
  apply fmap_sublist, sublist_filter.
Qed.

Lemma path_in_queryPathInfo roots p :
  p ∈ path <$> queryPathInfo D roots ↔
  is_Some (D !! p) ∧ ∃ r, r ∈ roots ∧ reaches D r p.
Proof.
  rewrite list_elem_of_fmap. split.
  - intros (i & -> & [(m & Hm & _) Hreach]%elem_of_queryPathInfo). eauto.
  - intros [[m Hm] Hreach]. exists (info_of p m). split; [done|].
    apply elem_of_queryPathInfo. simpl. eauto.
Qed.

Lemma queryPathInfo_no_roots : queryPathInfo D [] = [].
Proof.
  destruct (queryPathInfo D []) as [|i l] eqn:Heq; [done|].
  assert (i ∈ queryPathInfo D []) as Hi by (rewrite Heq; left).
  apply elem_of_queryPathInfo in Hi as [_ (r & Hr & _)]. by apply elem_of_nil in Hr.
Qed.

End Closure.

Lemma filter_all {A} (P : A → Prop) `{!∀ x, Decision (P x)} (l : list A) :
  (∀ x, x ∈ l → P x) → filter P l = l.
Proof.
  induction l as [|x l IH]; intros Hall; [done|].
  rewrite filter_cons_True by (apply Hall; left).
  f_equal. apply IH. intros y ?. apply Hall. by right.
Qed.

Lemma filter_none {A} (P : A → Prop) `{!∀ x, Decision (P x)} (l : list A) :
  (∀ x, x ∈ l → ¬ P x) → filter P l = [].
Proof.
  induction l as [|x l IH]; intros Hall; [done|].
  rewrite filter_cons_False by (apply Hall; left).
  apply IH. intros y ?. apply Hall. by right.
Qed.

(** C3. For every store [D], from-roots [F] and to-root [T]:
    [allResultingItems] is the closure of [T]; [added] holds exactly the
    records of the closure of [T] whose path is in no closure of a root of
    [F], that is, the records of [D] that [T] reaches and no root of [F]
    reaches; no path of [added] is in the closure of a root of [F]; with
    no from-root [added] is the whole closure; and the delta from [T] to
    [T] adds nothing and results in the closure of [T]. *)
Theorem computeDelta_added (D : StoreDb) (F : list StorePath) (T : StorePath) :
  let delta := computeDelta D F T in
  allResultingItems delta = queryPathInfo D [T]
  ∧ (∀ i, i ∈ added delta ↔
          i ∈ queryPathInfo D [T] ∧ ¬ ∃ r, r ∈ F ∧ path i ∈ path <$> queryPathInfo D [r])
  ∧ (∀ i, i ∈ added delta ↔
          (∃ m, D !! path i = Some m ∧ i = info_of (path i) m)
          ∧ reaches D T (path i) ∧ ¬ ∃ r, r ∈ F ∧ reaches D r (path i))
  ∧ (∀ r i, r ∈ F → i ∈ queryPathInfo D [r] → path i ∉ path <$> added delta)
  ∧ added (computeDelta D [] T) = queryPathInfo D [T]
  ∧ added (computeDelta D [T] T) = []
  ∧ allResultingItems (computeDelta D [T] T) = queryPathInfo D [T].
Proof.
  assert (Hadded : ∀ i, i ∈ added (computeDelta D F T) ↔
            (∃ m, D !! path i = Some m ∧ i = info_of (path i) m)
            ∧ reaches D T (path i) ∧ ¬ ∃ r, r ∈ F ∧ reaches D r (path i)).
  { intros i. unfold computeDelta. simpl.
    rewrite list_elem_of_filter, path_in_queryPathInfo, elem_of_queryPathInfo.
    split.
    - intros (Hnot & Hrec & r & ->%list_elem_of_singleton & Hreach).
      split_and!; [done..|]. intros Hfrom. apply Hnot. split; [|done].
      destruct Hrec as (m & -> & _). eauto.
    - intros (Hrec & Hreach & Hnot). split_and!; [|done|].
      + intros [_ ?]. by apply Hnot.
      + exists T. split; [left|done]. }
  simpl. split_and!.
  - done.
  - intros i. rewrite Hadded, elem_of_queryPathInfo. split.
    + intros (Hrec & Hreach & Hnot). split_and!.
      * done.
      * exists T. split; [left|done].
      * intros (r & Hr & [_ (r' & ->%list_elem_of_singleton & ?)]%path_in_queryPathInfo).
        apply Hnot. eauto.
    + intros ((Hrec & r & ->%list_elem_of_singleton & Hreach) & Hnot).
      split_and!; [done..|]. intros (r & Hr & Hfrom). apply Hnot. exists r.
      split; [done|]. apply path_in_queryPathInfo. split.
      * destruct Hrec as (m & -> & _). eauto.
      * exists r. split; [left|done].
  - exact Hadded.
  - intros r i Hr [_ (r' & ->%list_elem_of_singleton & Hreach)]%elem_of_queryPathInfo.
    intros (j & Hpath & Hj)%list_elem_of_fmap.
    apply Hadded in Hj as (_ & _ & Hnot). apply Hnot. exists r.
    split; [done|]. by rewrite <- Hpath.
  - unfold computeDelta. simpl. rewrite queryPathInfo_no_roots.
    apply filter_all. intros i _. apply not_elem_of_nil.
  - unfold computeDelta. simpl. apply filter_none.
    intros i Hi Hnot. apply Hnot. by apply list_elem_of_fmap_2.
  - done.
Qed.

(** The store of [Scenario]: from [outA] to [outB] the system and [hello]
    are added, [glibc] is not. *)
Example computeDelta_on_scenario :
  path <$> added (computeDelta Scenario.db [Scenario.outA] Scenario.outB)
    = [Scenario.outB; Scenario.hello]
  ∧ path <$> allResultingItems (computeDelta Scenario.db [Scenario.outA] Scenario.outB)
    = [Scenario.glibc; Scenario.outB; Scenario.hello].
Proof. split; vm_compute; reflexivity. Qed.

End NixStoreFacts.

(** * Effects of the primitive operations *)

Lemma emit_inv e w r w' :
  emit e w = (r, w') → r = Ok tt ∧ w' = with_log (log w ++ [e]) w.
Proof. by intros [= <- <-]. Qed.

Lemma path_join_plain dir n : plain_segment n → path_join dir n = dir ++ [n].
Proof.
  intros (Hempty & Hdot & Hdots & Hseg). unfold path_join. rewrite Hseg. simpl.
  rewrite decide_False by tauto. rewrite decide_False by done.
  simpl. by rewrite rev_involutive.
Qed.

Lemma basename_snoc dir n : basename (dir ++ [n]) = n.
Proof. unfold basename. by rewrite last_snoc. Qed.

Lemma dirname_snoc dir n : dirname (dir ++ [n]) = dir.
Proof. unfold dirname. apply removelast_last. Qed.

Lemma in_dir_snoc dir dir' n : in_dir dir (dir' ++ [n]) ↔ dir' = dir.
Proof.
  unfold in_dir. rewrite dirname_snoc. split; [tauto|].
  intros ->. split; [|done]. by destruct dir.
Qed.

Lemma in_dir_inv dir p : in_dir dir p → p = dir ++ [basename p].
Proof.
  intros [Hne <-]. unfold dirname, basename.
  destruct (exists_last Hne) as (d & n & ->).
  by rewrite removelast_last, last_snoc.
Qed.

Lemma write_tree_files dest entries w p c :
  files (write_tree dest entries w) !! p = Some c →
  files w !! p = Some c ∨ ∃ rel, (rel, c) ∈ entries ∧ p = dest ++ rel.
Proof.
  unfold write_tree. simpl. generalize (files w) as fs.
  induction entries as [|[rel content] entries IH]; intros fs; simpl; [by left|].
  intros [Hold|(rel' & Hin & ->)]%IH.
  - destruct (decide (dest ++ rel = p)) as [<-|Hne].
    + rewrite lookup_insert_eq in Hold. injection Hold as ->.
      right. exists rel. split; [left|done].
    + rewrite lookup_insert_ne in Hold by done. by left.
  - right. exists rel'. split; [by right|done].
Qed.

Lemma write_tree_keeps dest entries w p :
  is_Some (files w !! p) → is_Some (files (write_tree dest entries w) !! p).
Proof.
  unfold write_tree. simpl. generalize (files w) as fs.
  induction entries as [|[rel content] entries IH]; intros fs; simpl; [done|].
  intros Hp. apply IH. destruct (decide (dest ++ rel = p)) as [<-|Hne].
  - rewrite lookup_insert_eq. eauto.
  - by rewrite lookup_insert_ne.
Qed.

Lemma write_tree_written dest entries w rel c :
  (rel, c) ∈ entries → is_Some (files (write_tree dest entries w) !! (dest ++ rel)).
Proof.
  unfold write_tree. simpl. generalize (files w) as fs.
  induction entries as [|[rel' c'] entries IH]; intros fs Hin; simpl.
  { by apply elem_of_nil in Hin. }
  apply elem_of_cons in Hin as [[= <- <-]|Hin]; [|by apply IH].
  pose proof (write_tree_keeps dest entries
                (with_files (<[dest ++ rel := c]> fs) w) (dest ++ rel)) as Hkeep.
  unfold write_tree in Hkeep. simpl in Hkeep. apply Hkeep.
  rewrite lookup_insert_eq. eauto.
Qed.

Lemma rm_recursive_inv force target w r w' :
  rm_recursive force target w = (r, w') →
  log w' = log w ++ [EvRm target]
  ∧ store w' = store w ∧ system w' = system w
  ∧ (force = true → r = Ok tt)
  ∧ (target ∈ dirs w → r = Ok tt)
  ∧ (r = Ok tt → ∀ p, target `prefix_of` p → files w' !! p = None ∧ p ∉ dirs w')
  ∧ (∀ p, ¬ target `prefix_of` p → files w' !! p = files w !! p)
  ∧ (r ≠ Ok tt → files w' = files w ∧ dirs w' = dirs w).
Proof.
  unfold rm_recursive, bind, emit. simpl. case_decide as Hcase.
  - intros [= <- <-]. simpl. destruct Hcase as [-> Hnone]. split_and!; try done.
    intros Hdir. exfalso. apply Hnone. by left.
  - intros [= <- <-]. simpl. split_and!; try done.
    + intros _ p Hp. split.
      * apply map_lookup_filter_None. right. intros c _. simpl. tauto.
      * rewrite elem_of_filter. tauto.
    + intros p Hp. destruct (files w !! p) as [c|] eqn:Hc.
      * by apply map_lookup_filter_Some.
      * apply map_lookup_filter_None. by left.
Qed.

Lemma copyFile_inv src dst w r w' :
  copyFile src dst w = (r, w') →
  log w' = log w ++ [EvCopyFile src dst]
  ∧ dirs w' = dirs w ∧ store w' = store w ∧ system w' = system w
  ∧ match r with
    | Ok _ => ∃ c, files w !! src = Some c ∧ files w' = <[dst := c]> (files w)
    | Throw _ => files w' = files w
    end.
Proof.
  unfold copyFile, bind, emit. simpl.
  destruct (files w !! src) as [c|] eqn:Hsrc; [case_decide|];
    intros [= <- <-]; simpl; split_and!; try done.
  eauto.
Qed.

(** ** Loops of copies into one directory *)

Section CopyLoop.
Context (dir : Path).

Lemma copy_into_cons f l w :
  copy_into dir (f :: l) w
  = match copyFile f (path_join dir (basename f)) w with
    | (Ok _, w1) => copy_into dir l w1
    | (Throw e, w1) => (Throw e, w1)
    end.
Proof. done. Qed.

(** The log of the loop: the copies it tried, in the order of the list. *)
Lemma copy_into_log l w r w' :
  copy_into dir l w = (r, w') →
  (∃ k, log w' = log w ++ (copy_event dir <$> take k l) ∧ (r = Ok tt → k = length l))
  ∧ dirs w' = dirs w ∧ store w' = store w ∧ system w' = system w.
Proof.
  revert w. induction l as [|f l IH]; intros w.
  - intros [= <- <-]. split_and!; try done. exists 0. by rewrite app_nil_r.
  - rewrite copy_into_cons.
    destruct (copyFile f (path_join dir (basename f)) w) as [[[]|e] w1] eqn:Hcopy;
      apply copyFile_inv in Hcopy as (Hlog & Hdirs & Hstore & Hsys & _).
    + intros ((k & Hlog' & Hk) & Hdirs' & Hstore' & Hsys')%IH.
      split_and!; try congruence.
      exists (S k). split; [|intros ?; simpl; f_equal; auto].
      rewrite Hlog', Hlog, <- app_assoc. done.
    + intros [= <- <-]. split_and!; try done.
      exists 1. split; [|done]. by rewrite Hlog.
Qed.

(** What every run of the loop does, finished or not: it logs the copies
    it tried, keeps what is not a file, keeps every file that was there,
    and writes entries of [dir] only, under basenames of the list. *)
Lemma copy_into_inv l w r w' :
  wf_world w →
  copy_into dir l w = (r, w') →
  wf_world w'
  ∧ (∃ k, log w' = log w ++ (copy_event dir <$> take k l) ∧ (r = Ok tt → k = length l))
  ∧ dirs w' = dirs w ∧ store w' = store w ∧ system w' = system w
  ∧ (∀ p, ¬ in_dir dir p → files w' !! p = files w !! p)
  ∧ (∀ n, n ∉ basename <$> l → files w' !! (dir ++ [n]) = files w !! (dir ++ [n]))
  ∧ (∀ p, is_Some (files w !! p) → is_Some (files w' !! p)).
Proof.
  revert w. induction l as [|f l IH]; intros w Hwf.
  - intros [= <- <-]. split_and!; try done.
    exists 0. by rewrite app_nil_r.
  - rewrite copy_into_cons.
    destruct (copyFile f (path_join dir (basename f)) w) as [[[]|e] w1] eqn:Hcopy;
      apply copyFile_inv in Hcopy as (Hlog & Hdirs & Hstore & Hsys & Hfiles).
    + destruct Hfiles as (c & Hsrc & Hfiles).
      assert (plain_segment (basename f)) as Hplain by exact (Hwf f c Hsrc).
      rewrite (path_join_plain _ _ Hplain) in Hfiles.
      assert (wf_world w1) as Hwf1.
      { unfold wf_world. rewrite Hfiles. apply map_Forall_insert_2; [|done].
        by rewrite basename_snoc. }
      intros (Hwf' & (k & Hlog' & Hk) & Hdirs' & Hstore' & Hsys' & Hout & Hnames & Hmono)%IH;
        [|done].
      split_and!; try congruence.
      * done.
      * exists (S k). split; [|intros ?; simpl; f_equal; auto].
        rewrite Hlog', Hlog, <- app_assoc. done.
      * intros p Hp. rewrite Hout, Hfiles by done.
        apply lookup_insert_ne. intros <-. by apply Hp, in_dir_snoc.
      * intros n Hn. rewrite Hnames by set_solver. rewrite Hfiles.
        apply lookup_insert_ne. intros [_ <-]%app_inj_tail.
        apply Hn. left.
      * intros p Hp. apply Hmono. rewrite Hfiles.
        destruct (decide (dir ++ [basename f] = p)) as [<-|Hne].
        -- rewrite lookup_insert_eq. eauto.
        -- by rewrite lookup_insert_ne.
    + intros [= <- <-].
      assert (wf_world w1) by (unfold wf_world; by rewrite Hfiles).
      split_and!; try done; try (by intros; rewrite Hfiles).
      exists 1. split; [|done]. by rewrite Hlog.
Qed.

(** A finished loop over files of other directories, no two of one name,
    leaves each of them in [dir] under its name. *)
Lemma copy_into_done l w w' :
  wf_world w →
  copy_into dir l w = (Ok tt, w') →
  (∀ f, f ∈ l → ¬ in_dir dir f) →
  NoDup (basename <$> l) →
  ∀ f, f ∈ l → is_Some (files w !! f)
              ∧ files w' !! (dir ++ [basename f]) = files w !! f.
Proof.
  revert w. induction l as [|f l IH]; intros w Hwf Hrun Hout Hnodup g Hg.
  { by apply elem_of_nil in Hg. }
  rewrite copy_into_cons in Hrun.
  destruct (copyFile f (path_join dir (basename f)) w) as [[[]|e] w1] eqn:Hcopy;
    [|done].
  apply copyFile_inv in Hcopy as (_ & _ & _ & _ & c & Hsrc & Hfiles).
  assert (plain_segment (basename f)) as Hplain by exact (Hwf f c Hsrc).
  rewrite (path_join_plain _ _ Hplain) in Hfiles.
  assert (wf_world w1) as Hwf1.
  { unfold wf_world. rewrite Hfiles. apply map_Forall_insert_2; [|done].
    by rewrite basename_snoc. }
  apply NoDup_cons in Hnodup as [Hfresh Hnodup].
  assert (∀ h, ¬ in_dir dir h → files w1 !! h = files w !! h) as Hkeep.
  { intros h Hh. rewrite Hfiles. apply lookup_insert_ne. intros <-.
    by apply Hh, in_dir_snoc. }
  apply elem_of_cons in Hg as [->|Hg].
  - split; [eauto|].
    destruct (copy_into_inv l w1 (Ok tt) w' Hwf1 Hrun)
      as (_ & _ & _ & _ & _ & _ & Hnames & _).
    rewrite (Hnames _ Hfresh), Hfiles, lookup_insert_eq. done.
  - destruct (IH w1 Hwf1 Hrun) with (f := g) as [Hsome Heq]; try done.
    { intros h Hh. apply Hout. by right. }
    rewrite Hkeep in Hsome, Heq by (apply Hout; by right). done.
Qed.

(** A finished loop over files of other directories leaves, under each
    name of the list, a file of the list that bears it. *)
Lemma copy_into_last l w w' :
  wf_world w →
  copy_into dir l w = (Ok tt, w') →
  (∀ f, f ∈ l → ¬ in_dir dir f) →
  ∀ n, n ∈ basename <$> l →
       ∃ f, f ∈ l ∧ basename f = n ∧ is_Some (files w !! f)
            ∧ files w' !! (dir ++ [n]) = files w !! f.
Proof.
  revert w. induction l as [|f l IH]; intros w Hwf Hrun Hout n Hn.
  { by apply elem_of_nil in Hn. }
  rewrite copy_into_cons in Hrun.
  destruct (copyFile f (path_join dir (basename f)) w) as [[[]|e] w1] eqn:Hcopy;
    [|done].
  apply copyFile_inv in Hcopy as (_ & _ & _ & _ & c & Hsrc & Hfiles).
  assert (plain_segment (basename f)) as Hplain by exact (Hwf f c Hsrc).
  rewrite (path_join_plain _ _ Hplain) in Hfiles.
  assert (wf_world w1) as Hwf1.
  { unfold wf_world. rewrite Hfiles. apply map_Forall_insert_2; [|done].
    by rewrite basename_snoc. }
  assert (∀ h, ¬ in_dir dir h → files w1 !! h = files w !! h) as Hkeep.
  { intros h Hh. rewrite Hfiles. apply lookup_insert_ne. intros <-.
    by apply Hh, in_dir_snoc. }
  destruct (decide (n ∈ basename <$> l)) as [Hlater|Hfresh].
  - destruct (IH w1 Hwf1 Hrun) with (n := n) as (g & Hg & Hname & Hsome & Heq);
      [intros h Hh; apply Hout; by right|done|].
    exists g. rewrite Hkeep in Hsome, Heq by (apply Hout; by right).
    split_and!; [by right|done..].
  - assert (n = basename f) as -> by set_solver.
    exists f. split_and!; [left|done|eauto|].
    destruct (copy_into_inv l w1 (Ok tt) w' Hwf1 Hrun)
      as (_ & _ & _ & _ & _ & _ & Hnames & _).
    by rewrite (Hnames _ Hfresh), Hfiles, lookup_insert_eq.
Qed.

End CopyLoop.

(** ** Computations that only log *)

Section OnlyLogs.
Context (P : Event → Prop).

Lemma with_log_id w : with_log (log w ++ []) w = w.
Proof. destruct w. unfold with_log. simpl. by rewrite app_nil_r. Qed.

Lemma only_logs_ret {A} (a : A) : only_logs P (ret a).
Proof. intros w r w' [= <- <-]. exists []. by rewrite with_log_id. Qed.

Lemma only_logs_throw {A} e : only_logs P (throw e : M A).
Proof. intros w r w' [= <- <-]. exists []. by rewrite with_log_id. Qed.

Lemma only_logs_emit e : P e → only_logs P (emit e).
Proof. intros He w r w' [= <- <-]. exists [e]. split; [done|]. by constructor. Qed.

Lemma only_logs_bind {A B} (m : M A) (k : A → M B) :
  only_logs P m → (∀ a, only_logs P (k a)) → only_logs P (bind m k).
Proof.
  intros Hm Hk w r w'. unfold bind.
  destruct (m w) as [[a|e] w1] eqn:Hrun; destruct (Hm _ _ _ Hrun) as (ev1 & -> & H1).
  - intros (ev2 & -> & H2)%Hk. exists (ev1 ++ ev2). split.
    + unfold with_log. simpl. by rewrite app_assoc.
    + by apply Forall_app.
  - intros [= <- <-]. eauto.
Qed.

Lemma only_logs_answer {A} (f : World → Outcome A) : only_logs P (fun w => (f w, w)).
Proof. intros w r w' [= <- <-]. exists []. by rewrite with_log_id. Qed.

End OnlyLogs.

Ltac only_logs_step :=
  first
    [ apply only_logs_ret
    | apply only_logs_throw
    | apply only_logs_emit; done
    | apply only_logs_answer
    | apply only_logs_bind; [|intros ?] ].

Section BuildEffects.
Context (host : Host).

Lemma execaCommand_quiet command : only_logs quiet (NixFlake.execaCommand host command).
Proof.
  intros w r w' [= <- <-]. exists [EvExec command]. split; [done|]. by constructor.
Qed.

Lemma buildSystemFlake_quiet args : only_logs quiet (NixFlake.buildSystemFlake host args).
Proof.
  unfold NixFlake.buildSystemFlake, NixFlake.getRevisionFromRef,
    NixFlake.getFlakeHostnames, NixFlake.getFlakeInfo.
  repeat first [ apply execaCommand_quiet | only_logs_step | case_match ].
Qed.

Lemma build_revisions_quiet uri hostname shared revs built :
  only_logs quiet (LoadArchive.build_revisions host uri hostname shared revs built).
Proof.
  revert built. induction revs as [|rev revs IH]; intros built; simpl.
  - apply only_logs_ret.
  - unfold progressCallback.
    repeat first [ apply buildSystemFlake_quiet | apply IH | only_logs_step ].
Qed.

Lemma copyOutputToArchive_inv store archive item w r w' :
  NixArchive.copyOutputToArchive host store archive item w = (r, w') →
  ∃ entries,
    w' = write_tree (path_join [] archive) entries
           (with_log (log w ++ [EvCopyOutputToArchive store archive item]) w).
Proof.
  unfold NixArchive.copyOutputToArchive, bind, emit.
  destruct (copyOutputToArchive_result host _ store archive item) as [entries failure].
  intros [= _ <-]. eauto.
Qed.

Lemma getStoreDeltaPathsDelta_quiet store from to :
  only_logs quiet (NixStore.getStoreDeltaPathsDelta host store from to).
Proof. unfold NixStore.getStoreDeltaPathsDelta. repeat only_logs_step. Qed.

Lemma getStoreDeltaPathsDelta_ok store from to w delta w' :
  NixStore.getStoreDeltaPathsDelta host store from to w = (Ok delta, w') →
  ∃ wq D, store_db host wq store = Ok D ∧ delta = NixStore.computeDelta D from to.
Proof.
  unfold NixStore.getStoreDeltaPathsDelta, bind, emit, ret.
  destruct (store_db host _ store) as [D|e] eqn:HD; intros [= <- <-]. eauto.
Qed.

Lemma makeArchiveSubset_ok archive dest infos datas w w' :
  NixArchive.makeArchiveSubset host archive dest infos datas w = (Ok tt, w') →
  let ws := with_log (log w ++ [EvMakeArchiveSubset archive dest infos datas]) w in
  ∃ entries,
    makeArchiveSubset_result host ws archive dest infos datas = Ok entries
    ∧ w' = write_tree dest entries ws.
Proof.
  unfold NixArchive.makeArchiveSubset, bind, emit.
  destruct (makeArchiveSubset_result host _ archive dest infos datas) as [entries|e] eqn:Hsub;
    intros [= <-]. eauto.
Qed.

End BuildEffects.

(** * Building the load command: the archive of the instruction *)

Module LoadBuildFacts.
Import LoadArchive.

(** C5. Whenever [buildLoadArchiveDeltaCommand] returns a command, the last
    two effects it has had are the removal of the archive folder of the
    instruction and then the making of the archive subset into that
    folder, with no removal and no subset before them. The subset is
    asked for with data entries for the paths of [added] and with info
    entries for the paths of [added] when [partialNarinfos] is true and
    for the paths of [allResultingItems] when it is false, the delta being
    the one from the outputs of the dependencies to the output of the item
    in the store as it answered. The subsetter is called in a state [ws]
    in which the folder and all below it are gone, whatever was there
    before; the state afterwards is [ws] with the files that the subsetter
    answered written below the folder: each of them is there, and every
    file found below the folder is one of them, so nothing stale is left. *)
Theorem archive_subset_follows_removal
    (host : Host) (args : BuildLoadArchiveDeltaCommandArgs)
    (shared : InstructionBuilderSharedArgs) (w : World) (command : Command) (w' : World) :
  buildLoadArchiveDeltaCommand host args shared w = (Ok command, w') →
  let archiveFolderPath :=
    path_join (builder_instructionFolderPath shared) (archiveFolderName args) in
  ∃ (D : StoreDb) (before : list Event) (entries : list (Path * string)) (ws : World),
    let delta :=
      NixStore.computeDelta D (nixPath <$> deltaDependencies command)
        (nixPath (item command)) in
    let infos :=
      if build_partialNarinfos args
      then path <$> NixStore.added delta
      else path <$> NixStore.allResultingItems delta in
    let datas := path <$> NixStore.added delta in
    (∃ wq, store_db host wq (workdirStorePath shared) = Ok D)
    ∧ log w' = log w ++ before ++
        [EvRm archiveFolderPath;
         EvMakeArchiveSubset (workdirArchivePath shared) archiveFolderPath infos datas]
    ∧ Forall (fun e => is_archive_event e = false) before
    ∧ partialNarinfos command = build_partialNarinfos args
    ∧ archivePath command = archiveFolderName args
    ∧ gone archiveFolderPath ws
    ∧ makeArchiveSubset_result host ws (workdirArchivePath shared) archiveFolderPath
        infos datas = Ok entries
    ∧ w' = write_tree archiveFolderPath entries ws
    ∧ (∀ rel c, (rel, c) ∈ entries → is_Some (files w' !! (archiveFolderPath ++ rel)))
    ∧ (∀ p c, archiveFolderPath `prefix_of` p → files w' !! p = Some c →
              ∃ rel, (rel, c) ∈ entries ∧ p = archiveFolderPath ++ rel).
Proof.
  intros Hrun archiveFolderPath. unfold buildLoadArchiveDeltaCommand in Hrun.
  fold archiveFolderPath in Hrun.
  apply bind_ok in Hrun as ([] & w1 & H1 & Hrun).
  apply bind_ok in Hrun as (olds & w2 & H2 & Hrun).
  apply bind_ok in Hrun as ([] & w3 & H3 & Hrun).
  apply bind_ok in Hrun as (new & w4 & H4 & Hrun).
  apply bind_ok in Hrun as ([] & w5 & H5 & Hrun).
  apply bind_ok in Hrun as ([] & w6 & H6 & Hrun).
  apply bind_ok in Hrun as ([] & w7 & H7 & Hrun).
  apply bind_ok in Hrun as (delta & w8 & H8 & Hrun).
  apply bind_ok in Hrun as ([] & w9 & H9 & Hrun).
  apply bind_ok in Hrun as ([] & w10 & H10 & Hrun).
  apply bind_ok in Hrun as ([] & w11 & H11 & Hrun).
  apply bind_ok in Hrun as ([] & w12 & H12 & Hrun).
  injection Hrun as <- <-.
  destruct (getStoreDeltaPathsDelta_ok _ _ _ _ _ _ _ H8) as (wq & D & HD & ->).
  apply only_logs_emit with (P := quiet) in H1 as (e1 & -> & Q1); [|done].
  apply build_revisions_quiet in H2 as (e2 & -> & Q2).
  apply only_logs_emit with (P := quiet) in H3 as (e3 & -> & Q3); [|done].
  apply buildSystemFlake_quiet in H4 as (e4 & -> & Q4).
  apply only_logs_emit with (P := quiet) in H5 as (e5 & -> & Q5); [|done].
  apply copyOutputToArchive_inv in H6 as (copied & ->).
  apply only_logs_emit with (P := quiet) in H7 as (e7 & -> & Q7); [|done].
  apply getStoreDeltaPathsDelta_quiet in H8 as (e8 & -> & Q8).
  apply only_logs_emit with (P := quiet) in H9 as (e9 & -> & Q9); [|done].
  apply only_logs_emit with (P := quiet) in H10 as (e10 & -> & Q10); [|done].
  apply rm_recursive_inv in H11 as (Hlog11 & _ & _ & _ & _ & Hgone & _ & _).
  apply makeArchiveSubset_ok in H12 as (entries & Hsub & Hw').
  exists D,
    (e1 ++ e2 ++ e3 ++ e4 ++ e5
     ++ [EvCopyOutputToArchive (workdirStorePath shared) (workdirArchivePath shared)
           (NixFlake.output new)]
     ++ e7 ++ e8 ++ e9 ++ e10), entries.
  match type of Hsub with
  | makeArchiveSubset_result _ ?ws _ _ _ _ = _ => exists ws
  end.
  cbn [deltaDependencies item nixPath archivePath partialNarinfos].
  rewrite <- !list_fmap_compose.
  split_and!.
  - eauto.
  - rewrite Hw'. cbn [log with_log with_dirs with_files write_tree]. rewrite Hlog11.
    cbn [log with_log with_dirs with_files write_tree]. rewrite <- !app_assoc.
    reflexivity.
  - repeat (apply Forall_app; split; [first [done|by apply Forall_singleton]|]). done.
  - done.
  - done.
  - intros p Hp. exact (Hgone eq_refl p Hp).
  - exact Hsub.
  - exact Hw'.
  - intros rel c Hin. rewrite Hw'. by eapply write_tree_written.
  - intros p c Hp. rewrite Hw'. intros [Hold|Hnew]%write_tree_files; [|done].
    simpl in Hold. destruct (Hgone eq_refl p Hp) as [Hnone _]. congruence.
Qed.

(** A full instruction for [Scenario], built where an earlier build has
    left an archive folder: the stale file is gone, the info files of the
    whole closure are there, and the subsetter was asked for them. *)
Lemma archive_subset_follows_removal_witness :
  ∃ (command : Command) (w' : World) (before : list Event),
    buildLoadArchiveDeltaCommand Scenario.host
      (Scenario.load_args [] Scenario.revB) Scenario.build_shared
      Scenario2.stale = (Ok command, w')
    ∧ log w' = before ++
        [EvRm ["work"; "instruction"; "archive"];
         EvMakeArchiveSubset Scenario.build_archive ["work"; "instruction"; "archive"]
           [Scenario.glibc; Scenario.outA] [Scenario.glibc; Scenario.outA]]
    ∧ files Scenario2.stale !! ["work"; "instruction"; "archive"; "old.narinfo"]
      = Some "stale"
    ∧ files w' !! ["work"; "instruction"; "archive"; "old.narinfo"] = None
    ∧ is_Some (files w' !! ["work"; "instruction"; "archive";
                            Scenario.glibc +:+ ".narinfo"]).
Proof.
  destruct (buildLoadArchiveDeltaCommand Scenario.host
              (Scenario.load_args [] Scenario.revB) Scenario.build_shared
              Scenario2.stale) as [[command|e] w'] eqn:Hrun.
  2:{ apply (f_equal fst) in Hrun. vm_compute in Hrun. discriminate Hrun. }
  assert (command = {| archivePath := "archive"; deltaDependencies := [];
                       partialNarinfos := true;
                       item := {| nixPath := Scenario.outA;
                                  gitRevision := Scenario.revB |} |}) as Hcommand.
  { apply (f_equal fst) in Hrun. vm_compute in Hrun. by injection Hrun as <-. }
  destruct (archive_subset_follows_removal _ _ _ _ _ _ Hrun)
    as (D & before & entries & ws & [wq HD] & Hlog & _ & _ & _ & Hgone & Hsub & _
        & Hwritten & Honly).
  injection HD as <-. subst command.
  assert (entries = [([Scenario.glibc +:+ ".narinfo"], "narinfo");
                     ([Scenario.outA +:+ ".narinfo"], "narinfo")]) as ->.
  { vm_compute in Hsub. by injection Hsub as <-. }
  eexists. exists w', before. split_and!.
  - reflexivity.
  - rewrite Hlog. vm_compute. reflexivity.
  - by vm_compute.
  - destruct (files w' !! ["work"; "instruction"; "archive"; "old.narinfo"])
      as [c|] eqn:Hold; [|done].
    destruct (Honly ["work"; "instruction"; "archive"; "old.narinfo"] c)
      as (rel & Hin & Hrel); [by exists ["old.narinfo"]|done|].
    apply elem_of_cons in Hin as [[= -> _]|Hin]; [vm_compute in Hrel; discriminate Hrel|].
    apply list_elem_of_singleton in Hin as [= -> _]. vm_compute in Hrel. discriminate Hrel.
  - apply (Hwritten [Scenario.glibc +:+ ".narinfo"] "narinfo"). left.
Defined.

End LoadBuildFacts.

(** * Executing the load command *)

Module LoadExecuteFacts.
Import LoadArchive.

Lemma elem_of_entries dir w p :
  p ∈ Files.entries dir w ↔ in_dir dir p ∧ is_Some (files w !! p).
Proof.
  unfold Files.entries. rewrite list_elem_of_filter, list_elem_of_fmap. split.
  - intros [Hdir ([q c] & -> & Hq%elem_of_map_to_list)]. simpl in *. eauto.
  - intros [Hdir [c Hc]]. split; [done|]. exists (p, c).
    by rewrite elem_of_map_to_list.
Qed.

Lemma elem_of_narinfo_entries dir w n :
  dir ++ [n] ∈ Files.narinfo_entries dir w ↔
  ends_with ".narinfo" n = true ∧ is_Some (files w !! (dir ++ [n])).
Proof.
  unfold Files.narinfo_entries.
  rewrite list_elem_of_filter, elem_of_entries, basename_snoc, in_dir_snoc. tauto.
Qed.

Lemma narinfo_entries_in_dir dir w f :
  f ∈ Files.narinfo_entries dir w → f = dir ++ [basename f].
Proof.
  intros [_ [Hdir _]%elem_of_entries]%list_elem_of_filter. by apply in_dir_inv.
Qed.

Lemma narinfo_entries_names dir w : NoDup (basename <$> Files.narinfo_entries dir w).
Proof.
  apply NoDup_fmap_2_strong.
  - intros f g Hf%narinfo_entries_in_dir Hg%narinfo_entries_in_dir Heq. congruence.
  - unfold Files.narinfo_entries, Files.entries.
    apply (sublist_NoDup _ ((map_to_list (files w)).*1)); [apply NoDup_fst_map_to_list|].
    etrans; apply sublist_filter.
Qed.

Lemma name_in_narinfo_entries dir w n :
  n ∈ basename <$> Files.narinfo_entries dir w ↔ dir ++ [n] ∈ Files.narinfo_entries dir w.
Proof.
  rewrite list_elem_of_fmap. split.
  - intros (f & -> & Hf). by rewrite <- (narinfo_entries_in_dir _ _ _ Hf).
  - intros Hin. exists (dir ++ [n]). by rewrite basename_snoc.
Qed.

Section WithHost.
Context (host : Host) (command : Command) (shared : InstructionExecutionSharedArgs).

Let A : Path := path_join (instructionFolderPath shared) (archivePath command).
Let C : Path := clientStateStorePath shared.
Let sp : option Path := store_argument (storePath shared).
Let lookup : Event := EvNarinfoLookup sp C (nixPath <$> deltaDependencies command).
Let import : Event := EvCopyArchiveToStore A (nixPath (item command)) sp.
Let copying : Event := EvConsole "Copying nix store items to the store".
Let updating : Event := EvConsole "Updating local config".

(** The execution, step by step. *)
Lemma execute_inv w r w' :
  executeLoadArchiveDeltaCommand host command shared w = (r, w') →
((A ∉ dirs w) ∧ w' = w ∧ r = Throw (SystemError "ENOENT" A))
  ∨ (A ∈ dirs w ∧
     let wl := with_log (log w ++ [lookup]) w in
     match narinfo_lookup host wl sp C (nixPath <$> deltaDependencies command) with
     | Throw e => r = Throw e ∧ w' = wl
     | Ok deps =>
         ∃ r3 w3, copy_into A deps wl = (r3, w3) ∧
           match r3 with
           | Throw e => r = Throw e ∧ w' = w3
           | Ok _ =>
               let wi := with_log (log w3 ++ [copying; import]) w3 in
               match copyArchiveToStore_result host wi A (nixPath (item command)) sp with
               | Throw e => r = Throw e ∧ w' = wi
               | Ok valid =>
                   copy_into C (Files.narinfo_entries A w)
                     (with_log (log wi ++ [updating]) (with_store valid wi)) = (r, w')
               end
           end
     end).
Proof.
  unfold executeLoadArchiveDeltaCommand. fold A C sp.
  unfold bind at 1. unfold Files.getAbsoluteNarinfoListInDir.
  destruct (decide (A ∈ dirs w)) as [Hdir|Hdir]; [|intros [= <- <-]; by left].
  intros Hrun. right. split; [done|]. simpl.
  unfold ClientStore.getNarinfoFileListForNixPaths in Hrun.
  unfold bind at 1 2 in Hrun. simpl in Hrun. fold lookup in Hrun.
  destruct (narinfo_lookup host _ sp C _) as [deps|e]; [|by injection Hrun as <- <-].
  change (enrich A deps) with (copy_into A deps) in Hrun.
  unfold bind at 1 in Hrun.
  destruct (copy_into A deps _) as [r3 w3] eqn:H3. exists r3, w3. split; [done|].
  destruct r3 as [[]|e]; [|by injection Hrun as <- <-].
  unfold console_log, NixArchive.copyArchiveToStore, bind, emit in Hrun.
  simpl in Hrun. fold import copying updating in Hrun.
  rewrite <- app_assoc in Hrun. simpl in Hrun.
  unfold with_log at 1. simpl.
  destruct (copyArchiveToStore_result host _ A _ sp) as [valid|e];
    [|by injection Hrun as <- <-].
  exact Hrun.
Qed.

Lemma wf_world_files w w' : files w' = files w → wf_world w → wf_world w'.
Proof. unfold wf_world. by intros ->. Qed.

(** C7. In every execution of a load command the effects are, in this
    order, the lookup of the info files of the dependencies, their copies
    into the archive, the import into the store, and the copies of the
    snapshot into the cache, or a beginning of that sequence when a step
    throws. On a target whose archive directory is not the cache
    directory: if any entry of the cache directory differs afterwards,
    then the import was reached with the cache untouched, the store tool
    accepted it, and the store is the one it left. *)
Theorem load_steps_in_order w r w' :
  executeLoadArchiveDeltaCommand host command shared w = (r, w') →
  ∃ deps : list Path,
    let enrichment := copy_event A <$> deps in
    let append := copy_event C <$> Files.narinfo_entries A w in
    let full := [lookup] ++ enrichment ++ [copying; import; updating] ++ append in
    ∃ trace,
      log w' = log w ++ trace
      ∧ trace `prefix_of` full
      ∧ (r = Ok tt → trace = full)
      ∧ (wf_world w → A ≠ C →
         (∃ n, files w' !! (C ++ [n]) ≠ files w !! (C ++ [n])) →
         ∃ wi valid,
           log wi = log w ++ [lookup] ++ enrichment ++ [copying; import]
           ∧ (∀ n, files wi !! (C ++ [n]) = files w !! (C ++ [n]))
           ∧ copyArchiveToStore_result host wi A (nixPath (item command)) sp = Ok valid
           ∧ store w' = valid).
Proof.
  intros [(Hdir & -> & ->)|[Hdir Hrun]]%execute_inv.
  { exists [], []. rewrite app_nil_r. split_and!; try done.
    - apply prefix_nil.
    - intros _ _ [n Hn]. done. }
  simpl in Hrun. fold A C sp lookup import copying updating in Hrun.
  set (wl := with_log (log w ++ [lookup]) w) in *.
  assert (∀ n, ¬ in_dir A (C ++ [n]) ∨ A = C) as Hout.
  { intros n. destruct (decide (A = C)); [by right|left].
    by intros Hin%in_dir_snoc. }
  destruct (narinfo_lookup host wl sp C _) as [deps|e].
  2:{ destruct Hrun as [-> ->]. exists [], [lookup]. split_and!; try done.
      - by apply prefix_cons, prefix_nil.
      - intros _ _ [n Hn]. done. }
  destruct Hrun as (r3 & w3 & H3 & Hrun). exists deps.
  destruct (copy_into_log A deps wl r3 w3 H3) as ((k & Hlog3 & Hk) & _ & Hstore3 & _).
  assert (wf_world w → A ≠ C → ∀ n, files w3 !! (C ++ [n]) = files w !! (C ++ [n]))
    as Hcache3.
  { intros Hwf Hne n.
    destruct (copy_into_inv A deps wl r3 w3 Hwf H3) as (_ & _ & _ & _ & _ & Hout3 & _).
    rewrite Hout3; [done|]. by destruct (Hout n). }
  destruct r3 as [[]|e].
  2:{ destruct Hrun as [-> ->]. exists ([lookup] ++ (copy_event A <$> take k deps)).
      split_and!; try done.
      - rewrite Hlog3. simpl. by rewrite <- app_assoc.
      - apply prefix_app, prefix_app_r. rewrite fmap_take. apply prefix_take.
      - intros Hwf Hne [n Hn]. exfalso. apply Hn. by apply Hcache3. }
  rewrite (Hk eq_refl), firstn_all in Hlog3.
  set (wi := with_log (log w3 ++ [copying; import]) w3) in *.
  assert (log wi = log w ++ [lookup] ++ (copy_event A <$> deps) ++ [copying; import])
    as Hlogi.
  { simpl. rewrite Hlog3. simpl. by rewrite <- !app_assoc. }
  destruct (copyArchiveToStore_result host wi A _ sp) as [valid|e] eqn:Himport.
  2:{ destruct Hrun as [-> ->].
      exists ([lookup] ++ (copy_event A <$> deps) ++ [copying; import]).
      split_and!; try done.
      - apply prefix_app, prefix_app.
        by apply prefix_cons, prefix_cons, prefix_nil.
      - intros Hwf Hne [n Hn]. exfalso. apply Hn. by apply Hcache3. }
  set (w4 := with_log (log wi ++ [updating]) (with_store valid wi)) in *.
  destruct (copy_into_log C _ w4 r w' Hrun) as ((k' & Hlog' & Hk') & _ & Hstore' & _).
  exists ([lookup] ++ (copy_event A <$> deps) ++ [copying; import; updating]
          ++ (copy_event C <$> take k' (Files.narinfo_entries A w))).
  split_and!.
  - rewrite Hlog'. simpl. rewrite Hlog3. simpl. by rewrite <- !app_assoc.
  - apply prefix_app, prefix_app, prefix_app. rewrite fmap_take. apply prefix_take.
  - intros Hr. by rewrite (Hk' Hr), firstn_all.
  - intros Hwf Hne _. exists wi, valid. split_and!; try done.
    intros n. by apply Hcache3.
Qed.

(** C4, amended. In every execution of a load command on a target whose
    archive directory is not the cache directory, whatever its outcome: an
    entry of the cache directory whose name is not that of an info file
    present in the archive directory before the enrichment is what it was
    (absent if it was absent), so an info file that the enrichment brought
    into the archive under a name of its own never enters the cache. When
    the execution has run to its end, with [deps] the info files that the
    lookup of the dependencies gave: for each info file present in the
    archive before the enrichment the cache has an entry of that name,
    which holds what the archive holds under that name after the
    enrichment: the contents shipped when no file of the dependencies
    bears the name, and otherwise, the dependencies not being entries of
    the archive, the contents of a file of the dependencies of that name;
    and when the files of the dependencies are entries of the cache
    itself, every entry of the cache is what it was or what the archive
    held under that name before the enrichment. *)
Theorem cache_receives_snapshot_only w r w' :
  wf_world w →
  A ≠ C →
  executeLoadArchiveDeltaCommand host command shared w = (r, w') →
  let shipped n :=
    ends_with ".narinfo" n = true ∧ is_Some (files w !! (A ++ [n])) in
  (∀ n, ¬ shipped n → files w' !! (C ++ [n]) = files w !! (C ++ [n]))
  ∧ (r = Ok tt →
     ∃ deps : list Path,
       narinfo_lookup host (with_log (log w ++ [lookup]) w) sp C
         (nixPath <$> deltaDependencies command) = Ok deps
       ∧ ∀ n,
           (shipped n →
            is_Some (files w' !! (C ++ [n]))
            ∧ ((n ∉ basename <$> deps) →
               files w' !! (C ++ [n]) = files w !! (A ++ [n])))
           ∧ ((∀ d, d ∈ deps → in_dir C d) →
              files w' !! (C ++ [n]) = files w !! (C ++ [n])
              ∨ (shipped n ∧ files w' !! (C ++ [n]) = files w !! (A ++ [n])))
           ∧ ((∀ d, d ∈ deps → ¬ in_dir A d) → shipped n → n ∈ basename <$> deps →
              ∃ d, d ∈ deps ∧ basename d = n
                   ∧ files w' !! (C ++ [n]) = files w !! d)).
Proof.
  intros Hwf Hne Hrun shipped.
  apply execute_inv in Hrun as [(_ & -> & ->)|[Hdir Hrun]]; [by split|].
  simpl in Hrun. fold A C sp lookup import copying updating in Hrun.
  set (wl := with_log (log w ++ [lookup]) w) in *.
  assert (wf_world wl) as Hwfl by done.
  destruct (narinfo_lookup host wl sp C _) as [deps|e].
  2:{ destruct Hrun as [-> ->]. by split. }
  destruct Hrun as (r3 & w3 & H3 & Hrun).
  destruct (copy_into_inv A deps wl r3 w3 Hwfl H3)
    as (Hwf3 & _ & _ & _ & _ & Hout3 & Hnames3 & Hmono3).
  assert (∀ n, files w3 !! (C ++ [n]) = files w !! (C ++ [n])) as Hcache3.
  { intros n. rewrite Hout3; [done|]. intros Hin%in_dir_snoc. by apply Hne. }
  destruct r3 as [[]|e].
  2:{ destruct Hrun as [-> ->]. split; [intros n _; apply Hcache3|done]. }
  set (wi := with_log (log w3 ++ [copying; import]) w3) in *.
  destruct (copyArchiveToStore_result host wi A _ sp) as [valid|e].
  2:{ destruct Hrun as [-> ->]. split; [intros n _; apply Hcache3|done]. }
  set (w4 := with_log (log wi ++ [updating]) (with_store valid wi)) in *.
  assert (wf_world w4) as Hwf4 by done.
  destruct (copy_into_inv C _ w4 r w' Hwf4 Hrun)
    as (_ & _ & _ & _ & _ & _ & Hnames' & _).
  assert (∀ n, ¬ shipped n → files w' !! (C ++ [n]) = files w !! (C ++ [n])) as Hother.
  { intros n Hnot. rewrite Hnames'; [apply Hcache3|].
    rewrite name_in_narinfo_entries, elem_of_narinfo_entries. exact Hnot. }
  split; [exact Hother|]. intros ->. exists deps. split; [done|].
  assert (∀ n, shipped n →
               files w' !! (C ++ [n]) = files w3 !! (A ++ [n])
               ∧ is_Some (files w3 !! (A ++ [n]))) as Hshipped.
  { intros n Hn.
    assert (A ++ [n] ∈ Files.narinfo_entries A w) as Hin
      by by apply elem_of_narinfo_entries.
    destruct (copy_into_done C _ w4 w' Hwf4 Hrun) with (f := A ++ [n])
      as [Hsome Heq]; try done.
    - intros f Hf%narinfo_entries_in_dir. rewrite Hf.
      intros Hd%in_dir_snoc. by apply Hne.
    - apply narinfo_entries_names.
    - rewrite basename_snoc in Heq. done. }
  intros n. split_and!.
  - intros [Heq Hsome]%Hshipped. split; [by rewrite Heq|].
    intros Hfresh. rewrite Heq. by apply Hnames3.
  - intros Hdeps. destruct (decide (shipped n)) as [Hs|Hs]; [|left; by apply Hother].
    destruct (Hshipped n Hs) as [Heq _]. rewrite Heq.
    destruct (decide (n ∈ basename <$> deps)) as [Hdep|Hfresh].
    + left.
      destruct (copy_into_last A deps wl w3 Hwfl H3) with (n := n)
        as (d & Hd & Hname & _ & Hcopy); [|done|].
      { intros d Hd [_ HA]. destruct (Hdeps d Hd) as [_ HC]. congruence. }
      rewrite Hcopy. simpl.
      rewrite (in_dir_inv _ _ (Hdeps d Hd)), Hname. done.
    + right. split; [done|]. by apply Hnames3.
  - intros Hdeps [Heq _]%Hshipped Hn.
    destruct (copy_into_last A deps wl w3 Hwfl H3 Hdeps n Hn)
      as (d & Hd & Hname & _ & Hcopy).
    exists d. rewrite Heq, Hcopy. done.
Qed.

End WithHost.

(** The load command of [Scenario] on its target: the cache gains the
    info file of [hello], which the archive shipped, and keeps that of
    [glibc]; the archive gained the info file of [glibc]. On the target
    whose store holds an info file under a name that the archive ships,
    the cache gains that name with the contents of the file of the store. *)
Lemma cache_receives_snapshot_only_witness :
  (∃ w',
     executeLoadArchiveDeltaCommand Scenario.host Scenario.load_command
       Scenario.execute_shared Scenario.target = (Ok tt, w')
     ∧ files w' !! (Scenario.cache_dir ++ ["dddd.narinfo"]) = Some "hello"
     ∧ files w' !! (Scenario.cache_dir ++ ["cccc.narinfo"])
       = files Scenario.target !! (Scenario.cache_dir ++ ["cccc.narinfo"])
     ∧ files w' !! (Scenario.cache_dir ++ ["dddd.nar"]) = None)
  ∧ (∃ w',
       executeLoadArchiveDeltaCommand Scenario2.store_host Scenario.load_command
         Scenario.execute_shared Scenario2.colliding = (Ok tt, w')
       ∧ files w' !! (Scenario.cache_dir ++ ["cccc.narinfo"]) = Some "from-target-store"
       ∧ files w' !! (Scenario.cache_dir ++ ["dddd.narinfo"]) = Some "hello").
Proof.
  split.
  - destruct (executeLoadArchiveDeltaCommand Scenario.host Scenario.load_command
                Scenario.execute_shared Scenario.target) as [r w'] eqn:Hrun.
    assert (r = Ok tt) as ->.
    { apply (f_equal fst) in Hrun. vm_compute in Hrun. by subst r. }
    exists w'. split; [done|].
    destruct (cache_receives_snapshot_only Scenario.host Scenario.load_command
                Scenario.execute_shared Scenario.target (Ok tt) w')
      as (Hout & Hended); [unfold wf_world; decide_now|decide_now|done|].
    destruct (Hended eq_refl) as (deps & Hdeps & Hcache).
    injection Hdeps as <-.
    split_and!.
    + destruct (Hcache "dddd.narinfo") as (Hin & _).
      destruct Hin as [_ Heq]; [decide_now|].
      etrans; [apply Heq; decide_now|by vm_compute].
    + apply Hout. decide_now.
    + etrans; [apply Hout; decide_now|by vm_compute].
  - destruct (executeLoadArchiveDeltaCommand Scenario2.store_host Scenario.load_command
                Scenario.execute_shared Scenario2.colliding) as [r w'] eqn:Hrun.
    assert (r = Ok tt) as ->.
    { apply (f_equal fst) in Hrun. vm_compute in Hrun. by subst r. }
    exists w'. split; [done|].
    destruct (cache_receives_snapshot_only Scenario2.store_host Scenario.load_command
                Scenario.execute_shared Scenario2.colliding (Ok tt) w')
      as (_ & Hended); [unfold wf_world; decide_now|decide_now|done|].
    destruct (Hended eq_refl) as (deps & Hdeps & Hcache).
    injection Hdeps as <-.
    split.
    + destruct (Hcache "cccc.narinfo") as (_ & _ & Hmerged).
      destruct Hmerged as (d & ->%list_elem_of_singleton & _ & Heq).
      * intros d ->%list_elem_of_singleton. decide_now.
      * decide_now.
      * decide_now.
      * etrans; [exact Heq|by vm_compute].
    + destruct (Hcache "dddd.narinfo") as (Hin & _).
      destruct Hin as [_ Heq]; [decide_now|].
      etrans; [apply Heq; decide_now|by vm_compute].
Defined.

(** The same target with a store tool that refuses the import: the
    execution stops there and the cache is as before. *)
Lemma load_steps_in_order_witness :
  ∃ e w',
    executeLoadArchiveDeltaCommand Scenario.refusing_host Scenario.load_command
      Scenario.execute_shared Scenario.target = (Throw e, w')
    ∧ log w' =
        [EvNarinfoLookup None Scenario.cache_dir [Scenario.outA];
         EvCopyFile (Scenario.cache_dir ++ ["cccc.narinfo"])
           (Scenario.archive_dir ++ ["cccc.narinfo"]);
         EvConsole "Copying nix store items to the store";
         EvCopyArchiveToStore Scenario.archive_dir Scenario.outB None]
    ∧ ∀ n, files w' !! (Scenario.cache_dir ++ [n])
           = files Scenario.target !! (Scenario.cache_dir ++ [n]).
Proof.
  destruct (executeLoadArchiveDeltaCommand Scenario.refusing_host Scenario.load_command
              Scenario.execute_shared Scenario.target) as [r w'] eqn:Hrun.
  assert (r = Throw (Error "hash mismatch")) as ->.
  { apply (f_equal fst) in Hrun. vm_compute in Hrun. by subst r. }
  exists (Error "hash mismatch"), w'. split; [done|].
  destruct (load_steps_in_order Scenario.refusing_host Scenario.load_command
              Scenario.execute_shared Scenario.target (Throw (Error "hash mismatch")) w')
    as (deps & trace & Hlog & _ & _ & Hcache); [done|].
  split.
  - replace w' with
      (snd (executeLoadArchiveDeltaCommand Scenario.refusing_host Scenario.load_command
              Scenario.execute_shared Scenario.target)) by (by rewrite Hrun).
    by vm_compute.
  - intros n. destruct (decide (files w' !! (Scenario.cache_dir ++ [n])
                                = files Scenario.target !! (Scenario.cache_dir ++ [n])))
      as [Heq|Hneq]; [done|].
    destruct Hcache as (wi & valid & _ & _ & Himport & _);
      [unfold wf_world; decide_now|decide_now|by exists n|].
    discriminate Himport.
Defined.

(** C4 as it is written fails where a file of the dependencies bears the
    name of an info file that the archive ships: on a target whose store
    holds [cccc.narinfo] and whose cache does not, the load command runs
    to its end, and the cache then holds under that name the contents of
    the file of the store, which the enrichment merged in, not the
    contents shipped. *)
Lemma dependency_contents_enter_cache :
  let result :=
    executeLoadArchiveDeltaCommand Scenario2.store_host Scenario.load_command
      Scenario.execute_shared Scenario2.colliding in
  let A := Scenario.archive_dir in
  let C := Scenario.cache_dir in
  result.1 = Ok tt
  ∧ narinfo_lookup Scenario2.store_host
      (with_log [EvNarinfoLookup None C [Scenario.outA]] Scenario2.colliding)
      None C [Scenario.outA] = Ok [["srv"; "store"; "cccc.narinfo"]]
  ∧ files Scenario2.colliding !! (A ++ ["cccc.narinfo"]) = Some "shipped"
  ∧ files Scenario2.colliding !! ["srv"; "store"; "cccc.narinfo"] = Some "from-target-store"
  ∧ files Scenario2.colliding !! (C ++ ["cccc.narinfo"]) = None
  ∧ files result.2 !! (C ++ ["cccc.narinfo"]) = Some "from-target-store"
  ∧ ¬ (∀ n, files result.2 !! (C ++ [n]) = files Scenario2.colliding !! (C ++ [n])
            ∨ (is_Some (files Scenario2.colliding !! (A ++ [n]))
               ∧ files result.2 !! (C ++ [n]) = files Scenario2.colliding !! (A ++ [n]))).
Proof.
  intros result A C.
  assert (files result.2 !! (C ++ ["cccc.narinfo"]) = Some "from-target-store") as Hafter
    by (vm_compute; reflexivity).
  assert (files Scenario2.colliding !! (A ++ ["cccc.narinfo"]) = Some "shipped") as Hshipped
    by (vm_compute; reflexivity).
  assert (files Scenario2.colliding !! (C ++ ["cccc.narinfo"]) = None) as Hbefore
    by (vm_compute; reflexivity).
  split_and!.
  - vm_compute. reflexivity.
  - reflexivity.
  - exact Hshipped.
  - vm_compute. reflexivity.
  - exact Hbefore.
  - exact Hafter.
  - intros Hclaim. destruct (Hclaim "cccc.narinfo") as [Hsame|[_ Hship]]; congruence.
Qed.

End LoadExecuteFacts.

(** * Validation of an instruction directory *)

Module InstructionsFacts.
Import Instructions.

Lemma switch_count_app (before after : list Command) s :
  length (filter (fun c => is_switch c = true) (before ++ Switch s :: after))
  = length (filter (fun c => is_switch c = true) before)
    + S (length (filter (fun c => is_switch c = true) after)).
Proof. rewrite filter_app, filter_cons_True by done. by rewrite length_app. Qed.

Lemma existsb_switch_app (before after : list Command) s :
  existsb is_switch (before ++ Switch s :: after) = true.
Proof. rewrite existsb_app. simpl. apply orb_true_r. Qed.

(** The two checks together leave a switch nothing to follow it. *)
Lemma final_switch (cs before after : list Command) s :
  at_most_one_switch cs && switch_is_last cs = true →
  cs = before ++ Switch s :: after →
  after = [].
Proof.
  intros [Hone Hlast]%andb_true_iff ->.
  destruct after as [|c after _] using rev_ind; [done|]. exfalso.
  apply bool_decide_eq_true in Hone. unfold switch_is_last in Hlast.
  replace (before ++ Switch s :: after ++ [c])
    with ((before ++ Switch s :: after) ++ [c]) in * by (by rewrite <- app_assoc).
  rewrite last_snoc in Hlast. destruct c as [l|s'].
  - rewrite existsb_app, existsb_switch_app in Hlast. done.
  - rewrite filter_app, length_app, switch_count_app in Hone.
    rewrite filter_cons_True in Hone by done. simpl in Hone. lia.
Qed.

Section WithHost.
Context (host : Host).

(** C8. Validation changes nothing, whatever it answers. When it accepts
    a directory, the instruction read from it has at most one switch and
    no command after a switch. An instruction in which a command follows a
    switch is refused with [InvalidInstruction]; the reason is that the
    switch must be last when the archive directories of its loads
    exist. *)
Theorem validation_requires_final_switch (dir : Path) (w : World) :
  let result := assertInstructionDirValid host dir w in
  result.2 = w
  ∧ (result.1 = Ok tt →
     ∃ instruction,
       read_instruction host dir w = Ok instruction
       ∧ length (filter (fun c => is_switch c = true) (commands instruction)) ≤ 1
       ∧ ∀ before s after,
           commands instruction = before ++ Switch s :: after → after = [])
  ∧ (∀ instruction before s c after,
       read_instruction host dir w = Ok instruction →
       commands instruction = before ++ Switch s :: c :: after →
       ∃ reason,
         result.1 = Throw (InvalidInstruction reason)
         ∧ (archive_directories_exist dir (commands instruction) w = true →
            reason = "switch must be last")).
Proof.
  unfold assertInstructionDirValid.
  destruct (read_instruction host dir w) as [instruction|e] eqn:Hread; simpl.
  2:{ split_and!; done. }
  destruct (archive_directories_exist dir (commands instruction) w) eqn:Hdirs; simpl.
  - destruct (at_most_one_switch (commands instruction)
              && switch_is_last (commands instruction)) eqn:Hswitch; simpl.
    + split_and!; [done| |].
      * intros _. exists instruction. split_and!; [done| |].
        -- apply andb_true_iff in Hswitch as [Hone _].
           by apply bool_decide_eq_true in Hone.
        -- intros before s after. by apply final_switch.
      * intros ? before s c after [= <-] Hcs.
        by pose proof (final_switch _ _ _ _ Hswitch Hcs).
    + split_and!; [done|done|]. intros ? before s c after [= <-] Hcs. eauto.
  - split_and!; [done|done|]. intros ? before s c after [= <-] Hcs.
    eexists. split; [done|]. by rewrite Hdirs.
Qed.

End WithHost.

(** Scenario S6: the instruction directory of [Scenario] holds the
    commands switch, load. *)
Example validation_rejects_switch_before_load :
  (∃ s l, read_instruction Scenario.host Scenario.instruction_dir Scenario.target
          = Ok {| commands := [Switch s; Load l] |})
  ∧ (assertInstructionDirValid Scenario.host Scenario.instruction_dir Scenario.target).1
    = Throw (InvalidInstruction "switch must be last").
Proof. split; [eexists _, _|]; vm_compute; reflexivity. Qed.

End InstructionsFacts.

(** * The handler of [dummy2]: the workdir *)

Module MainFacts.

Lemma keeps_refl w : keeps w w.
Proof.
  split_and!; [done..|]. exists []. by rewrite app_nil_r.
Qed.

Lemma keeps_trans w1 w2 w3 : keeps w1 w2 → keeps w2 w3 → keeps w1 w3.
Proof.
  intros (Hf1 & Hd1 & ev1 & Hl1 & Hn1) (Hf2 & Hd2 & ev2 & Hl2 & Hn2).
  split_and!.
  - auto.
  - set_solver.
  - exists (ev1 ++ ev2). split; [by rewrite Hl2, Hl1, app_assoc|by apply Forall_app].
Qed.

Lemma keeps_dir w w' dir : keeps w w' → dir ∈ dirs w → dir ∈ dirs w'.
Proof. intros (_ & Hd & _) ?. by apply Hd. Qed.

(** A change of the log, of the store or of the system only. *)
Lemma keeps_quiet w w' events :
  files w' = files w → dirs w' = dirs w → log w' = log w ++ events →
  Forall (fun e => ∀ target, e ≠ EvRm target) events →
  keeps w w'.
Proof.
  intros Hf Hd Hl Hn. split_and!; [by rewrite Hf|by rewrite Hd|eauto].
Qed.

Lemma keeping_ret {A} (a : A) : keeping (ret a).
Proof. intros w r w' [= <- <-]. apply keeps_refl. Qed.

Lemma keeping_throw {A} e : keeping (throw e : M A).
Proof. intros w r w' [= <- <-]. apply keeps_refl. Qed.

Lemma keeping_answer {A} (f : World → Outcome A) : keeping (fun w => (f w, w)).
Proof. intros w r w' [= <- <-]. apply keeps_refl. Qed.

Lemma keeping_emit e : (∀ target, e ≠ EvRm target) → keeping (emit e).
Proof.
  intros He w r w' [= <- <-]. apply (keeps_quiet _ _ [e]); try done. by constructor.
Qed.

Lemma keeping_bind {A B} (m : M A) (k : A → M B) :
  keeping m → (∀ a, keeping (k a)) → keeping (bind m k).
Proof.
  intros Hm Hk w r w'. unfold bind. destruct (m w) as [[a|e] w1] eqn:Hrun.
  - intros Hrun'. eapply keeps_trans; [by eapply Hm|by eapply Hk].
  - intros [= <- <-]. by eapply Hm.
Qed.

Lemma keeping_for_each {A} (l : list A) (body : A → M unit) :
  (∀ x, keeping (body x)) → keeping (for_each l body).
Proof.
  intros Hbody. induction l as [|x l IH]; simpl.
  - apply keeping_ret.
  - apply keeping_bind; [apply Hbody|by intros _].
Qed.

Lemma keeping_copyFile src dst : keeping (copyFile src dst).
Proof.
  intros w r w' (Hlog & Hdirs & _ & _ & Hfiles)%copyFile_inv. split_and!.
  - intros p Hp. destruct r as [[]|e]; [|by rewrite Hfiles].
    destruct Hfiles as (c & _ & ->). destruct (decide (dst = p)) as [->|Hne].
    + rewrite lookup_insert_eq. eauto.
    + by rewrite lookup_insert_ne.
  - by rewrite Hdirs.
  - exists [EvCopyFile src dst]. split; [done|]. by constructor.
Qed.

Lemma keeps_write_tree dest entries w : keeps w (write_tree dest entries w).
Proof.
  split_and!.
  - intros p. apply write_tree_keeps.
  - unfold write_tree. simpl. set_solver.
  - exists []. by rewrite app_nil_r.
Qed.

Section WithHost.
Context (host : Host).

Lemma keeping_mkdir dir : keeping (mkdir_recursive dir).
Proof.
  intros w r w'. unfold mkdir_recursive, bind, emit. simpl.
  case_decide; intros [= <- <-].
  - apply (keeps_quiet _ _ [EvMkdir dir]); try done. by constructor.
  - split_and!; [done|simpl; set_solver|].
    exists [EvMkdir dir]. split; [done|]. by constructor.
Qed.

Lemma keeping_decompress dest instr :
  keeping (Instructions.decompressInstructionDir host dest instr).
Proof.
  intros w r w'. unfold Instructions.decompressInstructionDir, bind, emit. simpl.
  destruct (decompress_result host _ dest instr) as [entries failure].
  intros [= <- <-]. eapply keeps_trans; [|apply keeps_write_tree].
  apply (keeps_quiet _ _ [EvDecompress dest instr]); try done. by constructor.
Qed.

Lemma decompress_inv dest instr w r w' :
  Instructions.decompressInstructionDir host dest instr w = (r, w') →
  w' = write_tree dest
         (decompress_result host (with_log (log w ++ [EvDecompress dest instr]) w)
            dest instr).1
         (with_log (log w ++ [EvDecompress dest instr]) w).
Proof.
  unfold Instructions.decompressInstructionDir, bind, emit. simpl.
  destruct (decompress_result host _ dest instr) as [entries failure].
  by intros [= _ <-].
Qed.

Lemma keeping_copyArchiveToStore archive item sp :
  keeping (NixArchive.copyArchiveToStore host archive item sp).
Proof.
  intros w r w'. unfold NixArchive.copyArchiveToStore, bind, emit. simpl.
  destruct (copyArchiveToStore_result host _ archive item sp); intros [= <- <-];
    (apply (keeps_quiet _ _ [EvCopyArchiveToStore archive item sp]); try done;
     by constructor).
Qed.

Lemma keeping_readDirInstruction dir : keeping (Instructions.readDirInstruction host dir).
Proof.
  unfold Instructions.readDirInstruction.
  apply keeping_bind; [by apply keeping_emit|intros _; apply keeping_answer].
Qed.

Lemma keeping_assertInstructionDirValid dir :
  keeping (Instructions.assertInstructionDirValid host dir).
Proof.
  intros w r w'. unfold Instructions.assertInstructionDirValid.
  repeat case_match; intros [= <- <-]; apply keeps_refl.
Qed.

Lemma keeping_getAbsoluteFilesListInDir dir : keeping (Files.getAbsoluteFilesListInDir dir).
Proof.
  intros w r w'. unfold Files.getAbsoluteFilesListInDir.
  case_decide; intros [= <- <-]; apply keeps_refl.
Qed.

Lemma keeping_getNarinfoFileListForNixPaths sp cache nixPaths :
  keeping (ClientStore.getNarinfoFileListForNixPaths host sp cache nixPaths).
Proof.
  unfold ClientStore.getNarinfoFileListForNixPaths.
  apply keeping_bind; [by apply keeping_emit|intros _; apply keeping_answer].
Qed.

Lemma ends_well_throw {A} dir e : ends_well dir (throw e : M A).
Proof. intros w r w' _ [= <- <-]. apply keeps_refl. Qed.

Lemma ends_well_bind {A B} dir (m : M A) (k : A → M B) :
  keeping m → (∀ a, ends_well dir (k a)) → ends_well dir (bind m k).
Proof.
  intros Hm Hk w r w' Hdir. unfold bind. destruct (m w) as [[a|e] w1] eqn:Hrun.
  - intros Hrun'. pose proof (Hm _ _ _ Hrun) as Hkeep.
    pose proof (Hk a w1 r w' (keeps_dir _ _ _ Hkeep Hdir) Hrun') as Hend.
    destruct r; [done|]. by eapply keeps_trans.
  - intros [= <- <-]. by eapply Hm.
Qed.

Lemma ends_well_rm dir : ends_well dir (rm_recursive false dir).
Proof.
  intros w r w' Hdir (_ & _ & _ & _ & Hok & Hgone & _)%rm_recursive_inv.
  rewrite (Hok Hdir) in *. exact (Hgone eq_refl).
Qed.

Lemma mkdir_recursive_inv dir w r w' :
  mkdir_recursive dir w = (r, w') →
  (r = Ok tt
   ∧ w' = with_log (log w ++ [EvMkdir dir])
            (with_dirs (dirs w ∪ list_to_set (ancestors_from [] dir ++ [dir])) w))
  ∨ (∃ e, r = Throw e ∧ w' = with_log (log w ++ [EvMkdir dir]) w).
Proof.
  unfold mkdir_recursive, bind, emit. simpl.
  case_decide; intros [= <- <-]; [right; eauto|by left].
Qed.

End WithHost.

Ltac keeping_step host :=
  first
    [ apply keeping_ret
    | apply keeping_throw
    | apply keeping_emit; done
    | apply keeping_copyFile
    | apply (keeping_readDirInstruction host)
    | apply (keeping_assertInstructionDirValid host)
    | apply keeping_getAbsoluteFilesListInDir
    | apply (keeping_getNarinfoFileListForNixPaths host)
    | apply (keeping_copyArchiveToStore host)
    | apply keeping_for_each; intros ?
    | apply keeping_bind; [|intros ?] ].

(** C9. When the handler of [dummy2] returns, the workdir and all that
    is below it are gone. When it throws, nothing has been removed: every
    file and directory that existed is still there and no [rm] was run;
    either the making of the workdir itself failed, or the workdir is
    still a directory and holds every file that the decompression wrote
    into it. *)
Theorem workdir_removed_on_success_only
    (host : Host) (workdirPath instructionPath clientStateStorePath storePath : Path)
    (w : World) :
  let result :=
    Main.dummy2 host workdirPath instructionPath clientStateStorePath storePath w in
  let wm :=
    with_log (log w ++ [EvMkdir workdirPath; EvConsole "Decompressing instruction";
                        EvDecompress workdirPath instructionPath])
      (with_dirs (dirs w ∪ list_to_set (ancestors_from [] workdirPath ++ [workdirPath])) w) in
  match result.1 with
  | Ok _ => gone workdirPath result.2
  | Throw _ =>
      keeps w result.2
      ∧ (log result.2 = log w ++ [EvMkdir workdirPath]
         ∨ (workdirPath ∈ dirs result.2
            ∧ ∀ rel c,
                (rel, c) ∈ (decompress_result host wm workdirPath instructionPath).1 →
                is_Some (files result.2 !! (workdirPath ++ rel))))
  end.
Proof.
  intros result wm. subst result. unfold Main.dummy2.
  destruct (mkdir_recursive workdirPath w) as [r1 w1] eqn:Hmk.
  pose proof (keeping_mkdir _ _ _ _ Hmk) as Hkeep1.
  apply mkdir_recursive_inv in Hmk as Hmk'.
  destruct Hmk' as [[-> Hw1]|(e & -> & Hw1)].
  2:{ rewrite (bind_run_throw _ _ _ _ _ Hmk). simpl. split; [done|]. left. by subst w1. }
  rewrite (bind_run _ _ _ _ _ Hmk).
  rewrite (bind_run _ _ _ _ _ (eq_refl : console_log _ w1 = (Ok tt, _))).
  set (w2 := with_log (log w1 ++ [EvConsole "Decompressing instruction"]) w1).
  assert (workdirPath ∈ dirs w2) as Hdir2.
  { subst w2 w1. simpl. set_solver. }
  assert (keeps w w2) as Hkeep2.
  { eapply keeps_trans; [exact Hkeep1|].
    apply (keeps_quiet _ _ [EvConsole "Decompressing instruction"]); try done.
    by constructor. }
  destruct (Instructions.decompressInstructionDir host workdirPath instructionPath w2)
    as [r3 w3] eqn:Hdec.
  pose proof (keeping_decompress _ _ _ _ _ _ Hdec) as Hkeep3.
  assert (∀ rel c,
            (rel, c) ∈ (decompress_result host wm workdirPath instructionPath).1 →
            is_Some (files w3 !! (workdirPath ++ rel))) as Hwritten.
  { assert (with_log (log w2 ++ [EvDecompress workdirPath instructionPath]) w2 = wm)
      as Hwm.
    { subst wm w2 w1. unfold with_log, with_dirs. simpl. by rewrite <- !app_assoc. }
    apply decompress_inv in Hdec. rewrite Hwm in Hdec. subst w3.
    intros rel c. apply write_tree_written. }
  destruct r3 as [[]|e].
  2:{ rewrite (bind_run_throw _ _ _ _ _ Hdec). simpl. split.
      - by eapply keeps_trans.
      - right. split; [by eapply keeps_dir|done]. }
  rewrite (bind_run _ _ _ _ _ Hdec).
  match goal with
  | |- context [ (?rest w3).1 ] =>
      assert (ends_well workdirPath rest) as Hrest
  end.
  { apply ends_well_bind; [apply keeping_readDirInstruction|intros instruction].
    case_match; [apply ends_well_throw|].
    repeat first
      [ apply ends_well_rm
      | apply ends_well_bind; [repeat keeping_step host|intros ?] ]. }
  match goal with
  | |- context [ (?rest w3).1 ] => destruct (rest w3) as [r w'] eqn:Hrun
  end.
  pose proof (Hrest _ _ _ (keeps_dir _ _ _ Hkeep3 Hdir2) Hrun) as Hend. simpl.
  destruct r as [[]|e]; [done|].
  assert (keeps w w') as Hkeep.
  { eapply keeps_trans; [|exact Hend]. by eapply keeps_trans. }
  split; [done|]. right. split.
  - eapply keeps_dir; [exact Hend|]. by eapply keeps_dir.
  - intros rel c Hin. destruct Hend as (Hfiles & _). by eapply Hfiles, Hwritten.
Qed.

(** The handler on the target of [Scenario]. With the instruction load,
    switch it returns, and the workdir, which the run made and filled, is
    gone. With the instruction switch, load it throws at the validation:
    the workdir is still a directory and holds the instruction file that
    the decompression wrote. *)
Lemma workdir_removed_on_success_only_witness :
  let installed :=
    Main.dummy2 Scenario.installing_host Scenario.instruction_dir
      ["srv"; "instruction.tar.xz"] Scenario.cache_dir [] Scenario.waiting in
  let refused :=
    Main.dummy2 Scenario.host Scenario.instruction_dir
      ["srv"; "instruction.tar.xz"] Scenario.cache_dir [] Scenario.waiting in
  installed.1 = Ok tt
  ∧ take 3 (log installed.2)
    = [EvMkdir Scenario.instruction_dir; EvConsole "Decompressing instruction";
       EvDecompress Scenario.instruction_dir ["srv"; "instruction.tar.xz"]]
  ∧ gone Scenario.instruction_dir installed.2
  ∧ refused.1 = Throw (InvalidInstruction "switch must be last")
  ∧ Scenario.instruction_dir ∈ dirs refused.2
  ∧ is_Some (files refused.2 !! (Scenario.instruction_dir ++ ["instruction.json"])).
Proof.
  intros installed refused.
  assert (installed.1 = Ok tt) as Hok by (vm_compute; reflexivity).
  assert (refused.1 = Throw (InvalidInstruction "switch must be last")) as Hthrow
    by (vm_compute; reflexivity).
  pose proof (workdir_removed_on_success_only Scenario.installing_host
                Scenario.instruction_dir ["srv"; "instruction.tar.xz"]
                Scenario.cache_dir [] Scenario.waiting) as Hgone.
  pose proof (workdir_removed_on_success_only Scenario.host
                Scenario.instruction_dir ["srv"; "instruction.tar.xz"]
                Scenario.cache_dir [] Scenario.waiting) as Hkept.
  cbv zeta in Hgone, Hkept. fold installed in Hgone. fold refused in Hkept.
  rewrite Hok in Hgone. rewrite Hthrow in Hkept.
  destruct Hkept as [_ [Hstopped|[Hdir Hfiles]]].
  { apply (f_equal length) in Hstopped. vm_compute in Hstopped. discriminate Hstopped. }
  split_and!; [done|vm_compute; reflexivity|done|done|done|].
  apply (Hfiles ["instruction.json"] Scenario.instruction_text). left.
Defined.

(** The handler on the target of [Scenario]: with the instruction load,
    switch it runs to its end; with the instruction switch, load it stops
    at the validation. *)
Example dummy2_on_scenario :
  (Main.dummy2 Scenario.installing_host Scenario.instruction_dir ["srv"; "instruction.tar.xz"]
     Scenario.cache_dir [] Scenario.waiting).1 = Ok tt
  ∧ (Main.dummy2 Scenario.host Scenario.instruction_dir ["srv"; "instruction.tar.xz"]
       Scenario.cache_dir [] Scenario.waiting).1
    = Throw (InvalidInstruction "switch must be last").
Proof. split; vm_compute; reflexivity. Qed.

End MainFacts.

(** * [nixFlake.ts]: every run of [buildSystemFlake] *)

Module NixFlakeRuns.
Import NixFlake.

Lemma flakeBuildCommandResult_inv j drvPath out :
  flakeBuildCommandResult j = Some (drvPath, out) →
  ∃ props outputs,
    j = JArr [JObj props]
    ∧ assoc "drvPath" props = Some (JStr drvPath)
    ∧ assoc "outputs" props = Some (JObj outputs)
    ∧ assoc "out" outputs = Some (JStr out).
Proof.
  unfold flakeBuildCommandResult. intros Hparse.
  repeat case_match; simplify_eq. eauto 10.
Qed.

Lemma flakeBuildCommandResult_length items :
  is_Some (flakeBuildCommandResult (JArr items)) → length items = 1.
Proof.
  intros [[drvPath out] Hparse].
  apply flakeBuildCommandResult_inv in Hparse as (props & outputs & [= ->] & _). done.
Qed.

Section WithHost.
Context (host : Host).

(** The three states a run goes through. *)
Lemma buildSystemFlake_inv args w r w' :
  buildSystemFlake host args w = (r, w') →
  let uri := flakeGitUri args in
  let info := info_command uri (ref args) in
  let w1 := with_log (log w ++ [EvExec info]) w in
  (∃ e, getRevisionFromRef host uri (ref args) w = (Throw e, w1)
        ∧ r = Throw e ∧ w' = w1)
  ∨ ∃ gitRev,
      getRevisionFromRef host uri (ref args) w = (Ok gitRev, w1) ∧
      let show := show_command uri gitRev in
      let build := build_command (storeAbsolutePath args) uri gitRev (hostname args) in
      let w2 := with_log (log w ++ [EvExec info; EvExec show]) w in
      let w3 := with_log (log w ++ [EvExec info; EvExec show; EvExec build]) w in
      (∃ e, getFlakeHostnames host uri gitRev w1 = (Throw e, w2)
            ∧ r = Throw e ∧ w' = w2)
      ∨ ∃ hostnames,
          getFlakeHostnames host uri gitRev w1 = (Ok hostnames, w2) ∧
          (((hostname args ∉ hostnames)
            ∧ r = Throw (Error (unknown_hostname_message (hostname args) hostnames))
            ∧ w' = w2)
           ∨ ((hostname args ∈ hostnames) ∧ w' = w3 ∧
              let result := exec_result host w2 build in
              r = if failed result then Throw (Error (stderr result))
                  else match JSON_parse host (stdout result) with
                       | Some j =>
                           match flakeBuildCommandResult j with
                           | Some (drvPath, out) =>
                               Ok {| derivation := drvPath; output := out;
                                     gitRevision := gitRev |}
                           | None => Throw (ErrorBuildResult (stdout result))
                           end
                       | None => Throw (ErrorBuildResult (stdout result))
                       end)).
Proof.
  intros Hrun uri info w1. unfold buildSystemFlake in Hrun. fold uri in Hrun.
  destruct (getRevisionFromRef host uri (ref args) w) as [r1 w1'] eqn:H1.
  pose proof (NixFlakeFacts.getRevisionFromRef_log _ _ _ _ _ _ H1) as ->.
  fold info w1 in H1. destruct r1 as [gitRev|e].
  2:{ rewrite (bind_run_throw _ _ _ _ _ H1) in Hrun. injection Hrun as <- <-.
      left. eauto. }
  rewrite (bind_run _ _ _ _ _ H1) in Hrun. right. exists gitRev. split; [done|].
  intros show build w2 w3.
  destruct (getFlakeHostnames host uri gitRev w1) as [r2 w2'] eqn:H2.
  pose proof (NixFlakeFacts.getFlakeHostnames_log _ _ _ _ _ _ H2) as Hw2.
  assert (w2' = w2) as ->.
  { rewrite Hw2. unfold w2, w1, with_log. simpl. by rewrite <- app_assoc. }
  destruct r2 as [hostnames|e].
  2:{ rewrite (bind_run_throw _ _ _ _ _ H2) in Hrun. injection Hrun as <- <-.
      left. eauto. }
  rewrite (bind_run _ _ _ _ _ H2) in Hrun. right. exists hostnames. split; [done|].
  destruct (bool_decide (hostname args ∈ hostnames)) eqn:Hin; simpl in Hrun.
  - apply bool_decide_eq_true in Hin. right. split; [done|].
    unfold bind, execaCommand in Hrun. fold build in Hrun. cbv beta iota in Hrun.
    assert (with_log (log w2 ++ [EvExec build]) w2 = w3) as Hw3.
    { unfold w3, w2, with_log. simpl. by rewrite <- app_assoc. }
    rewrite Hw3 in Hrun. unfold throw, ret in Hrun. cbv zeta.
    destruct (failed (exec_result host w2 build)); [by injection Hrun as <- <-|].
    destruct (JSON_parse host (stdout (exec_result host w2 build))) as [j|];
      [|by injection Hrun as <- <-].
    destruct (flakeBuildCommandResult j) as [[drvPath out]|];
      by injection Hrun as <- <-.
  - apply bool_decide_eq_false in Hin. left. by injection Hrun as <- <-.
Qed.

(** X1. In every run, whether it returns or throws, [buildSystemFlake]
    changes nothing but the log, to which it adds the commands it ran:
    [nix flake info], then [nix flake show] at the revision resolved, then
    [nix build] at that revision, or a beginning of this sequence. It
    builds at most once, and only a hostname that [getFlakeHostnames] has
    listed; when it returns, all three commands have run. *)
Theorem buildSystemFlake_runs (args : BuildFlakeArgs) (w : World) :
  let result := buildSystemFlake host args w in
  let uri := flakeGitUri args in
  let info := info_command uri (ref args) in
  ∃ commands gitRev,
    result.2 = with_log (log w ++ (EvExec <$> commands)) w
    ∧ commands `prefix_of`
        [info; show_command uri gitRev;
         build_command (storeAbsolutePath args) uri gitRev (hostname args)]
    ∧ commands ≠ []
    ∧ (length commands = 3 →
       ∃ w1 w2 hostnames,
         getRevisionFromRef host uri (ref args) w = (Ok gitRev, w1)
         ∧ getFlakeHostnames host uri gitRev w1 = (Ok hostnames, w2)
         ∧ hostname args ∈ hostnames)
    ∧ (∀ b, result.1 = Ok b → length commands = 3 ∧ gitRevision b = gitRev).
Proof.
  intros result uri info.
  destruct (buildSystemFlake host args w) as [r w'] eqn:Hrun. subst result. simpl.
  apply buildSystemFlake_inv in Hrun. fold uri info in Hrun. simpl in Hrun.
  destruct Hrun as [(e & _ & -> & ->)|(gitRev & H1 & Hrun)].
  { exists [info], None. split_and!; try done. by apply prefix_cons, prefix_nil. }
  destruct Hrun as [(e & _ & -> & ->)|(hostnames & H2 & Hrun)].
  { exists [info; show_command uri gitRev], gitRev. split_and!; try done.
    by apply prefix_cons, prefix_cons, prefix_nil. }
  destruct Hrun as [(Hnot & -> & ->)|(Hin & -> & ->)].
  { exists [info; show_command uri gitRev], gitRev. split_and!; try done.
    by apply prefix_cons, prefix_cons, prefix_nil. }
  exists [info; show_command uri gitRev;
          build_command (storeAbsolutePath args) uri gitRev (hostname args)], gitRev.
  split_and!; try done.
  - intros _. eauto 10.
  - intros b Hb. split; [done|]. repeat case_match; by simplify_eq.
Qed.

(** X2. What [buildSystemFlake] returns is read from the output of
    [nix build]: the process did not fail, its output is JSON for an array
    of exactly one object, and [derivation] and [output] are the strings at
    [drvPath] and at [outputs.out] of that object. *)
Theorem buildSystemFlake_result (args : BuildFlakeArgs) (w : World)
    (b : FlakeBuildResult) (w' : World) :
  buildSystemFlake host args w = (Ok b, w') →
  let uri := flakeGitUri args in
  let build :=
    build_command (storeAbsolutePath args) uri (gitRevision b) (hostname args) in
  ∃ w2 props outputs,
    log w2 = log w ++ [EvExec (info_command uri (ref args));
                       EvExec (show_command uri (gitRevision b))]
    ∧ log w' = log w2 ++ [EvExec build]
    ∧ failed (exec_result host w2 build) = false
    ∧ JSON_parse host (stdout (exec_result host w2 build)) = Some (JArr [JObj props])
    ∧ assoc "drvPath" props = Some (JStr (derivation b))
    ∧ assoc "outputs" props = Some (JObj outputs)
    ∧ assoc "out" outputs = Some (JStr (output b)).
Proof.
  intros Hrun uri. apply buildSystemFlake_inv in Hrun. fold uri in Hrun. simpl in Hrun.
  destruct Hrun as [(e & _ & [=] & _)|(gitRev & H1 & Hrun)].
  destruct Hrun as [(e & _ & [=] & _)|(hostnames & H2 & Hrun)].
  destruct Hrun as [(_ & [=] & _)|(Hin & -> & Hr)].
  set (w2 := with_log (log w ++ [EvExec (info_command uri (ref args));
                                 EvExec (show_command uri gitRev)]) w) in *.
  destruct (failed (exec_result host w2 _)) eqn:Hfailed; [done|].
  destruct (JSON_parse host _) as [j|] eqn:Hparse; [|done].
  destruct (flakeBuildCommandResult j) as [[drvPath out]|] eqn:Hshape; [|done].
  injection Hr as ->. simpl.
  apply flakeBuildCommandResult_inv in Hshape as (props & outputs & -> & ? & ? & ?).
  exists w2, props, outputs. split_and!; try done.
  simpl. by rewrite <- app_assoc.
Qed.

Lemma append_empty (s : string) : s +:+ "" = s.
Proof.
  induction s as [|c s IH]; [done|].
  change (String c (s +:+ "") = String c s). by rewrite IH.
Qed.

(** X3. When the output of [nix flake info] is a JSON object without a
    [revision] (as for a flake with uncommitted changes), the resolution
    of the revision does not fail: [buildSystemFlake] goes on to run
    [nix flake show] on the flake without a revision, and the build it
    then asks for is that of the revision [undefined]. *)
Theorem build_without_revision (args : BuildFlakeArgs) (w : World)
    (props : list (string * Json)) :
  let uri := flakeGitUri args in
  let info := info_command uri (ref args) in
  failed (exec_result host w info) = false →
  JSON_parse host (stdout (exec_result host w info)) = Some (JObj props) →
  assoc "revision" props = None →
  ∃ commands,
    (buildSystemFlake host args w).2 = with_log (log w ++ (EvExec <$> commands)) w
    ∧ [info; "nix flake show --json " +:+ uri] `prefix_of` commands
    ∧ commands `prefix_of`
        [info; "nix flake show --json " +:+ uri;
         "nix build --json --no-link --store " +:+ storeAbsolutePath args +:+ " "
           +:+ uri +:+ "?rev=undefined#nixosConfigurations." +:+ hostname args
           +:+ ".config.system.build.toplevel"].
Proof.
  intros uri info Hfailed Hparse Hrevision.
  assert (getRevisionFromRef host uri (ref args) w
          = (Ok None, with_log (log w ++ [EvExec info]) w)) as Hresolved.
  { unfold getRevisionFromRef, bind, execaCommand. fold info.
    rewrite Hfailed, Hparse. simpl. by rewrite Hrevision. }
  assert (show_command uri None = "nix flake show --json " +:+ uri) as Hshow.
  { unfold show_command, js_truthy. cbv beta iota zeta. by rewrite append_empty. }
  destruct (buildSystemFlake host args w) as [r w'] eqn:Hrun.
  apply buildSystemFlake_inv in Hrun. fold uri info in Hrun. simpl in Hrun.
  destruct Hrun as [(e & He & _)|(gitRev & H1 & Hrun)]; [congruence|].
  assert (gitRev = None) as -> by congruence.
  rewrite Hshow in Hrun.
  destruct Hrun as [(e & _ & -> & ->)|(hostnames & H2 & Hrun)].
  { eexists [_; _]. simpl. split_and!; try done.
    by apply prefix_cons, prefix_cons, prefix_nil. }
  destruct Hrun as [(Hnot & -> & ->)|(Hin & -> & _)]; simpl.
  - eexists [_; _]. simpl. split_and!; try done.
    by apply prefix_cons, prefix_cons, prefix_nil.
  - eexists [_; _; _]. simpl. split_and!; try done.
    by apply prefix_cons, prefix_cons, prefix_nil.
Qed.

(** X4. When [nix flake show] describes a flake without
    [nixosConfigurations], no hostname is known: [buildSystemFlake] throws
    the error of the unknown hostname, with an empty list of available
    hostnames, whatever hostname is asked for. *)
Theorem no_configurations_no_hostname (args : BuildFlakeArgs) (w : World)
    (gitRev : JsValue) (w1 : World) (props : list (string * Json)) :
  let uri := flakeGitUri args in
  let show := show_command uri gitRev in
  getRevisionFromRef host uri (ref args) w = (Ok gitRev, w1) →
  failed (exec_result host w1 show) = false →
  JSON_parse host (stdout (exec_result host w1 show)) = Some (JObj props) →
  assoc "nixosConfigurations" props = None →
  (buildSystemFlake host args w).1
  = Throw (Error ("No flake configuration found for hostname: " +:+ hostname args
                    +:+ ". Available hostnames: ")).
Proof.
  intros uri show Hresolved Hfailed Hparse Hnone.
  unfold buildSystemFlake. fold uri. rewrite (bind_run _ _ _ _ _ Hresolved).
  assert (getFlakeHostnames host uri gitRev w1
          = (Ok [], with_log (log w1 ++ [EvExec show]) w1)) as Hhosts.
  { unfold getFlakeHostnames, getFlakeInfo, bind, execaCommand. fold show.
    rewrite Hfailed, Hparse. simpl. by rewrite Hnone. }
  rewrite (bind_run _ _ _ _ _ Hhosts). simpl.
  unfold unknown_hostname_message. simpl. done.
Qed.

(** X5. The output of [nix build] must be an array of exactly one
    element: when it is JSON for an array of any other length, the build
    has run and [buildSystemFlake] throws the error of the unreadable
    build result instead of returning an output. *)
Theorem build_output_must_be_single (args : BuildFlakeArgs) (w : World)
    (gitRev : JsValue) (w1 : World) (hostnames : list string) (w2 : World)
    (items : list Json) :
  let uri := flakeGitUri args in
  let build := build_command (storeAbsolutePath args) uri gitRev (hostname args) in
  getRevisionFromRef host uri (ref args) w = (Ok gitRev, w1) →
  getFlakeHostnames host uri gitRev w1 = (Ok hostnames, w2) →
  hostname args ∈ hostnames →
  failed (exec_result host w2 build) = false →
  JSON_parse host (stdout (exec_result host w2 build)) = Some (JArr items) →
  length items ≠ 1 →
  buildSystemFlake host args w
  = (Throw (ErrorBuildResult (stdout (exec_result host w2 build))),
     with_log (log w2 ++ [EvExec build]) w2).
Proof.
  intros uri build Hresolved Hhosts Hin Hfailed Hparse Hlength.
  unfold buildSystemFlake. fold uri.
  rewrite (bind_run _ _ _ _ _ Hresolved), (bind_run _ _ _ _ _ Hhosts).
  rewrite bool_decide_eq_true_2 by done. simpl.
  unfold bind, execaCommand. fold build. rewrite Hfailed, Hparse.
  destruct (flakeBuildCommandResult (JArr items)) as [[drvPath out]|] eqn:Hshape;
    [|done].
  exfalso. apply Hlength, flakeBuildCommandResult_length. by rewrite Hshape.
Qed.

End WithHost.

(** A flake with uncommitted changes that declares [testvm]: all three
    commands run, the last one for the revision [undefined]. *)
Lemma build_without_revision_witness :
  NixFlake.executed (log (buildSystemFlake Scenario2.dirty Scenario2.args Scenario.fresh).2)
  = ["nix flake info --json git+file:///srv/flake";
     "nix flake show --json git+file:///srv/flake";
     "nix build --json --no-link --store /work/store git+file:///srv/flake?rev=undefined#nixosConfigurations.testvm.config.system.build.toplevel"]
  ∧ (buildSystemFlake Scenario2.dirty Scenario2.args Scenario.fresh).1
    = Ok {| derivation := "/nix/store/aaaa.drv"; output := Scenario.outA;
            gitRevision := None |}.
Proof.
  pose proof (build_without_revision Scenario2.dirty Scenario2.args Scenario.fresh
                [("dirtyRevision", JStr "bb60c1f-dirty")]) as Hrun.
  destruct Hrun as (commands & _); [by vm_compute..|].
  split; vm_compute; reflexivity.
Defined.

(** A flake without system configurations. *)
Lemma no_configurations_no_hostname_witness :
  (buildSystemFlake Scenario2.bare Scenario2.args Scenario.fresh).1
  = Throw (Error "No flake configuration found for hostname: testvm. Available hostnames: ").
Proof.
  apply (no_configurations_no_hostname Scenario2.bare Scenario2.args Scenario.fresh
           (Some (JStr Scenario.revA))
           (with_log [EvExec (info_command Scenario.flake None)] Scenario.fresh)
           [("packages", JObj [])]); by vm_compute.
Defined.

(** A build that prints an empty array. *)
Lemma build_output_must_be_single_witness :
  (buildSystemFlake Scenario2.silent Scenario2.args Scenario.fresh).1
  = Throw (ErrorBuildResult "empty-build.json").
Proof.
  set (w1 := with_log [EvExec (info_command Scenario.flake None)] Scenario.fresh).
  set (w2 := with_log [EvExec (info_command Scenario.flake None);
                       EvExec (show_command Scenario.flake (Some (JStr Scenario.revA)))]
               Scenario.fresh).
  rewrite (build_output_must_be_single Scenario2.silent Scenario2.args Scenario.fresh
             (Some (JStr Scenario.revA)) w1 ["testvm"] w2 []);
    [by vm_compute|by vm_compute|by vm_compute|decide_now|by vm_compute|by vm_compute|done].
Defined.

(** The build of [Scenario] at the revision checked out. *)
Lemma buildSystemFlake_result_witness :
  ∃ b w',
    buildSystemFlake Scenario.host
      {| flakeGitUri := Scenario.flake; hostname := "testvm";
         storeAbsolutePath := Scenario.build_store; ref := None; rev := None |}
      Scenario.fresh = (Ok b, w')
    ∧ output b = Scenario.outA
    ∧ derivation b = "/nix/store/aaaa.drv"
    ∧ gitRevision b = Some (JStr Scenario.revA).
Proof.
  set (args := {| flakeGitUri := Scenario.flake; hostname := "testvm";
                  storeAbsolutePath := Scenario.build_store; ref := None; rev := None |}).
  destruct (buildSystemFlake Scenario.host args Scenario.fresh) as [[b|e] w'] eqn:Hrun.
  2:{ apply (f_equal fst) in Hrun. vm_compute in Hrun. discriminate Hrun. }
  exists b, w'. split; [done|].
  pose proof (buildSystemFlake_result Scenario.host args Scenario.fresh b w' Hrun)
    as (w2 & props & outputs & _).
  apply (f_equal fst) in Hrun. vm_compute in Hrun. injection Hrun as <-. done.
Defined.

End NixFlakeRuns.

(** * [nixFlake.ts]: the revisions of a repository *)

Module GitRevisionsFacts.
Import GitRevisions.

Lemma append_cons c (s t : string) : String c s +:+ t = String c (s +:+ t).
Proof. reflexivity. Qed.

Lemma append_snoc (s : string) c (t : string) :
  (s +:+ String c EmptyString) +:+ t = s +:+ String c t.
Proof.
  induction s as [|c' s IH]; [done|]. rewrite !append_cons. by rewrite IH.
Qed.

Lemma split_from_nonempty sep cur s : split_from sep cur s ≠ [].
Proof.
  revert cur. induction s as [|c s IH]; intros cur; simpl; [done|].
  case_decide; [done|apply IH].
Qed.

Lemma join_with_cons sep x (l : list string) :
  l ≠ [] → join_with sep (x :: l) = x +:+ sep +:+ join_with sep l.
Proof. by destruct l. Qed.

Lemma join_split_from sep cur s :
  join_with (String sep EmptyString) (split_from sep cur s) = cur +:+ s.
Proof.
  revert cur. induction s as [|c s IH]; intros cur; simpl.
  - by rewrite NixFlakeRuns.append_empty.
  - case_decide as Hc.
    + rewrite join_with_cons by apply split_from_nonempty.
      rewrite IH. subst c. done.
    + rewrite IH. apply append_snoc.
Qed.

Lemma length_split_from sep cur s :
  length (split_from sep cur s)
  = S (length (filter (fun c => c = sep) (String.list_ascii_of_string s))).
Proof.
  revert cur. induction s as [|c s IH]; intros cur; simpl; [done|].
  case_decide as Hc.
  - rewrite filter_cons_True by done. simpl. by rewrite IH.
  - rewrite filter_cons_False by done. apply IH.
Qed.

Section WithHost.
Context (host : Host).

(** X6. When [getGitRevisions] returns, the revisions are the lines of
    the output of [git log]: joined with newlines they give that output
    back, and there is one more of them than there are newlines in it, so
    there is always at least one, which is empty when the output is.
    Nothing but the log has changed. *)
Theorem getGitRevisions_lines (absolutePath : string) (w : World)
    (revisions : list string) (w' : World) :
  getGitRevisions host absolutePath w = (Ok revisions, w') →
  let out := stdout (exec_result host w (log_command absolutePath)) in
  join_with (String newline EmptyString) revisions = out
  ∧ length revisions
    = S (length (filter (fun c => c = newline) (String.list_ascii_of_string out)))
  ∧ (out = "" → revisions = [""])
  ∧ w' = with_log (log w ++ [EvExec (log_command absolutePath)]) w.
Proof.
  unfold getGitRevisions, bind, NixFlake.execaCommand.
  destruct (failed (exec_result host w (log_command absolutePath))); [done|].
  intros [= <- <-]. split_and!.
  - apply (join_split_from newline "").
  - apply length_split_from.
  - by intros ->.
  - done.
Qed.

(** When [git log] fails, its error output is thrown. *)
Lemma getGitRevisions_failure (absolutePath : string) (w : World) :
  failed (exec_result host w (log_command absolutePath)) = true →
  (getGitRevisions host absolutePath w).1
  = Throw (Error (stderr (exec_result host w (log_command absolutePath)))).
Proof. unfold getGitRevisions, bind, NixFlake.execaCommand. by intros ->. Qed.

End WithHost.

(** The history of a repository with two commits. *)
Lemma getGitRevisions_lines_witness :
  join_with (String newline EmptyString) [Scenario.revB; Scenario.revA]
  = stdout (exec_result Scenario2.repository Scenario.fresh (log_command "/srv/flake")).
Proof.
  apply (getGitRevisions_lines Scenario2.repository "/srv/flake" Scenario.fresh
           [Scenario.revB; Scenario.revA]
           (with_log [EvExec (log_command "/srv/flake")] Scenario.fresh)).
  by vm_compute.
Defined.

End GitRevisionsFacts.

(** * The commands as JSON: what is built is read back *)

Module CommandJsonFacts.
Import Instructions CommandJson.

Lemma parse_dependency r : parse_storeRoot (dependency_to_json r) = Some r.
Proof. by destruct r. Qed.

Lemma parse_item r : parse_storeRoot (item_to_json r) = Some r.
Proof. by destruct r. Qed.

Lemma parse_dependencies (l : list StoreRoot) :
  mapM parse_storeRoot (dependency_to_json <$> l) = Some l.
Proof.
  induction l as [|r l IH]; [done|]. rewrite fmap_cons. cbn [mapM].
  rewrite parse_dependency, IH. done.
Qed.

Lemma parse_mode_to_json m : parse_mode (Some (mode_to_json m)) = Some m.
Proof. by destruct m. Qed.

(** The keys of an object at hand are compared one by one. *)
Ltac settle_keys :=
  cbn [assoc];
  repeat first [rewrite decide_True by done | rewrite decide_False by done].

Lemma parse_load_to_json l :
  parse_command (load_to_json l) = Ok (Load l).
Proof.
  unfold load_to_json, parse_command, parse_load. settle_keys.
  rewrite parse_dependencies. cbn [mbind option_bind].
  rewrite parse_dependency. cbn [mbind option_bind]. by destruct l.
Qed.

Lemma parse_switch_to_json s :
  parse_command (switch_to_json s) = Ok (Switch s).
Proof.
  unfold switch_to_json, parse_command, parse_switch. settle_keys.
  rewrite parse_item. cbn [mbind option_bind].
  rewrite parse_mode_to_json. cbn [mbind option_bind]. by destruct s.
Qed.

(** X12. The object that a build function returns for a command is read
    back by the schema of the commands as the same command, whatever its
    fields hold, and so is a list of such objects, in its order. *)
Theorem command_round_trip :
  (∀ c, parse_command (command_to_json c) = Ok c)
  ∧ (∀ cs, parse_commands (command_to_json <$> cs) = Ok cs).
Proof.
  assert (∀ c, parse_command (command_to_json c) = Ok c) as Hone.
  { intros [l|s]; [apply parse_load_to_json|apply parse_switch_to_json]. }
  split; [done|].
  induction cs as [|c cs IH]; [done|].
  rewrite fmap_cons. cbn [parse_commands]. by rewrite Hone, IH.
Qed.

End CommandJsonFacts.

(** * Building the commands: revisions and builds *)

Module BuildCommandFacts.
Import LoadArchive.

Lemma with_log_app w a b :
  with_log (log (with_log (log w ++ a) w) ++ b) (with_log (log w ++ a) w)
  = with_log (log w ++ (a ++ b)) w.
Proof. unfold with_log. simpl. by rewrite app_assoc. Qed.

Lemma builds_app a b : builds (a ++ b) = builds a + builds b.
Proof.
  unfold builds, NixFlake.executed. by rewrite omap_app, filter_app, length_app.
Qed.

Lemma builds_flake uri ref gitRev store hostname :
  builds [EvExec (NixFlake.info_command uri ref);
          EvExec (NixFlake.show_command uri gitRev);
          EvExec (NixFlake.build_command store uri gitRev hostname)] = 1.
Proof.
  unfold builds.
  change (NixFlake.executed _)
    with [NixFlake.info_command uri ref; NixFlake.show_command uri gitRev;
          NixFlake.build_command store uri gitRev hostname].
  rewrite filter_cons_False
    by (rewrite NixFlakeFacts.info_command_not_build; done).
  rewrite filter_cons_False
    by (rewrite NixFlakeFacts.show_command_not_build; done).
  rewrite filter_cons_True by apply NixFlakeFacts.build_command_is_build.
  done.
Qed.

Section WithHost.
Context (host : Host).

(** A build that returns has run its three commands. *)
Lemma buildSystemFlake_ok_log args w b w' :
  NixFlake.buildSystemFlake host args w = (Ok b, w') →
  ∃ gitRev,
    w' = with_log
           (log w ++
              [EvExec (NixFlake.info_command (NixFlake.flakeGitUri args) (NixFlake.ref args));
               EvExec (NixFlake.show_command (NixFlake.flakeGitUri args) gitRev);
               EvExec (NixFlake.build_command (NixFlake.storeAbsolutePath args)
                         (NixFlake.flakeGitUri args) gitRev (NixFlake.hostname args))]) w.
Proof.
  intros Hrun. apply NixFlakeRuns.buildSystemFlake_inv in Hrun. simpl in Hrun.
  destruct Hrun as [(e & _ & [=] & _)|(gitRev & _ & Hrun)].
  destruct Hrun as [(e & _ & [=] & _)|(hostnames & _ & Hrun)].
  destruct Hrun as [(_ & [=] & _)|(_ & -> & _)]. eauto.
Qed.

Lemma build_step_flake uri store hostname gitRev :
  Forall (build_step uri store hostname)
    [EvExec (NixFlake.info_command uri None);
     EvExec (NixFlake.show_command uri gitRev);
     EvExec (NixFlake.build_command store uri gitRev hostname)].
Proof. repeat (apply Forall_cons; split; [right; exists gitRev; auto|]). done. Qed.

(** The loop over the revisions of the dependencies: one entry and one
    build for each, in their order. *)
Lemma build_revisions_ok uri hostname shared revs olds w result w' :
  build_revisions host uri hostname shared revs olds w = (Ok result, w') →
  ∃ built events,
    result = olds ++ built
    ∧ rev <$> built = revs
    ∧ w' = with_log (log w ++ events) w
    ∧ builds events = length revs
    ∧ Forall (build_step uri (workdirStorePath shared) hostname) events.
Proof.
  revert olds w. induction revs as [|r revs IH]; intros olds w; simpl.
  - intros [= <- <-]. exists [], []. rewrite app_nil_r.
    split_and!; try done. by rewrite with_log_id.
  - intros Hrun.
    apply bind_ok in Hrun as ([] & w1 & H1 & Hrun).
    apply bind_ok in Hrun as (b & w2 & H2 & Hrun).
    apply emit_inv in H1 as [_ ->].
    apply buildSystemFlake_ok_log in H2 as (gitRev & ->).
    apply IH in Hrun as (built & events & -> & Hrevs & -> & Hbuilds & Hsteps).
    rewrite !with_log_app.
    eexists (_ :: built), _. split_and!.
    + by rewrite <- app_assoc.
    + by rewrite fmap_cons, Hrevs.
    + reflexivity.
    + rewrite !builds_app, builds_flake, Hbuilds. done.
    + apply Forall_app. split; [apply Forall_singleton; left; eauto|].
      apply Forall_app. split; [|done]. apply build_step_flake.
Qed.

Lemma copyOutputToArchive_log store archive item w r w' :
  NixArchive.copyOutputToArchive host store archive item w = (r, w') →
  log w' = log w ++ [EvCopyOutputToArchive store archive item].
Proof. by intros (entries & ->)%copyOutputToArchive_inv. Qed.

Lemma getStoreDeltaPathsDelta_log store from to w r w' :
  NixStore.getStoreDeltaPathsDelta host store from to w = (r, w') →
  w' = with_log (log w ++ [EvPathInfo store]) w.
Proof.
  unfold NixStore.getStoreDeltaPathsDelta, bind, emit, ret, throw.
  destruct (store_db host _ store); by intros [= _ <-].
Qed.

Lemma build_step_exec uri store hostname c :
  build_step uri store hostname (EvExec c) →
  c = NixFlake.info_command uri None
  ∨ ∃ gitRev, c = NixFlake.show_command uri gitRev
              ∨ c = NixFlake.build_command store uri gitRev hostname.
Proof.
  intros [[message [=]]|(gitRev & [[= ->]|[[= ->]|[= ->]]])]; eauto.
Qed.

Lemma build_step_not_copy uri store hostname s a i :
  ¬ build_step uri store hostname (EvCopyOutputToArchive s a i).
Proof. by intros [[message [=]]|(gitRev & [[=]|[[=]|[=]]])]. Qed.

Lemma builds_other e : (∀ c, e ≠ EvExec c) → builds [e] = 0.
Proof. intros He. destruct e; try done. by destruct (He command). Qed.

(** X7. When [buildLoadArchiveDeltaCommand] returns a command, its
    dependencies bear the revisions of [deltaDependencyRevs], one for one
    and in their order, and its item bears [newRev]; [nix build] has run
    once for each of these revisions and once for the item; every command
    run is [nix flake info] on the flake with no ref, or [nix flake show]
    or [nix build] at a revision; and the one output copied to the archive
    of the working directory is that of the item. *)
Theorem load_build_revisions (args : BuildLoadArchiveDeltaCommandArgs)
    (shared : InstructionBuilderSharedArgs) (w : World) (command : Command) (w' : World) :
  buildLoadArchiveDeltaCommand host args shared w = (Ok command, w') →
  let uri := flakeGitUri args in
  let store := workdirStorePath shared in
  gitRevision <$> deltaDependencies command = deltaDependencyRevs args
  ∧ gitRevision (item command) = newRev args
  ∧ ∃ events,
      log w' = log w ++ events
      ∧ builds events = S (length (deltaDependencyRevs args))
      ∧ (∀ c, EvExec c ∈ events →
           c = NixFlake.info_command uri None
           ∨ ∃ gitRev, c = NixFlake.show_command uri gitRev
                       ∨ c = NixFlake.build_command store uri gitRev (hostname args))
      ∧ (∀ s a i, EvCopyOutputToArchive s a i ∈ events ↔
           s = store ∧ a = workdirArchivePath shared ∧ i = nixPath (item command)).
Proof.
  intros Hrun uri store. unfold buildLoadArchiveDeltaCommand in Hrun.
  apply bind_ok in Hrun as ([] & w1 & H1 & Hrun).
  apply bind_ok in Hrun as (olds & w2 & H2 & Hrun).
  apply bind_ok in Hrun as ([] & w3 & H3 & Hrun).
  apply bind_ok in Hrun as (new & w4 & H4 & Hrun).
  apply bind_ok in Hrun as ([] & w5 & H5 & Hrun).
  apply bind_ok in Hrun as ([] & w6 & H6 & Hrun).
  apply bind_ok in Hrun as ([] & w7 & H7 & Hrun).
  apply bind_ok in Hrun as (delta & w8 & H8 & Hrun).
  apply bind_ok in Hrun as ([] & w9 & H9 & Hrun).
  apply bind_ok in Hrun as ([] & w10 & H10 & Hrun).
  apply bind_ok in Hrun as ([] & w11 & H11 & Hrun).
  apply bind_ok in Hrun as ([] & w12 & H12 & Hrun).
  injection Hrun as <- <-.
  apply emit_inv in H1 as [_ ->].
  apply build_revisions_ok in H2 as (built & e2 & -> & Hrevs & -> & Hb2 & Hs2).
  apply emit_inv in H3 as [_ ->].
  apply buildSystemFlake_ok_log in H4 as (gitRev & ->).
  apply emit_inv in H5 as [_ ->].
  rewrite !with_log_app in H6.
  apply copyOutputToArchive_log in H6 as Hlog6.
  apply emit_inv in H7 as [_ ->].
  apply getStoreDeltaPathsDelta_log in H8 as ->.
  apply emit_inv in H9 as [_ ->].
  apply emit_inv in H10 as [_ ->].
  apply rm_recursive_inv in H11 as (Hlog11 & _).
  apply makeArchiveSubset_ok in H12 as (entries & _ & ->).
  rewrite !with_log_app in Hlog11.
  cbn [log with_log] in Hlog6, Hlog11. rewrite Hlog6 in Hlog11.
  cbn [NixFlake.flakeGitUri NixFlake.ref NixFlake.hostname NixFlake.storeAbsolutePath]
    in Hlog11.
  split_and!.
  - simpl. rewrite <- list_fmap_compose, <- Hrevs. by apply list_fmap_ext.
  - done.
  - eexists. split_and!.
    + cbn [log write_tree with_dirs with_files with_log]. rewrite Hlog11.
      rewrite <- !app_assoc. reflexivity.
    + rewrite !builds_app, Hb2, builds_flake, !builds_other by done. lia.
    + intros c Hc. rewrite Forall_forall in Hs2. rewrite !elem_of_app in Hc.
      destruct_or!;
        first [ by apply build_step_exec, Hs2
              | set_unfold in Hc; destruct_or?; simplify_eq; eauto ].
    + intros s a i. rewrite Forall_forall in Hs2. rewrite !elem_of_app. split.
      * intros Hc. destruct_or!;
          first [ by apply Hs2, build_step_not_copy in Hc
                | set_unfold in Hc; destruct_or?; by simplify_eq ].
      * intros (-> & -> & ->). do 5 right. left. apply list_elem_of_singleton. done.
Qed.

(** X11. When [buildStoreSwitchCommand] returns a command, its item
    bears the revision asked for and its mode is the mode asked for; one
    build has run, after one progress message, and the path of the item
    is the string at [outputs.out] of what that build printed. *)
Theorem switch_build_result (args : StoreSwitch.BuildStoreSwitchCommandArgs)
    (shared : InstructionBuilderSharedArgs) (w : World) (c : StoreSwitch.Command)
    (w' : World) :
  StoreSwitch.buildStoreSwitchCommand host args shared w = (Ok c, w') →
  let uri := StoreSwitch.flakeGitUri args in
  let store := workdirStorePath shared in
  gitRevision (StoreSwitch.item c) = StoreSwitch.rev args
  ∧ StoreSwitch.mode c = StoreSwitch.build_mode args
  ∧ ∃ gitRev wb j drvPath,
      let build := NixFlake.build_command store uri gitRev (StoreSwitch.hostname args) in
      w' = with_log
             (log w ++ [EvProgress "Building switch command";
                        EvExec (NixFlake.info_command uri None);
                        EvExec (NixFlake.show_command uri gitRev);
                        EvExec build]) w
      ∧ failed (exec_result host wb build) = false
      ∧ JSON_parse host (stdout (exec_result host wb build)) = Some j
      ∧ NixFlake.flakeBuildCommandResult j = Some (drvPath, nixPath (StoreSwitch.item c)).
Proof.
  intros Hrun uri store. unfold StoreSwitch.buildStoreSwitchCommand in Hrun.
  apply bind_ok in Hrun as ([] & w1 & H1 & Hrun).
  apply bind_ok in Hrun as (b & w2 & H2 & Hrun).
  injection Hrun as <- <-.
  apply emit_inv in H1 as [_ ->].
  apply NixFlakeRuns.buildSystemFlake_inv in H2. simpl in H2.
  destruct H2 as [(e & _ & [=] & _)|(gitRev & _ & H2)].
  destruct H2 as [(e & _ & [=] & _)|(hostnames & _ & H2)].
  destruct H2 as [(_ & [=] & _)|(_ & -> & Hb)].
  split_and!; [done..|].
  match type of Hb with context [exec_result host ?wb ?build] =>
    exists gitRev, wb;
    destruct (failed (exec_result host wb build)) eqn:Hfailed; [done|];
    destruct (JSON_parse host (stdout (exec_result host wb build))) as [j|] eqn:Hj;
      [|done];
    destruct (NixFlake.flakeBuildCommandResult j) as [[drvPath out]|] eqn:Hparse;
      [|done]
  end.
  injection Hb as ->. exists j, drvPath. simpl. split_and!; try done.
  unfold with_log. simpl. by rewrite <- app_assoc.
Qed.

End WithHost.

(** The incremental instruction of [Scenario]: from [revA] to [revB]. *)
Lemma load_build_revisions_witness :
  ∃ (command : Command) (w' : World),
    buildLoadArchiveDeltaCommand Scenario.host
      (Scenario.load_args [Scenario.revA] Scenario.revB) Scenario.build_shared
      Scenario.fresh = (Ok command, w')
    ∧ gitRevision <$> deltaDependencies command = [Scenario.revA]
    ∧ gitRevision (item command) = Scenario.revB.
Proof.
  destruct (buildLoadArchiveDeltaCommand Scenario.host
              (Scenario.load_args [Scenario.revA] Scenario.revB) Scenario.build_shared
              Scenario.fresh) as [[command|e] w'] eqn:Hrun.
  2:{ apply (f_equal fst) in Hrun. vm_compute in Hrun. discriminate Hrun. }
  destruct (load_build_revisions Scenario.host _ _ _ _ _ Hrun) as (Hdeps & Hitem & _).
  exists command, w'. split_and!; done.
Defined.

(** The switch command of [Scenario]. *)
Lemma switch_build_result_witness :
  ∃ (c : StoreSwitch.Command) (w' : World),
    StoreSwitch.buildStoreSwitchCommand Scenario.host
      {| StoreSwitch.flakeGitUri := Scenario.flake;
         StoreSwitch.hostname := "testvm";
         StoreSwitch.rev := Scenario.revB;
         StoreSwitch.build_mode := StoreSwitch.NextReboot |}
      Scenario.build_shared Scenario.fresh = (Ok c, w')
    ∧ gitRevision (StoreSwitch.item c) = Scenario.revB
    ∧ StoreSwitch.mode c = StoreSwitch.NextReboot.
Proof.
  destruct (StoreSwitch.buildStoreSwitchCommand Scenario.host
      {| StoreSwitch.flakeGitUri := Scenario.flake;
         StoreSwitch.hostname := "testvm";
         StoreSwitch.rev := Scenario.revB;
         StoreSwitch.build_mode := StoreSwitch.NextReboot |}
      Scenario.build_shared Scenario.fresh) as [[c|e] w'] eqn:Hrun.
  2:{ apply (f_equal fst) in Hrun. vm_compute in Hrun. discriminate Hrun. }
  destruct (switch_build_result Scenario.host _ _ _ _ _ Hrun) as (Hrev & Hmode & _).
  exists c, w'. split_and!; done.
Defined.

End BuildCommandFacts.

(** * Executing the load command: what it leaves alone, and the archive *)

Module LoadExecuteRuns.
Import LoadArchive.

(** A finished loop has found each of its files that is not an entry of
    [dir] where it started. *)
Lemma copy_into_sources dir l w w' :
  copy_into dir l w = (Ok tt, w') →
  ∀ f, f ∈ l → ¬ in_dir dir f → wf_world w → is_Some (files w !! f).
Proof.
  revert w. induction l as [|f l IH]; intros w Hrun g Hg Hout Hwf.
  { by apply elem_of_nil in Hg. }
  rewrite copy_into_cons in Hrun.
  destruct (copyFile f (path_join dir (basename f)) w) as [[[]|e] w1] eqn:Hcopy;
    [|done].
  apply copyFile_inv in Hcopy as (_ & _ & _ & _ & c & Hsrc & Hfiles).
  apply elem_of_cons in Hg as [->|Hg]; [eauto|].
  assert (plain_segment (basename f)) as Hplain by exact (Hwf f c Hsrc).
  rewrite (path_join_plain _ _ Hplain) in Hfiles.
  assert (wf_world w1) as Hwf1.
  { unfold wf_world. rewrite Hfiles. apply map_Forall_insert_2; [|done].
    by rewrite basename_snoc. }
  specialize (IH w1 Hrun g Hg Hout Hwf1). rewrite Hfiles in IH.
  rewrite lookup_insert_ne in IH; [done|].
  intros <-. by apply Hout, in_dir_snoc.
Qed.

Section WithHost.
Context (host : Host) (command : Command) (shared : InstructionExecutionSharedArgs).

Let A : Path := path_join (instructionFolderPath shared) (archivePath command).
Let C : Path := clientStateStorePath shared.
Let sp : option Path := store_argument (storePath shared).
Let lookup : Event := EvNarinfoLookup sp C (nixPath <$> deltaDependencies command).
Let import : Event := EvCopyArchiveToStore A (nixPath (item command)) sp.
Let copying : Event := EvConsole "Copying nix store items to the store".
Let updating : Event := EvConsole "Updating local config".

(** X9. In every execution of a load command, whatever its outcome: no
    directory is made or removed and the system profile is as it was; no
    file is removed, and a file that is an entry neither of the archive
    directory nor of the cache directory has the contents it had; the
    store is as it was, unless the store tool accepted the import, and
    then it is the store that the tool left. *)
Theorem load_execution_frame w r w' :
  wf_world w →
  executeLoadArchiveDeltaCommand host command shared w = (r, w') →
  dirs w' = dirs w
  ∧ system w' = system w
  ∧ (∀ p, is_Some (files w !! p) → is_Some (files w' !! p))
  ∧ (∀ p, ¬ in_dir A p → ¬ in_dir C p → files w' !! p = files w !! p)
  ∧ (store w' = store w
     ∨ ∃ wi valid,
         copyArchiveToStore_result host wi A (nixPath (item command)) sp = Ok valid
         ∧ store w' = valid).
Proof.
  intros Hwf [(Hdir & -> & ->)|[Hdir Hrun]]%LoadExecuteFacts.execute_inv.
  { split_and!; auto. }
  simpl in Hrun. fold A C sp lookup import copying updating in Hrun.
  set (wl := with_log (log w ++ [lookup]) w) in *.
  assert (wf_world wl) as Hwfl by done.
  destruct (narinfo_lookup host wl sp C _) as [deps|e].
  2:{ destruct Hrun as [-> ->]. split_and!; auto. }
  destruct Hrun as (r3 & w3 & H3 & Hrun).
  destruct (copy_into_inv A deps wl r3 w3 Hwfl H3)
    as (Hwf3 & _ & Hdirs3 & Hstore3 & Hsys3 & Hout3 & _ & Hmono3).
  destruct r3 as [[]|e].
  2:{ destruct Hrun as [-> ->]. split_and!; auto. }
  set (wi := with_log (log w3 ++ [copying; import]) w3) in *.
  destruct (copyArchiveToStore_result host wi A _ sp) as [valid|e] eqn:Himport.
  2:{ destruct Hrun as [-> ->]. split_and!; auto. }
  set (w4 := with_log (log wi ++ [updating]) (with_store valid wi)) in *.
  assert (wf_world w4) as Hwf4 by done.
  destruct (copy_into_inv C _ w4 r w' Hwf4 Hrun)
    as (_ & _ & Hdirs' & Hstore' & Hsys' & Hout' & _ & Hmono').
  split_and!.
  - etrans; [exact Hdirs'|exact Hdirs3].
  - etrans; [exact Hsys'|exact Hsys3].
  - intros p Hp. by apply Hmono', Hmono3.
  - intros p HA HC. etrans; [by apply Hout'|by apply Hout3].
  - right. exists wi, valid. split; [done|exact Hstore'].
Qed.

(** X10. After a load command has executed to its end on a target whose
    archive directory is not the cache directory, with [deps] the info
    files that the lookup of the dependencies gave, none of them an entry
    of the archive directory: the archive directory holds, under the name
    of each of these files, the contents that a file of [deps] of that name
    had before, and its entries of other names are what they were. *)
Theorem archive_receives_dependencies w w' :
  wf_world w →
  A ≠ C →
  executeLoadArchiveDeltaCommand host command shared w = (Ok tt, w') →
  ∃ deps : list Path,
    narinfo_lookup host (with_log (log w ++ [lookup]) w) sp C
      (nixPath <$> deltaDependencies command) = Ok deps
    ∧ ((∀ d, d ∈ deps → ¬ in_dir A d) →
       ∀ n,
         (n ∈ basename <$> deps →
          ∃ d, d ∈ deps ∧ basename d = n ∧ is_Some (files w !! d)
               ∧ files w' !! (A ++ [n]) = files w !! d)
         ∧ (n ∉ basename <$> deps → files w' !! (A ++ [n]) = files w !! (A ++ [n]))).
Proof.
  intros Hwf Hne [(_ & _ & [=])|[Hdir Hrun]]%LoadExecuteFacts.execute_inv.
  simpl in Hrun. fold A C sp lookup import copying updating in Hrun.
  set (wl := with_log (log w ++ [lookup]) w) in *.
  assert (wf_world wl) as Hwfl by done.
  destruct (narinfo_lookup host wl sp C _) as [deps|e]; [|by destruct Hrun].
  destruct Hrun as (r3 & w3 & H3 & Hrun). exists deps. split; [done|].
  destruct (copy_into_inv A deps wl r3 w3 Hwfl H3)
    as (Hwf3 & _ & _ & _ & _ & _ & Hnames3 & _).
  destruct r3 as [[]|e]; [|by destruct Hrun].
  set (wi := with_log (log w3 ++ [copying; import]) w3) in *.
  destruct (copyArchiveToStore_result host wi A _ sp) as [valid|e]; [|by destruct Hrun].
  set (w4 := with_log (log wi ++ [updating]) (with_store valid wi)) in *.
  assert (wf_world w4) as Hwf4 by done.
  destruct (copy_into_inv C _ w4 (Ok tt) w' Hwf4 Hrun)
    as (_ & _ & _ & _ & _ & Hout' & _ & _).
  assert (∀ n, files w' !! (A ++ [n]) = files w3 !! (A ++ [n])) as Harchive.
  { intros n. rewrite Hout'; [done|]. intros Hin%in_dir_snoc. by apply Hne. }
  intros Hdeps n. split.
  - intros Hn.
    destruct (copy_into_last A deps wl w3 Hwfl H3 Hdeps n Hn)
      as (d & Hd & Hname & Hsome & Hcopy).
    exists d. rewrite Harchive. split_and!; done.
  - intros Hn. rewrite Harchive. by apply Hnames3.
Qed.

(** X14. When the lookup of the dependencies names an info file that is
    not there and is not an entry of the archive directory, the execution
    of the load command throws before the import: the store tool is not
    called, the store is as it was, and so is every file that is not an
    entry of the archive directory. *)
Theorem missing_dependency_stops_before_import w deps d :
  wf_world w →
  narinfo_lookup host (with_log (log w ++ [lookup]) w) sp C
    (nixPath <$> deltaDependencies command) = Ok deps →
  d ∈ deps →
  files w !! d = None →
  ¬ in_dir A d →
  let result := executeLoadArchiveDeltaCommand host command shared w in
  (∃ e, result.1 = Throw e)
  ∧ store result.2 = store w
  ∧ (∀ p, ¬ in_dir A p → files result.2 !! p = files w !! p)
  ∧ ∃ trace, log result.2 = log w ++ trace
             ∧ ∀ a i s, EvCopyArchiveToStore a i s ∉ trace.
Proof.
  intros Hwf Hlookup Hd Hnone Hout result.
  destruct (executeLoadArchiveDeltaCommand host command shared w) as [r w'] eqn:Hrun.
  subst result. simpl.
  apply LoadExecuteFacts.execute_inv in Hrun as [(Hdir & -> & ->)|[Hdir Hrun]].
  { split_and!; eauto. exists []. rewrite app_nil_r. split; [done|].
    intros a i s. apply not_elem_of_nil. }
  simpl in Hrun. fold A C sp lookup import copying updating in Hrun.
  set (wl := with_log (log w ++ [lookup]) w) in *.
  assert (wf_world wl) as Hwfl by done.
  rewrite Hlookup in Hrun. destruct Hrun as (r3 & w3 & H3 & Hrun).
  destruct r3 as [[]|e].
  { destruct (copy_into_sources A deps wl w3 H3 d Hd Hout Hwfl) as [c Hc].
    simpl in Hc. congruence. }
  destruct Hrun as [-> ->].
  destruct (copy_into_inv A deps wl (Throw e) w3 Hwfl H3)
    as (_ & (k & Hlog3 & _) & _ & Hstore3 & _ & Hout3 & _).
  split_and!; eauto.
  exists ([lookup] ++ (copy_event A <$> take k deps)). split.
  - rewrite Hlog3. simpl. by rewrite <- app_assoc.
  - intros a i s [Hin|Hin]%elem_of_app.
    + by apply list_elem_of_singleton in Hin.
    + by apply list_elem_of_fmap in Hin as (f & [=] & _).
Qed.

End WithHost.

(** The load command of [Scenario] on its target: the archive gains the
    info file of [glibc] from the cache, and keeps that of [hello]. *)
Lemma archive_receives_dependencies_witness :
  ∃ w',
    executeLoadArchiveDeltaCommand Scenario.host Scenario.load_command
      Scenario.execute_shared Scenario.target = (Ok tt, w')
    ∧ files w' !! (Scenario.archive_dir ++ ["cccc.narinfo"]) = Some "glibc"
    ∧ files w' !! (Scenario.archive_dir ++ ["dddd.narinfo"]) = Some "hello".
Proof.
  destruct (executeLoadArchiveDeltaCommand Scenario.host Scenario.load_command
              Scenario.execute_shared Scenario.target) as [r w'] eqn:Hrun.
  assert (r = Ok tt) as ->.
  { apply (f_equal fst) in Hrun. vm_compute in Hrun. by subst r. }
  exists w'. split; [done|].
  destruct (archive_receives_dependencies Scenario.host Scenario.load_command
              Scenario.execute_shared Scenario.target w')
    as (deps & Hdeps & Harchive); [unfold wf_world; decide_now|decide_now|done|].
  injection Hdeps as <-.
  assert (∀ d, d ∈ [Scenario.cache_dir ++ ["cccc.narinfo"]] →
               ¬ in_dir (path_join (instructionFolderPath Scenario.execute_shared)
                           (archivePath Scenario.load_command)) d) as Hout.
  { intros d ->%list_elem_of_singleton. decide_now. }
  split.
  - destruct (Harchive Hout "cccc.narinfo") as [Hin _].
    destruct Hin as (d & ->%list_elem_of_singleton & _ & _ & Heq); [decide_now|].
    etrans; [exact Heq|by vm_compute].
  - destruct (Harchive Hout "dddd.narinfo") as [_ Hother].
    etrans; [apply Hother; decide_now|by vm_compute].
Defined.

(** The same execution leaves the instruction file alone. *)
Lemma load_execution_frame_witness :
  files (executeLoadArchiveDeltaCommand Scenario.host Scenario.load_command
           Scenario.execute_shared Scenario.target).2
    !! (Scenario.instruction_dir ++ ["instruction.json"])
  = files Scenario.target !! (Scenario.instruction_dir ++ ["instruction.json"]).
Proof.
  destruct (executeLoadArchiveDeltaCommand Scenario.host Scenario.load_command
              Scenario.execute_shared Scenario.target) as [r w'] eqn:Hrun.
  destruct (load_execution_frame Scenario.host Scenario.load_command
              Scenario.execute_shared Scenario.target r w')
    as (_ & _ & _ & Hframe & _); [unfold wf_world; decide_now|done|].
  apply Hframe; decide_now.
Defined.

(** The target whose cache has lost the info file of [glibc]: the load
    command throws and the store is as it was. *)
Lemma missing_dependency_stops_before_import_witness :
  (∃ e, (executeLoadArchiveDeltaCommand Scenario.host Scenario.load_command
           Scenario.execute_shared Scenario2.forgetful).1 = Throw e)
  ∧ store (executeLoadArchiveDeltaCommand Scenario.host Scenario.load_command
             Scenario.execute_shared Scenario2.forgetful).2
    = store Scenario2.forgetful.
Proof.
  destruct (missing_dependency_stops_before_import Scenario.host Scenario.load_command
              Scenario.execute_shared Scenario2.forgetful
              [Scenario.cache_dir ++ ["cccc.narinfo"]]
              (Scenario.cache_dir ++ ["cccc.narinfo"]))
    as (Hthrow & Hstore & _).
  - unfold wf_world. decide_now.
  - done.
  - apply list_elem_of_singleton. done.
  - by vm_compute.
  - decide_now.
  - split; [exact Hthrow|exact Hstore].
Defined.

End LoadExecuteRuns.

(** * [main.ts]: what the handler of [dummy2] changes, and in which order *)

Module MainRuns.

(** ** Computations that leave a component of the state alone *)

Section Preserving.
Context {B : Type} (f : World → B).
Context (Hlog : ∀ l w, f (with_log l w) = f w).
Context (Hdirs : ∀ d w, f (with_dirs d w) = f w).
Context (Hfiles : ∀ x w, f (with_files x w) = f w).

Lemma preserving_ret {A} (a : A) : preserving f (ret a).
Proof. by intros w r w' [= <- <-]. Qed.

Lemma preserving_throw {A} e : preserving f (throw e : M A).
Proof. by intros w r w' [= <- <-]. Qed.

Lemma preserving_answer {A} (g : World → Outcome A) : preserving f (fun w => (g w, w)).
Proof. by intros w r w' [= <- <-]. Qed.

Lemma preserving_emit e : preserving f (emit e).
Proof using Hlog. intros w r w' [= <- <-]. apply Hlog. Qed.

Lemma preserving_bind {A A'} (m : M A) (k : A → M A') :
  preserving f m → (∀ a, preserving f (k a)) → preserving f (bind m k).
Proof.
  intros Hm Hk w r w'. unfold bind. destruct (m w) as [[a|e] w1] eqn:Hrun.
  - intros Hrest. rewrite (Hk _ _ _ _ Hrest). by eapply Hm.
  - intros [= <- <-]. by eapply Hm.
Qed.

Lemma preserving_for_each {A} (l : list A) (body : A → M unit) :
  (∀ x, preserving f (body x)) → preserving f (for_each l body).
Proof.
  intros Hbody. induction l as [|x l IH]; simpl.
  - apply preserving_ret.
  - apply preserving_bind; [apply Hbody|by intros _].
Qed.

Lemma preserving_copyFile src dst : preserving f (copyFile src dst).
Proof using Hlog Hfiles.
  intros w r w'. unfold copyFile, bind, emit.
  repeat case_match; intros [= <- <-]; by rewrite ?Hfiles, Hlog.
Qed.

Lemma preserving_mkdir dir : preserving f (mkdir_recursive dir).
Proof using Hlog Hdirs.
  intros w r w'. unfold mkdir_recursive, bind, emit.
  repeat case_match; intros [= <- <-]; by rewrite ?Hdirs, Hlog.
Qed.

Lemma preserving_rm force target : preserving f (rm_recursive force target).
Proof using Hlog Hdirs Hfiles.
  intros w r w'. unfold rm_recursive, bind, emit.
  repeat case_match; intros [= <- <-]; by rewrite ?Hdirs, ?Hfiles, Hlog.
Qed.

Lemma preserving_listing dir : preserving f (Files.getAbsoluteFilesListInDir dir).
Proof.
  intros w r w'. unfold Files.getAbsoluteFilesListInDir.
  by case_decide; intros [= <- <-].
Qed.

Section WithHost.
Context (host : Host).

Lemma preserving_decompress dest instr :
  preserving f (Instructions.decompressInstructionDir host dest instr).
Proof using Hlog Hdirs Hfiles.
  intros w r w' ->%MainFacts.decompress_inv.
  unfold write_tree. by rewrite Hdirs, Hfiles, Hlog.
Qed.

Lemma preserving_assert dir :
  preserving f (Instructions.assertInstructionDirValid host dir).
Proof.
  intros w r w'. unfold Instructions.assertInstructionDirValid.
  by repeat case_match; intros [= <- <-].
Qed.

End WithHost.
End Preserving.

Ltac preserving_step :=
  first
    [ apply preserving_ret
    | apply preserving_throw
    | apply preserving_answer
    | apply preserving_emit; done
    | apply preserving_copyFile; done
    | apply preserving_mkdir; done
    | apply preserving_rm; done
    | apply preserving_listing
    | apply preserving_decompress; done
    | apply preserving_assert
    | apply preserving_for_each; intros ?
    | apply preserving_bind; [|intros ?]
    | case_match ].

(** The store after [m] and then [k] is the store before, or else the
    run of [k] has [Q]. *)
Lemma store_bind {A B} (m : M A) (k : A → M B) (Q : World → Prop) w :
  preserving store m →
  (∀ a w1, m w = (Ok a, w1) → store (k a w1).2 = store w1 ∨ Q (k a w1).2) →
  store (bind m k w).2 = store w ∨ Q (bind m k w).2.
Proof.
  intros Hm Hk. unfold bind. destruct (m w) as [[a|e] w1] eqn:Hrun.
  - rewrite <- (Hm _ _ _ Hrun). by apply Hk.
  - left. by eapply Hm.
Qed.

Lemma for_each_console (l : list Path) w :
  for_each l (fun p => console_log (render p)) w
  = (Ok tt, with_log (log w ++ ((fun p => EvConsole (render p)) <$> l)) w).
Proof.
  revert w. induction l as [|p l IH]; intros w; simpl.
  - unfold ret. by rewrite with_log_id.
  - unfold bind, console_log, emit. rewrite IH. f_equal.
    unfold with_log. simpl. by rewrite <- app_assoc.
Qed.

Section WithHost.
Context (host : Host).

Lemma import_system archive item sp :
  preserving system (NixArchive.copyArchiveToStore host archive item sp).
Proof.
  intros w r w'. unfold NixArchive.copyArchiveToStore, bind, emit.
  by repeat case_match; intros [= <- <-].
Qed.

(** The import and what follows it, when that leaves the store alone. *)
Lemma import_then {B} archive item sp (k : unit → M B) w :
  (∀ u, preserving store (k u)) →
  let result := bind (NixArchive.copyArchiveToStore host archive item sp) k w in
  store result.2 = store w
  ∨ ∃ wi valid,
      copyArchiveToStore_result host wi archive item sp = Ok valid
      ∧ store result.2 = valid.
Proof.
  intros Hk. simpl. unfold NixArchive.copyArchiveToStore, bind, emit.
  destruct (copyArchiveToStore_result host _ archive item sp) as [valid|e] eqn:Himport.
  - right. eexists _, valid. split; [exact Himport|].
    match goal with
    | |- store (k tt ?w1).2 = _ => destruct (k tt w1) as [r w'] eqn:Hrest
    end.
    by apply Hk in Hrest.
  - by left.
Qed.

Lemma dummy2_system workdirPath instructionPath clientStateStorePath storePath :
  preserving system
    (Main.dummy2 host workdirPath instructionPath clientStateStorePath storePath).
Proof.
  unfold Main.dummy2, console_log, Instructions.readDirInstruction,
    ClientStore.getNarinfoFileListForNixPaths, ClientStore.copyNarinfoFilesToCache.
  repeat first [ apply import_system | preserving_step ].
Qed.

Lemma readDirInstruction_inv dir w r w' :
  Instructions.readDirInstruction host dir w = (r, w') →
  w' = with_log (log w ++ [EvReadDirInstruction dir]) w
  ∧ r = readDirInstruction_result host w' dir.
Proof. unfold Instructions.readDirInstruction, bind, emit. by intros [= <- <-]. Qed.

Lemma assertInstructionDirValid_inv dir w r w' :
  Instructions.assertInstructionDirValid host dir w = (r, w') → w' = w.
Proof.
  unfold Instructions.assertInstructionDirValid.
  by repeat case_match; intros [= <- <-].
Qed.

Lemma lookup_inv sp cache nixPaths w r w' :
  ClientStore.getNarinfoFileListForNixPaths host sp cache nixPaths w = (r, w') →
  w' = with_log (log w ++ [EvNarinfoLookup sp cache nixPaths]) w.
Proof.
  unfold ClientStore.getNarinfoFileListForNixPaths, bind, emit. by intros [= _ <-].
Qed.

(** The steps up to the reading of the instruction. *)
Lemma dummy2_prologue workdirPath instructionPath w w1 w2 w3 wv instruction :
  mkdir_recursive workdirPath w = (Ok tt, w1) →
  console_log "Decompressing instruction" w1 = (Ok tt, w2) →
  Instructions.decompressInstructionDir host workdirPath instructionPath w2 = (Ok tt, w3) →
  Instructions.readDirInstruction host workdirPath w3 = (Ok instruction, wv) →
  log wv = log w ++ [EvMkdir workdirPath; EvConsole "Decompressing instruction";
                     EvDecompress workdirPath instructionPath;
                     EvReadDirInstruction workdirPath]
  ∧ readDirInstruction_result host wv workdirPath = Ok instruction.
Proof.
  intros H1 H2 H3 H4.
  apply MainFacts.mkdir_recursive_inv in H1 as [[_ ->]|(e & [=] & _)].
  apply emit_inv in H2 as [_ ->].
  apply MainFacts.decompress_inv in H3 as ->.
  apply readDirInstruction_inv in H4 as [-> Hread].
  split; [|done]. simpl. by rewrite <- !app_assoc.
Qed.

(** X13. In every run of the handler of [dummy2], whatever its outcome,
    the system profile is as it was; and the store is as it was unless
    the instruction read from the workdir had the kind [switch], the
    validation of the workdir passed, and the store tool accepted the
    import, and then it is the store that the tool left. *)
Theorem dummy2_imports_after_validation
    (workdirPath instructionPath clientStateStorePath storePath : Path) (w : World) :
  let result :=
    Main.dummy2 host workdirPath instructionPath clientStateStorePath storePath w in
  system result.2 = system w
  ∧ (store result.2 = store w
     ∨ ∃ instruction wv wi valid,
         log wv = log w ++ [EvMkdir workdirPath; EvConsole "Decompressing instruction";
                            EvDecompress workdirPath instructionPath;
                            EvReadDirInstruction workdirPath]
         ∧ readDirInstruction_result host wv workdirPath = Ok instruction
         ∧ DirInstruction.kind instruction = "switch"
         ∧ Instructions.assertInstructionDirValid host workdirPath wv = (Ok tt, wv)
         ∧ copyArchiveToStore_result host wi
             (path_join workdirPath
                (DirInstruction.archivePath (DirInstruction.item instruction)))
             (DirInstruction.itemPath (DirInstruction.item instruction))
             (LoadArchive.store_argument storePath) = Ok valid
         ∧ store result.2 = valid).
Proof.
  intros result. subst result. split.
  { destruct (Main.dummy2 host workdirPath instructionPath clientStateStorePath
                storePath w) as [r w'] eqn:Hrun.
    by apply dummy2_system in Hrun. }
  unfold Main.dummy2.
  pose (Q := fun wf : World =>
    ∃ instruction wv wi valid,
      log wv = log w ++ [EvMkdir workdirPath; EvConsole "Decompressing instruction";
                         EvDecompress workdirPath instructionPath;
                         EvReadDirInstruction workdirPath]
      ∧ readDirInstruction_result host wv workdirPath = Ok instruction
      ∧ DirInstruction.kind instruction = "switch"
      ∧ Instructions.assertInstructionDirValid host workdirPath wv = (Ok tt, wv)
      ∧ copyArchiveToStore_result host wi
          (path_join workdirPath
             (DirInstruction.archivePath (DirInstruction.item instruction)))
          (DirInstruction.itemPath (DirInstruction.item instruction))
          (LoadArchive.store_argument storePath) = Ok valid
      ∧ store wf = valid).
  apply (store_bind _ _ Q); [by apply preserving_mkdir|intros [] w1 H1].
  apply (store_bind _ _ Q); [by apply preserving_emit|intros [] w2 H2].
  apply (store_bind _ _ Q); [by apply preserving_decompress|intros [] w3 H3].
  apply (store_bind _ _ Q).
  { unfold Instructions.readDirInstruction. by repeat preserving_step. }
  intros instruction wv H4.
  destruct (dummy2_prologue _ _ _ _ _ _ _ _ H1 H2 H3 H4) as [Hlog Hread].
  destruct (bool_decide (DirInstruction.kind instruction = "switch")) eqn:Hkind;
    simpl; [|by left].
  apply bool_decide_eq_true in Hkind.
  apply (store_bind _ _ Q); [apply preserving_assert|intros [] wv' H5].
  pose proof (assertInstructionDirValid_inv _ _ _ _ H5) as ->.
  apply (store_bind _ _ Q); [apply preserving_listing|intros listing w6 H6].
  apply (store_bind _ _ Q).
  { apply preserving_for_each. intros p. by apply preserving_emit. }
  intros [] w7 H7.
  apply (store_bind _ _ Q).
  { unfold ClientStore.getNarinfoFileListForNixPaths. by repeat preserving_step. }
  intros deps w8 H8.
  apply (store_bind _ _ Q).
  { apply preserving_for_each. intros p. by apply preserving_copyFile. }
  intros [] w9 H9.
  apply (store_bind _ _ Q); [by apply preserving_emit|intros [] w10 H10].
  match goal with
  | |- store (bind (NixArchive.copyArchiveToStore host ?a ?i ?s) ?k ?w0).2 = _ ∨ _ =>
      destruct (import_then a i s k w0) as [Hsame|(wi & valid & Himport & Hstore)]
  end.
  - intros _. unfold console_log, ClientStore.copyNarinfoFilesToCache.
    by repeat preserving_step.
  - by left.
  - right. exists instruction, wv, wi, valid. by split_and!.
Qed.

(** X15. When the handler of [dummy2] returns, its effects were, in this
    order: the making of the workdir, the decompression and the reading
    of the instruction; one line of output for each file of the archive
    directory as it is then; the lookup of the info files of the
    dependencies and their copies into the archive directory; the import
    into the store; the copy into the cache of each file listed before,
    whatever its name; and the removal of the workdir. *)
Theorem dummy2_steps
    (workdirPath instructionPath clientStateStorePath storePath : Path) (w w' : World) :
  Main.dummy2 host workdirPath instructionPath clientStateStorePath storePath w
  = (Ok tt, w') →
  ∃ instruction wv deps,
    let archivePath :=
      path_join workdirPath
        (DirInstruction.archivePath (DirInstruction.item instruction)) in
    let listing := Files.entries archivePath wv in
    let sp := LoadArchive.store_argument storePath in
    readDirInstruction_result host wv workdirPath = Ok instruction
    ∧ log wv = log w ++ [EvMkdir workdirPath; EvConsole "Decompressing instruction";
                         EvDecompress workdirPath instructionPath;
                         EvReadDirInstruction workdirPath]
    ∧ log w' = log wv
        ++ ((fun p => EvConsole (render p)) <$> listing)
        ++ [EvNarinfoLookup sp clientStateStorePath
              (nixPath <$> DirInstruction.deltaDependencies instruction)]
        ++ (copy_event archivePath <$> deps)
        ++ [EvConsole "Copying nix store items to the store";
            EvCopyArchiveToStore archivePath
              (DirInstruction.itemPath (DirInstruction.item instruction)) sp;
            EvConsole "Updating local config"]
        ++ (copy_event clientStateStorePath <$> listing)
        ++ [EvConsole "Cleaning up"; EvRm workdirPath].
Proof.
  intros Hrun. unfold Main.dummy2 in Hrun.
  apply bind_ok in Hrun as ([] & w1 & H1 & Hrun).
  apply bind_ok in Hrun as ([] & w2 & H2 & Hrun).
  apply bind_ok in Hrun as ([] & w3 & H3 & Hrun).
  apply bind_ok in Hrun as (instruction & wv & H4 & Hrun).
  destruct (dummy2_prologue _ _ _ _ _ _ _ _ H1 H2 H3 H4) as [Hlog Hread].
  destruct (bool_decide (DirInstruction.kind instruction = "switch")); [|done].
  simpl in Hrun.
  apply bind_ok in Hrun as ([] & wv' & H5 & Hrun).
  pose proof (assertInstructionDirValid_inv _ _ _ _ H5) as ->.
  apply bind_ok in Hrun as (listing & w6 & H6 & Hrun).
  apply bind_ok in Hrun as ([] & w7 & H7 & Hrun).
  apply bind_ok in Hrun as (deps & w8 & H8 & Hrun).
  apply bind_ok in Hrun as ([] & w9 & H9 & Hrun).
  apply bind_ok in Hrun as ([] & w10 & H10 & Hrun).
  apply bind_ok in Hrun as ([] & w11 & H11 & Hrun).
  apply bind_ok in Hrun as ([] & w12 & H12 & Hrun).
  apply bind_ok in Hrun as ([] & w13 & H13 & Hrun).
  apply bind_ok in Hrun as ([] & w14 & H14 & Hrun).
  exists instruction, wv, deps. split; [done|]. split; [done|].
  unfold Files.getAbsoluteFilesListInDir in H6.
  case_decide; [|done]. injection H6 as <- <-.
  rewrite for_each_console in H7. injection H7 as <-.
  apply lookup_inv in H8 as ->.
  apply copy_into_log in H9 as ((k9 & Hlog9 & Hk9) & _).
  rewrite (Hk9 eq_refl), firstn_all in Hlog9.
  apply emit_inv in H10 as [_ ->].
  assert (log w11 = log w9 ++ [EvConsole "Copying nix store items to the store";
            EvCopyArchiveToStore
              (path_join workdirPath
                 (DirInstruction.archivePath (DirInstruction.item instruction)))
              (DirInstruction.itemPath (DirInstruction.item instruction))
              (LoadArchive.store_argument storePath)]) as Hlog11.
  { unfold NixArchive.copyArchiveToStore, bind, emit in H11.
    destruct (copyArchiveToStore_result host _ _ _ _); [|done].
    injection H11 as <-. simpl. by rewrite <- app_assoc. }
  apply emit_inv in H12 as [_ ->].
  apply copy_into_log in H13 as ((k13 & Hlog13 & Hk13) & _).
  rewrite (Hk13 eq_refl), firstn_all in Hlog13.
  apply emit_inv in H14 as [_ ->].
  apply rm_recursive_inv in Hrun as (Hlog' & _).
  rewrite Hlog'. simpl. rewrite Hlog13. simpl. rewrite Hlog11, Hlog9. simpl.
  rewrite <- !app_assoc. done.
Qed.

End WithHost.

(** The handler on the target of [Scenario], with the instruction load,
    switch: the store gains the item. *)
Lemma dummy2_steps_witness :
  ∃ w',
    Main.dummy2 Scenario.installing_host Scenario.instruction_dir
      ["srv"; "instruction.tar.xz"] Scenario.cache_dir [] Scenario.waiting = (Ok tt, w')
    ∧ ∃ before,
        log w' = before ++ [EvConsole "Cleaning up"; EvRm Scenario.instruction_dir].
Proof.
  destruct (Main.dummy2 Scenario.installing_host Scenario.instruction_dir
              ["srv"; "instruction.tar.xz"] Scenario.cache_dir [] Scenario.waiting)
    as [r w'] eqn:Hrun.
  assert (r = Ok tt) as ->.
  { apply (f_equal fst) in Hrun. vm_compute in Hrun. by subst r. }
  exists w'. split; [done|].
  destruct (dummy2_steps Scenario.installing_host _ _ _ _ _ _ Hrun)
    as (instruction & wv & deps & _ & _ & Hlog).
  eexists. rewrite Hlog, !app_assoc. reflexivity.
Defined.

End MainRuns.

(** * [main.ts]: the handler of the command [build] *)

Module MainBuildFacts.
Import NixFlake.

(** X16. On every host and in every state, the handler of [build]
    prints [Building] and then runs [nix flake info --json undefined]:
    the flake it asks about, and then shows and builds, is named
    [undefined], not the path of the flake. Whatever the outcome, the
    commands run are a beginning of info, show, build on that name, and
    nothing but the log has changed. *)
Theorem build_handler_names_no_flake (host : Host) (w : World) :
  let result := MainBuild.build host w in
  let store := "/home/arduano/programming/spiralblue/vms/test-flake/.nix" in
  ∃ commands gitRev,
    result.2 = with_log (log w ++ EvConsole "Building" :: (EvExec <$> commands)) w
    ∧ commands `prefix_of`
        ["nix flake info --json undefined";
         show_command "undefined" gitRev;
         build_command store "undefined" gitRev "testvm"]
    ∧ commands ≠ [].
Proof.
  intros result store. subst result. unfold MainBuild.build.
  cbv zeta. unfold bind at 1. unfold console_log, emit.
  set (w1 := with_log (log w ++ [EvConsole "Building"]) w).
  unfold bind.
  destruct (buildSystemFlake host _ w1) as [r w'] eqn:Hrun.
  assert (∃ commands gitRev,
            w' = with_log (log w1 ++ (EvExec <$> commands)) w1
            ∧ commands `prefix_of`
                ["nix flake info --json undefined";
                 show_command "undefined" gitRev;
                 build_command store "undefined" gitRev "testvm"]
            ∧ commands ≠ []) as (commands & gitRev & -> & Hprefix & Hne).
  { apply NixFlakeRuns.buildSystemFlake_inv in Hrun. simpl in Hrun.
    destruct Hrun as [(e & _ & -> & ->)|(gitRev & H1 & Hrun)].
    { exists ["nix flake info --json undefined"], None. split_and!; try done.
      by apply prefix_cons, prefix_nil. }
    destruct Hrun as [(e & _ & -> & ->)|(hostnames & H2 & Hrun)].
    { exists ["nix flake info --json undefined"; show_command "undefined" gitRev], gitRev.
      split_and!; try done. by apply prefix_cons, prefix_cons, prefix_nil. }
    destruct Hrun as [(Hnot & -> & ->)|(Hin & -> & ->)].
    { exists ["nix flake info --json undefined"; show_command "undefined" gitRev], gitRev.
      split_and!; try done. by apply prefix_cons, prefix_cons, prefix_nil. }
    exists ["nix flake info --json undefined"; show_command "undefined" gitRev;
            build_command store "undefined" gitRev "testvm"], gitRev.
    split_and!; done. }
  exists commands, gitRev. split_and!; [|done..].
  assert (with_log (log w1 ++ (EvExec <$> commands)) w1
          = with_log (log w ++ EvConsole "Building" :: (EvExec <$> commands)) w) as Hw.
  { unfold w1, with_log. simpl. by rewrite <- app_assoc. }
  by destruct r.
Qed.

End MainBuildFacts.
